(** * A shallow embedding of the portfolio page script (script.js)

    Two components of the script are modelled:

    - [Background3D], the animated scene controller: construction with
      its fallback, the per-frame update [animate], the resize handler
      and [dispose];
    - [ContactForm], the client-side validation and submission flow.

    JavaScript numbers are idealised as real numbers, with one
    exception: a store into a [Float32Array] rounds to single precision,
    and that rounding is modelled ([Float32.fround]).  The objects of
    the rendering library and of the browser that the script manipulates
    are records that keep exactly the fields the script reads or writes,
    and calls whose effect lives outside the script (render,
    rotateOnAxis, dispose) are recorded as counters or logs on those
    records. *)

From Stdlib Require Import Reals Lra Lia String Ascii NArith Bool.
From stdpp Require Import base list strings gmap.

#[global] Set Warnings "-clear-no-such-hyp".

(** ** The rendering-library objects used by the script *)
Module Three.
#[local] Open Scope R_scope.

Record Vector2 := mkV2 { x2 : R; y2 : R }.
Record Vector3 := mkV3 { vx : R; vy : R; vz : R }.

Definition origin : Vector3 := mkV3 0 0 0.

Definition v3_length (v : Vector3) : R :=
  sqrt (vx v * vx v + vy v * vy v + vz v * vz v).

(** [a || 1] on numbers: the right operand when the left one is zero. *)
Definition or_one (a : R) : R := if Req_dec_T a 0 then 1 else a.

Definition divideScalar (v : Vector3) (s : R) : Vector3 :=
  mkV3 (vx v / s) (vy v / s) (vz v / s).

(** Vector3.normalize: [this.divideScalar(this.length() || 1)]. *)
Definition normalize (v : Vector3) : Vector3 :=
  divideScalar v (or_one (v3_length v)).

Definition set_y (v : Vector3) (y : R) : Vector3 := mkV3 (vx v) y (vz v).
Definition set_xy (v : Vector3) (x y : R) : Vector3 := mkV3 x y (vz v).

(** THREE.Clock, reading the time source [now] (performance.now()). *)
Record Clock := mkClock {
  autoStart : bool;
  startTime : R;
  oldTime : R;
  elapsedTime : R;
  running : bool }.

Definition new_Clock : Clock := mkClock true 0 0 0 false.

Definition clock_start (now : R) (c : Clock) : Clock :=
  mkClock (autoStart c) now now 0 true.

Definition getDelta (now : R) (c : Clock) : R * Clock :=
  if autoStart c && negb (running c) then (0, clock_start now c)
  else if running c then
    let diff := (now - oldTime c) / 1000 in
    (diff, mkClock (autoStart c) (startTime c) now (elapsedTime c + diff) true)
  else (0, c).

Definition getElapsedTime (now : R) (c : Clock) : R * Clock :=
  let c' := snd (getDelta now c) in (elapsedTime c', c').

Inductive GeometryKind := Torus | Octahedron | Tetrahedron | Icosahedron.

(** [mesh.userData] as the script fills it. *)
Record UserData := mkUserData {
  initialY : R;
  speed : R;
  offset : R;
  rotationAxis : Vector3 }.

(** A mesh owns one geometry and one (cloned) material; the two counters
    count the [dispose()] calls each has received, [rotations] logs the
    [rotateOnAxis(axis, angle)] calls in order. *)
Record Mesh := mkMesh {
  mesh_index : nat;
  kind : GeometryKind;
  position : Vector3;
  userData : UserData;
  mesh_time : R;
  rotations : list (Vector3 * R);
  geometry_disposed : nat;
  material_disposed : nat }.

(** The particle system: a BufferGeometry with the flat [position] and
    [scale] attributes and a ShaderMaterial with its [time] uniform. *)
Record Points := mkPoints {
  positions : list R;
  scales : list R;
  points_time : R;
  points_geometry_disposed : nat;
  points_material_disposed : nat }.

Inductive Object3D :=
| OPoints
| OMesh (i : nat)
| OAmbientLight
| OPointLight.

Definition object_eqb (a b : Object3D) : bool :=
  match a, b with
  | OPoints, OPoints => true
  | OMesh i, OMesh j => Nat.eqb i j
  | OAmbientLight, OAmbientLight => true
  | OPointLight, OPointLight => true
  | _, _ => false
  end.

(** A scene is its list of children; [scene.position] is never written
    by the script and stays at the origin. *)
Record Scene := mkScene { children : list Object3D }.

Definition scene_position (s : Scene) : Vector3 := origin.
Definition scene_add (o : Object3D) (s : Scene) : Scene :=
  mkScene (children s ++ [o]).
Definition scene_remove (o : Object3D) (s : Scene) : Scene :=
  mkScene (List.filter (fun c => negb (object_eqb c o)) (children s)).

(** PerspectiveCamera; [projection_aspect] is the aspect the projection
    matrix was last computed from, [aim] the last [lookAt] target. *)
Record Camera := mkCamera {
  fov : R;
  aspect : R;
  near : R;
  far : R;
  cam_position : Vector3;
  aim : option Vector3;
  projection_aspect : R }.

Definition new_PerspectiveCamera (fov aspect near far : R) : Camera :=
  mkCamera fov aspect near far origin None aspect.

Definition updateProjectionMatrix (c : Camera) : Camera :=
  mkCamera (fov c) (aspect c) (near c) (far c) (cam_position c) (aim c) (aspect c).

Definition set_aspect (a : R) (c : Camera) : Camera :=
  mkCamera (fov c) a (near c) (far c) (cam_position c) (aim c) (projection_aspect c).

Definition set_cam_position (p : Vector3) (c : Camera) : Camera :=
  mkCamera (fov c) (aspect c) (near c) (far c) p (aim c) (projection_aspect c).

Definition lookAt (t : Vector3) (c : Camera) : Camera :=
  mkCamera (fov c) (aspect c) (near c) (far c) (cam_position c) (Some t)
           (projection_aspect c).

(** WebGLRenderer; [domElement] is the identity of its canvas, [frames]
    counts the [render] calls. *)
Record Renderer := mkRenderer {
  domElement : nat;
  antialias : bool;
  width : R;
  height : R;
  pixelRatio : R;
  frames : nat;
  renderer_disposed : nat }.

Definition setSize (w h : R) (r : Renderer) : Renderer :=
  mkRenderer (domElement r) (antialias r) w h (pixelRatio r) (frames r)
             (renderer_disposed r).

Definition setPixelRatio (p : R) (r : Renderer) : Renderer :=
  mkRenderer (domElement r) (antialias r) (width r) (height r) p (frames r)
             (renderer_disposed r).

Definition render (r : Renderer) : Renderer :=
  mkRenderer (domElement r) (antialias r) (width r) (height r) (pixelRatio r)
             (S (frames r)) (renderer_disposed r).

Definition renderer_dispose (r : Renderer) : Renderer :=
  mkRenderer (domElement r) (antialias r) (width r) (height r) (pixelRatio r)
             (frames r) (S (renderer_disposed r)).

End Three.

(** ** Single-precision stores

    A [Float32Array] element holds an IEEE 754 binary32 number: an
    assignment converts the value by rounding to nearest, ties to even
    (what [Math.fround] computes). *)
Module Float32.
#[local] Open Scope R_scope.

(** The integer nearest to [t]; of two equally near, the even one. *)
Definition nearest_even (t : R) : Z :=
  let n := Int_part t in
  let f := t - IZR n in
  if Rlt_dec f (1 / 2) then n
  else if Rlt_dec (1 / 2) f then (n + 1)%Z
  else if Z.even n then n else (n + 1)%Z.

(** The largest exponent [e'] with [2^e' <= a] among [e], [e - 1], ...
    down to [e - fuel + 1], and [e - fuel] when there is none. *)
Fixpoint binade_from (fuel : nat) (e : Z) (a : R) : Z :=
  match fuel with
  | O => e
  | S k => if Rle_dec (powerRZ 2 e) a then e else binade_from k (e - 1) a
  end.

(** The binary32 exponent of a magnitude: between -126 (zero and the
    subnormal numbers included) and 127. *)
Definition binade (a : R) : Z := binade_from 253 127 a.

(** The spacing of the binary32 numbers around [x]: 24 significant
    bits. *)
Definition ulp (x : R) : R := powerRZ 2 (binade (Rabs x) - 23).

(** The binary32 number nearest to [x].  Beyond the binary32 range
    (magnitudes of about 3.4e38 and more) the conversion gives an
    infinity, which a real number cannot represent; the script stores no
    value of magnitude above 25. *)
Definition fround (x : R) : R := IZR (nearest_even (x / ulp x)) * ulp x.

(** [array[i] = v] on a [Float32Array]; an index outside the array is
    ignored. *)
Definition store (i : nat) (v : R) (a : list R) : list R :=
  <[i := fround v]> a.

End Float32.

(** ** The browser as the script sees it *)
Module Browser.
#[local] Open Scope R_scope.

(** The library and DOM calls of the construction sequence that may
    throw: creating the clock (in the constructor, before [init] is
    called), then inside [init] creating the scene, the camera, the
    renderer, attaching the canvas, building the particle system,
    building the solids. *)
Inductive Stage :=
| AtClock
| AtScene | AtCamera | AtRenderer | AtAttach | AtParticles | AtSolids.

Definition stage_eqb (a b : Stage) : bool :=
  match a, b with
  | AtClock, AtClock
  | AtScene, AtScene | AtCamera, AtCamera | AtRenderer, AtRenderer
  | AtAttach, AtAttach | AtParticles, AtParticles | AtSolids, AtSolids => true
  | _, _ => false
  end.

(** [webgl] is what the capability probe finds, [fault] the call of the
    construction sequence that throws (if any), [rand] the successive
    results of the script's own calls of [Math.random()] (the rendering
    library draws from the same generator for its object identifiers;
    those draws are not part of the sequence) and [rngPos] how many have
    been consumed.
    [nextId] allocates object identities (canvases, function objects);
    [containerChildren] are the canvases attached to the container,
    [resizeListeners] and [mousemoveListeners] the registered function
    objects, [scheduled] the pending animation-frame requests. *)
Record Host := mkHost {
  webgl : bool;
  fault : option Stage;
  rand : nat -> R;
  rngPos : nat;
  innerWidth : R;
  innerHeight : R;
  devicePixelRatio : R;
  hidden : bool;
  now : R;
  nextId : nat;
  containerChildren : list nat;
  resizeListeners : list nat;
  mousemoveListeners : list nat;
  scheduled : list nat;
  nextFrame : nat;
  bodyBackground : option string;
  console : list string }.

Definition set_rngPos (v : nat) (h : Host) : Host :=
  mkHost (webgl h) (fault h) (rand h) v (innerWidth h) (innerHeight h)
    (devicePixelRatio h) (hidden h) (now h) (nextId h) (containerChildren h)
    (resizeListeners h) (mousemoveListeners h) (scheduled h) (nextFrame h)
    (bodyBackground h) (console h).

Definition set_viewport (w ht : R) (h : Host) : Host :=
  mkHost (webgl h) (fault h) (rand h) (rngPos h) w ht
    (devicePixelRatio h) (hidden h) (now h) (nextId h) (containerChildren h)
    (resizeListeners h) (mousemoveListeners h) (scheduled h) (nextFrame h)
    (bodyBackground h) (console h).

Definition set_hidden (v : bool) (h : Host) : Host :=
  mkHost (webgl h) (fault h) (rand h) (rngPos h) (innerWidth h) (innerHeight h)
    (devicePixelRatio h) v (now h) (nextId h) (containerChildren h)
    (resizeListeners h) (mousemoveListeners h) (scheduled h) (nextFrame h)
    (bodyBackground h) (console h).

Definition set_now (v : R) (h : Host) : Host :=
  mkHost (webgl h) (fault h) (rand h) (rngPos h) (innerWidth h) (innerHeight h)
    (devicePixelRatio h) (hidden h) v (nextId h) (containerChildren h)
    (resizeListeners h) (mousemoveListeners h) (scheduled h) (nextFrame h)
    (bodyBackground h) (console h).

Definition set_nextId (v : nat) (h : Host) : Host :=
  mkHost (webgl h) (fault h) (rand h) (rngPos h) (innerWidth h) (innerHeight h)
    (devicePixelRatio h) (hidden h) (now h) v (containerChildren h)
    (resizeListeners h) (mousemoveListeners h) (scheduled h) (nextFrame h)
    (bodyBackground h) (console h).

Definition set_containerChildren (v : list nat) (h : Host) : Host :=
  mkHost (webgl h) (fault h) (rand h) (rngPos h) (innerWidth h) (innerHeight h)
    (devicePixelRatio h) (hidden h) (now h) (nextId h) v
    (resizeListeners h) (mousemoveListeners h) (scheduled h) (nextFrame h)
    (bodyBackground h) (console h).

Definition set_resizeListeners (v : list nat) (h : Host) : Host :=
  mkHost (webgl h) (fault h) (rand h) (rngPos h) (innerWidth h) (innerHeight h)
    (devicePixelRatio h) (hidden h) (now h) (nextId h) (containerChildren h)
    v (mousemoveListeners h) (scheduled h) (nextFrame h)
    (bodyBackground h) (console h).

Definition set_mousemoveListeners (v : list nat) (h : Host) : Host :=
  mkHost (webgl h) (fault h) (rand h) (rngPos h) (innerWidth h) (innerHeight h)
    (devicePixelRatio h) (hidden h) (now h) (nextId h) (containerChildren h)
    (resizeListeners h) v (scheduled h) (nextFrame h)
    (bodyBackground h) (console h).

Definition set_scheduled (v : list nat) (h : Host) : Host :=
  mkHost (webgl h) (fault h) (rand h) (rngPos h) (innerWidth h) (innerHeight h)
    (devicePixelRatio h) (hidden h) (now h) (nextId h) (containerChildren h)
    (resizeListeners h) (mousemoveListeners h) v (nextFrame h)
    (bodyBackground h) (console h).

Definition set_nextFrame (v : nat) (h : Host) : Host :=
  mkHost (webgl h) (fault h) (rand h) (rngPos h) (innerWidth h) (innerHeight h)
    (devicePixelRatio h) (hidden h) (now h) (nextId h) (containerChildren h)
    (resizeListeners h) (mousemoveListeners h) (scheduled h) v
    (bodyBackground h) (console h).

Definition set_bodyBackground (v : option string) (h : Host) : Host :=
  mkHost (webgl h) (fault h) (rand h) (rngPos h) (innerWidth h) (innerHeight h)
    (devicePixelRatio h) (hidden h) (now h) (nextId h) (containerChildren h)
    (resizeListeners h) (mousemoveListeners h) (scheduled h) (nextFrame h)
    v (console h).

Definition set_console (v : list string) (h : Host) : Host :=
  mkHost (webgl h) (fault h) (rand h) (rngPos h) (innerWidth h) (innerHeight h)
    (devicePixelRatio h) (hidden h) (now h) (nextId h) (containerChildren h)
    (resizeListeners h) (mousemoveListeners h) (scheduled h) (nextFrame h)
    (bodyBackground h) v.

(** [Math.random()]: the next element of the stream. *)
Definition Math_random (h : Host) : R * Host :=
  (rand h (rngPos h), set_rngPos (S (rngPos h)) h).

(** A fresh object identity (a new canvas, a new function object). *)
Definition fresh (h : Host) : nat * Host :=
  (nextId h, set_nextId (S (nextId h)) h).

(** [requestAnimationFrame(cb)]: a new pending request and its id. *)
Definition requestAnimationFrame (h : Host) : nat * Host :=
  (nextFrame h,
   set_nextFrame (S (nextFrame h)) (set_scheduled (scheduled h ++ [nextFrame h]) h)).

(** [cancelAnimationFrame(id)]; [null] names no request. *)
Definition cancelAnimationFrame (id : option nat) (h : Host) : Host :=
  match id with
  | Some i => set_scheduled (List.filter (fun j => negb (Nat.eqb j i)) (scheduled h)) h
  | None => h
  end.

(** [target.removeEventListener(type, f)] removes the registration of
    the very function object [f], and nothing when [f] is not registered. *)
Definition remove_listener (f : nat) (ls : list nat) : list nat :=
  List.filter (fun g => negb (Nat.eqb g f)) ls.

End Browser.

(** ** The animated scene controller *)
Module Background.
Import Three Browser.
#[local] Open Scope R_scope.

Record SceneConfig := mkConfig {
  particleCount : nat;
  particleSize : R;
  particleColor : N;
  particleOpacity : R;
  cameraFOV : R;
  cameraDistance : R;
  rotationSpeed : R;
  floatingSpeed : R;
  mouseEffect : R }.

(** The configuration literal of the constructor. *)
Definition default_config : SceneConfig :=
  mkConfig 2000 0.02 0x667eea 0.8 60 15 0.0005 0.002 0.02.

Record Background3D := mkBackground {
  config : SceneConfig;
  scene : option Scene;
  camera : option Camera;
  renderer : option Renderer;
  particles : option Points;
  geometries : list Mesh;
  mouse : Vector2;
  targetMouse : Vector2;
  frameId : option nat;
  isActive : bool;
  clock : Clock }.

Definition set_scene (v : option Scene) (b : Background3D) : Background3D :=
  mkBackground (config b) v (camera b) (renderer b) (particles b) (geometries b)
    (mouse b) (targetMouse b) (frameId b) (isActive b) (clock b).

Definition set_camera (v : option Camera) (b : Background3D) : Background3D :=
  mkBackground (config b) (scene b) v (renderer b) (particles b) (geometries b)
    (mouse b) (targetMouse b) (frameId b) (isActive b) (clock b).

Definition set_renderer (v : option Renderer) (b : Background3D) : Background3D :=
  mkBackground (config b) (scene b) (camera b) v (particles b) (geometries b)
    (mouse b) (targetMouse b) (frameId b) (isActive b) (clock b).

Definition set_particles (v : option Points) (b : Background3D) : Background3D :=
  mkBackground (config b) (scene b) (camera b) (renderer b) v (geometries b)
    (mouse b) (targetMouse b) (frameId b) (isActive b) (clock b).

Definition set_geometries (v : list Mesh) (b : Background3D) : Background3D :=
  mkBackground (config b) (scene b) (camera b) (renderer b) (particles b) v
    (mouse b) (targetMouse b) (frameId b) (isActive b) (clock b).

Definition set_mouse (v : Vector2) (b : Background3D) : Background3D :=
  mkBackground (config b) (scene b) (camera b) (renderer b) (particles b)
    (geometries b) v (targetMouse b) (frameId b) (isActive b) (clock b).

Definition set_frameId (v : option nat) (b : Background3D) : Background3D :=
  mkBackground (config b) (scene b) (camera b) (renderer b) (particles b)
    (geometries b) (mouse b) (targetMouse b) v (isActive b) (clock b).

Definition set_isActive (v : bool) (b : Background3D) : Background3D :=
  mkBackground (config b) (scene b) (camera b) (renderer b) (particles b)
    (geometries b) (mouse b) (targetMouse b) (frameId b) v (clock b).

Definition set_clock (v : Clock) (b : Background3D) : Background3D :=
  mkBackground (config b) (scene b) (camera b) (renderer b) (particles b)
    (geometries b) (mouse b) (targetMouse b) (frameId b) (isActive b) v.

(** The store: the controller object and the browser around it. *)
Record St := mkSt { bg : Background3D; host : Host }.

(** Methods are state transformers that return a value or throw; what
    was written before a throw stays written. *)
Inductive Result (A : Type) :=
| Ok (a : A)
| Throw (e : string).
Arguments Ok {A} a.
Arguments Throw {A} e.

Definition M (A : Type) : Type := St -> Result A * St.

Definition ret {A} (a : A) : M A := fun s => (Ok a, s).
Definition throw {A} (e : string) : M A := fun s => (Throw e, s).
Definition bind {A B} (m : M A) (k : A -> M B) : M B :=
  fun s => match m s with
           | (Ok a, s') => k a s'
           | (Throw e, s') => (Throw e, s')
           end.

#[global] Instance M_ret : MRet M := @ret.
#[global] Instance M_bind : MBind M := fun A B k m => bind m k.

Definition get_bg : M Background3D := fun s => (Ok (bg s), s).
Definition get_host : M Host := fun s => (Ok (host s), s).
Definition upd_bg (f : Background3D -> Background3D) : M unit :=
  fun s => (Ok tt, mkSt (f (bg s)) (host s)).
Definition upd_host (f : Host -> Host) : M unit :=
  fun s => (Ok tt, mkSt (bg s) (f (host s))).
Definition on_host {A} (f : Host -> A * Host) : M A :=
  fun s => (Ok (fst (f (host s))), mkSt (bg s) (snd (f (host s)))).

(** Dereferencing a field that is still [null] throws a TypeError. *)
Definition deref {A} (o : option A) : M A :=
  match o with
  | Some a => ret a
  | None => throw "TypeError"
  end.

(** A library or DOM call of the construction sequence: it throws when
    the host has a fault at that stage. *)
Definition ext (st : Stage) : M unit :=
  h ← get_host;
  match fault h with
  | Some f => if stage_eqb f st then throw "Error" else ret tt
  | None => ret tt
  end.

(** [isWebGLAvailable]: the probe is wrapped in try/catch and only ever
    returns a boolean. *)
Definition isWebGLAvailable : M bool :=
  h ← get_host; ret (webgl h).

(** [this.scene.add(o)] and [this.scene.remove(o)]. *)
Definition scene_add_m (o : Object3D) : M unit :=
  b ← get_bg;
  sc ← deref (scene b);
  upd_bg (set_scene (Some (scene_add o sc))).

(** The body of the [for] loop of [createParticles], [todo] iterations
    from index [i] on.  [positions] and [scales] are [Float32Array]s:
    every write rounds to single precision. *)
Fixpoint particles_loop (todo i : nat) (pos scl : list R) (h : Host)
  : list R * list R * Host :=
  match todo with
  | O => (pos, scl, h)
  | S todo' =>
    let i3 := (i * 3)%nat in
    let '(r1, h) := Math_random h in
    let pos := Float32.store i3 ((r1 - 0.5) * 50) pos in
    let '(r2, h) := Math_random h in
    let pos := Float32.store (i3 + 1)%nat ((r2 - 0.5) * 50) pos in
    let '(r3, h) := Math_random h in
    let pos := Float32.store (i3 + 2)%nat ((r3 - 0.5) * 50) pos in
    let '(r4, h) := Math_random h in
    let scl := Float32.store i r4 scl in
    particles_loop todo' (S i) pos scl h
  end.

Definition createParticles : M unit :=
  ext AtParticles;;
  b ← get_bg;
  h ← get_host;
  let n := particleCount (config b) in
  let '(pos, scl, h') :=
    particles_loop n 0 (replicate (n * 3) 0) (replicate n 0) h in
  upd_host (fun _ => h');;
  upd_bg (set_particles (Some (mkPoints pos scl 0 0 0)));;
  scene_add_m OPoints.

(** The geometries of [createFloatingGeometries], in order. *)
Definition geometryKinds : list GeometryKind :=
  [Torus; Octahedron; Tetrahedron; Icosahedron].

(** The body of [geometries.forEach((geometry, i) => ...)]. *)
Definition create_mesh (k : GeometryKind) (i : nat) : M unit :=
  px ← on_host Math_random;
  py ← on_host Math_random;
  pz ← on_host Math_random;
  let p := mkV3 ((px - 0.5) * 20) ((py - 0.5) * 20) ((pz - 0.5) * 20) in
  sp ← on_host Math_random;
  off ← on_host Math_random;
  ax ← on_host Math_random;
  ay ← on_host Math_random;
  az ← on_host Math_random;
  let ud := mkUserData (vy p) (0.0005 + sp * 0.0005) (off * PI * 2)
              (normalize (mkV3 (ax - 0.5) (ay - 0.5) (az - 0.5))) in
  let mesh := mkMesh i k p ud 0 [] 0 0 in
  upd_bg (fun b => set_geometries (geometries b ++ [mesh]) b);;
  scene_add_m (OMesh i).

Fixpoint create_meshes (ks : list GeometryKind) (i : nat) : M unit :=
  match ks with
  | [] => ret tt
  | k :: ks' => create_mesh k i ;; create_meshes ks' (S i)
  end.

Definition createFloatingGeometries : M unit :=
  ext AtSolids;;
  scene_add_m OAmbientLight;;
  scene_add_m OPointLight;;
  create_meshes geometryKinds 0.

(** [addEventListeners]: [this.onWindowResize.bind(this)] and the arrow
    function are two new function objects. *)
Definition addEventListeners : M unit :=
  f ← on_host fresh;
  upd_host (fun h => set_resizeListeners (resizeListeners h ++ [f]) h);;
  g ← on_host fresh;
  upd_host (fun h => set_mousemoveListeners (mousemoveListeners h ++ [g]) h).

(** The mousemove listener. *)
Definition onMouseMove (clientX clientY : R) : M unit :=
  h ← get_host;
  upd_bg (fun b => set_mouse (mkV2 ((clientX / innerWidth h) * 2 - 1) (y2 (mouse b))) b);;
  upd_bg (fun b => set_mouse (mkV2 (x2 (mouse b)) (- (clientY / innerHeight h) * 2 + 1)) b).

Definition onWindowResize : M unit :=
  h ← get_host;
  b ← get_bg;
  c ← deref (camera b);
  upd_bg (set_camera (Some (updateProjectionMatrix
                              (set_aspect (innerWidth h / innerHeight h) c))));;
  r ← deref (renderer b);
  upd_bg (set_renderer (Some (setSize (innerWidth h) (innerHeight h) r))).


Definition set_points_time (t : R) (p : Points) : Points :=
  mkPoints (positions p) (scales p) t (points_geometry_disposed p)
           (points_material_disposed p).

(** The body of [this.geometries.forEach(mesh => ...)] in [animate]. *)
Definition animate_mesh (cfg : SceneConfig) (time : R) (m : Mesh) : Mesh :=
  mkMesh (mesh_index m) (kind m)
    (set_y (position m)
       (initialY (userData m)
        + sin (time * speed (userData m) + offset (userData m)) * 1.5))
    (userData m)
    time
    (rotations m ++ [(rotationAxis (userData m), rotationSpeed cfg)])
    (geometry_disposed m) (material_disposed m).

(** The camera easing of [animate]: x first, then y. *)
Definition steer (ms : Vector2) (k : R) (c : Camera) : Camera :=
  let p := cam_position c in
  let p := mkV3 (vx p + (x2 ms * 2 - vx p) * k) (vy p) (vz p) in
  let p := mkV3 (vx p) (vy p + (y2 ms * 2 - vy p) * k) (vz p) in
  set_cam_position p c.

Definition animate : M unit :=
  b ← get_bg;
  if negb (isActive b) then ret tt else
  id ← on_host requestAnimationFrame;
  upd_bg (set_frameId (Some id));;
  h ← get_host;
  if hidden h then ret tt else
  let c1 := snd (getDelta (now h) (clock b)) in
  let '(elapsed, c2) := getElapsedTime (now h) c1 in
  let time := elapsed * 1000 in
  upd_bg (set_clock c2);;
  upd_bg (fun b => match particles b with
                   | Some p => set_particles (Some (set_points_time time p)) b
                   | None => b
                   end);;
  upd_bg (fun b => set_geometries (map (animate_mesh (config b) time) (geometries b)) b);;
  b ← get_bg;
  c ← deref (camera b);
  upd_bg (set_camera (Some (steer (mouse b) (mouseEffect (config b)) c)));;
  sc ← deref (scene b);
  upd_bg (set_camera (Some (lookAt (scene_position sc)
                              (steer (mouse b) (mouseEffect (config b)) c))));;
  r ← deref (renderer b);
  upd_bg (set_renderer (Some (render r))).

Definition dispose_mesh (m : Mesh) : Mesh :=
  mkMesh (mesh_index m) (kind m) (position m) (userData m) (mesh_time m)
    (rotations m) (S (geometry_disposed m)) (S (material_disposed m)).

Definition dispose_points (p : Points) : Points :=
  mkPoints (positions p) (scales p) (points_time p)
    (S (points_geometry_disposed p)) (S (points_material_disposed p)).

Definition remove_meshes (ms : list Mesh) (sc : Scene) : Scene :=
  fold_left (fun sc m => scene_remove (OMesh (mesh_index m)) sc) ms sc.

(** [this.geometries.forEach(mesh => ...)] in [dispose]: each mesh has
    its geometry and material disposed and is removed from the scene;
    with meshes but no scene the first removal throws. *)
Definition dispose_geometries : M unit :=
  b ← get_bg;
  match geometries b with
  | [] => ret tt
  | m :: rest =>
    match scene b with
    | None =>
      upd_bg (set_geometries (dispose_mesh m :: rest));; throw "TypeError"
    | Some sc =>
      upd_bg (set_geometries (map dispose_mesh (m :: rest)));;
      upd_bg (set_scene (Some (remove_meshes (m :: rest) sc)))
    end
  end.

Definition scene_remove_particles : M unit :=
  b ← get_bg;
  sc ← deref (scene b);
  upd_bg (set_scene (Some (scene_remove OPoints sc))).

(** [container.removeChild(el)] throws when [el] is not a child. *)
Definition removeChild (el : nat) : M unit :=
  h ← get_host;
  if existsb (Nat.eqb el) (containerChildren h)
  then upd_host (set_containerChildren
                   (List.filter (fun c => negb (Nat.eqb c el)) (containerChildren h)))
  else throw "NotFoundError".

Definition dispose : M unit :=
  upd_bg (set_isActive false);;
  b ← get_bg;
  upd_host (cancelAnimationFrame (frameId b));;
  dispose_geometries;;
  b ← get_bg;
  match particles b with
  | Some p =>
    upd_bg (set_particles (Some (dispose_points p)));;
    scene_remove_particles
  | None => ret tt
  end;;
  b ← get_bg;
  match renderer b with
  | Some r =>
    upd_bg (set_renderer (Some (renderer_dispose r)));;
    removeChild (domElement r)
  | None => ret tt
  end;;
  f ← on_host fresh;
  upd_host (fun h => set_resizeListeners (remove_listener f (resizeListeners h)) h).

Definition fallbackBackground : M unit :=
  upd_host (set_bodyBackground
    (Some "linear-gradient(45deg, var(--primary-color), var(--secondary-color))"%string)).

Definition console_error (msg : string) : M unit :=
  upd_host (fun h => set_console (console h ++ [msg]) h).

Definition appendChild (el : nat) : M unit :=
  upd_host (fun h => set_containerChildren (containerChildren h ++ [el]) h).

Definition init : M unit :=
  ok ← isWebGLAvailable;
  if negb ok then throw "WebGL is not supported" else
  ext AtScene;;
  upd_bg (set_scene (Some (mkScene [])));;
  ext AtCamera;;
  h ← get_host;
  upd_bg (set_camera (Some
    (set_cam_position (mkV3 0 0 15)
       (new_PerspectiveCamera 60 (innerWidth h / innerHeight h) 1 100))));;
  ext AtRenderer;;
  el ← on_host fresh;
  let r := mkRenderer el (if Rlt_dec (devicePixelRatio h) 2 then true else false)
             300 150 1 0 0 in
  upd_bg (set_renderer (Some r));;
  upd_bg (set_renderer (Some (setSize (innerWidth h) (innerHeight h) r)));;
  upd_bg (set_renderer (Some
    (setPixelRatio (Rmin (devicePixelRatio h) 2)
       (setSize (innerWidth h) (innerHeight h) r))));;
  ext AtAttach;;
  appendChild el;;
  createParticles;;
  createFloatingGeometries;;
  addEventListeners;;
  animate.

Definition new_Background3D (cfg : SceneConfig) : Background3D :=
  mkBackground cfg None None None None [] (mkV2 0 0) (mkV2 0 0) None true
    new_Clock.

(** The last statement of the constructor, [this.init().catch(...)],
    on the object whose fields have been initialised, with [init] run to
    completion: the promise of [init()] either fulfils or is rejected
    and handled by the [catch] callback.  No event is delivered in
    between: every [await] of [init] waits on a promise that is already
    settled. *)
Definition construct (cfg : SceneConfig) (h : Host) : St :=
  match init (mkSt (new_Background3D cfg) h) with
  | (Ok _, s) => s
  | (Throw e, s) =>
    snd ((console_error "Failed to initialize 3D background:";;
          fallbackBackground) s)
  end.

(** [new Background3D()], the whole constructor.  Its field
    initialisers run before [init] is called and outside the [catch] of
    that call; one of them, [new THREE.Clock()], calls into the
    rendering library.  When it throws, the exception leaves the
    constructor: the caller gets no object, nothing of the page has been
    touched and no fallback is installed.  Otherwise the constructor
    returns the object that [construct] describes. *)
Definition constructor (cfg : SceneConfig) (h : Host) : Result St :=
  match fault h with
  | Some AtClock => Throw "ReferenceError"
  | _ => Ok (construct cfg h)
  end.

(** The render surface of the controller is attached to the container. *)
Definition surface_attached (s : St) : bool :=
  match renderer (bg s) with
  | Some r => existsb (Nat.eqb (domElement r)) (containerChildren (host s))
  | None => false
  end.

(** A callback invoked by the browser: when it throws, the store stays
    as the callback left it. *)
Definition run (m : M unit) (s : St) : St := snd (m s).

Fixpoint run_each {A} (ls : list A) (m : M unit) (s : St) : St :=
  match ls with
  | [] => s
  | _ :: ls' => run_each ls' m (run m s)
  end.

(** What the browser delivers to the page: a display refresh at time
    [t], a resize to new viewport dimensions, a pointer move, a
    visibility change. *)
Inductive Event :=
| Frame (t : R)
| Resize (w h : R)
| MouseMove (clientX clientY : R)
| Visibility (hid : bool).

Definition deliver (e : Event) (s : St) : St :=
  match e with
  | Frame t =>
    run_each (scheduled (host s)) animate
      (mkSt (bg s) (set_scheduled [] (set_now t (host s))))
  | Resize w h =>
    run_each (resizeListeners (host s)) onWindowResize
      (mkSt (bg s) (set_viewport w h (host s)))
  | MouseMove x y =>
    run_each (mousemoveListeners (host s)) (onMouseMove x y) s
  | Visibility v => mkSt (bg s) (set_hidden v (host s))
  end.

Definition deliver_all (es : list Event) (s : St) : St :=
  fold_left (fun s e => deliver e s) es s.

(** One tick: the update step invoked at time [t]. *)
Definition tick (t : R) (s : St) : St :=
  run animate (mkSt (bg s) (set_now t (host s))).

Fixpoint ticks (ts : nat -> R) (n : nat) (s : St) : St :=
  match n with
  | O => s
  | S n' => tick (ts n') (ticks ts n' s)
  end.

(** The resize handler invoked for new viewport dimensions. *)
Definition resize (w h : R) (s : St) : St :=
  run onWindowResize (mkSt (bg s) (set_viewport w h (host s))).

(** *** Vocabulary of the statements *)

(** The loop is running: the controller is active and the frame it
    requested last is pending. *)
Definition is_running (s : St) : bool :=
  isActive (bg s) &&
  match frameId (bg s) with
  | Some i => existsb (Nat.eqb i) (scheduled (host s))
  | None => false
  end.

(** The objects a tick dereferences are all there. *)
Definition equipped (s : St) : bool :=
  match camera (bg s), scene (bg s), renderer (bg s) with
  | Some _, Some _, Some _ => true
  | _, _, _ => false
  end.

Definition camera_position (s : St) : Vector3 :=
  match camera (bg s) with
  | Some c => cam_position c
  | None => origin
  end.

Definition camera_aim (s : St) : option Vector3 :=
  match camera (bg s) with
  | Some c => aim c
  | None => None
  end.

Definition frames_rendered (s : St) : nat :=
  match renderer (bg s) with
  | Some r => frames r
  | None => O
  end.

(** The state after a tick that only reschedules. *)
Definition reschedule (s : St) : St :=
  mkSt (set_frameId (Some (nextFrame (host s))) (bg s))
       (snd (requestAnimationFrame (host s))).

(** The elapsed time in milliseconds a tick at time [t] computes. *)
Definition elapsed_ms (t : R) (c : Clock) : R :=
  fst (getElapsedTime t (snd (getDelta t c))) * 1000.

(** The state after a tick that does the whole update, with camera [c]
    and renderer [r] at hand. *)
Definition advance (s : St) (c : Camera) (r : Renderer) : St :=
  let time := elapsed_ms (now (host s)) (clock (bg s)) in
  let b := bg (reschedule s) in
  mkSt (mkBackground (config b) (scene b)
          (Some (lookAt origin (steer (mouse b) (mouseEffect (config b)) c)))
          (Some (render r))
          (match particles b with
           | Some p => Some (set_points_time time p)
           | None => None
           end)
          (map (animate_mesh (config b) time) (geometries b))
          (mouse b) (targetMouse b) (frameId b) (isActive b)
          (snd (getElapsedTime (now (host s))
                  (snd (getDelta (now (host s)) (clock b))))))
       (host (reschedule s)).

(** The mesh [create_mesh k i] builds from the next eight draws. *)
Definition fresh_mesh (k : GeometryKind) (i : nat) (h : Host) : Mesh :=
  let n := rngPos h in
  let p := mkV3 ((rand h n - 0.5) * 20) ((rand h (1 + n) - 0.5) * 20)
                ((rand h (2 + n) - 0.5) * 20) in
  mkMesh i k p
    (mkUserData (vy p) (0.0005 + rand h (3 + n) * 0.0005) (rand h (4 + n) * PI * 2)
       (normalize (mkV3 (rand h (5 + n) - 0.5) (rand h (6 + n) - 0.5)
                        (rand h (7 + n) - 0.5))))
    0 [] 0 0.

Fixpoint fresh_meshes (ks : list GeometryKind) (i : nat) (h : Host) : list Mesh :=
  match ks with
  | [] => []
  | k :: ks' =>
    fresh_mesh k i h :: fresh_meshes ks' (S i) (set_rngPos (8 + rngPos h) h)
  end.

(** The stages of a construction that meets no failure: the graphics
    objects created and the canvas attached, then the particle system,
    then the solids, then the listeners; the first tick follows. *)
Definition first_camera (h : Host) : Camera :=
  set_cam_position (mkV3 0 0 15)
    (new_PerspectiveCamera 60 (innerWidth h / innerHeight h) 1 100).

Definition first_renderer (h : Host) : Renderer :=
  setPixelRatio (Rmin (devicePixelRatio h) 2)
    (setSize (innerWidth h) (innerHeight h)
       (mkRenderer (nextId h)
          (if Rlt_dec (devicePixelRatio h) 2 then true else false)
          300 150 1 0 0)).

Definition after_attach (cfg : SceneConfig) (h : Host) : St :=
  mkSt (set_renderer (Some (first_renderer h))
          (set_camera (Some (first_camera h))
             (set_scene (Some (mkScene [])) (new_Background3D cfg))))
       (set_containerChildren (containerChildren h ++ [nextId h])
          (set_nextId (S (nextId h)) h)).

Definition after_particles (s : St) : St :=
  let n := particleCount (config (bg s)) in
  let res := particles_loop n 0 (replicate (n * 3) 0) (replicate n 0) (host s) in
  mkSt (set_scene (option_map (scene_add OPoints) (scene (bg s)))
          (set_particles (Some (mkPoints (fst (fst res)) (snd (fst res)) 0 0 0))
             (bg s)))
       (set_rngPos (rngPos (host s) + 4 * n) (host s)).

Definition after_solids (s : St) : St :=
  mkSt (set_scene
          (option_map (fun sc => mkScene (children sc ++
             [OAmbientLight; OPointLight; OMesh 0; OMesh 1; OMesh 2; OMesh 3]))
             (scene (bg s)))
          (set_geometries (geometries (bg s) ++ fresh_meshes geometryKinds 0 (host s))
             (bg s)))
       (set_rngPos (32 + rngPos (host s)) (host s)).

Definition after_listeners (s : St) : St :=
  mkSt (bg s)
       (set_mousemoveListeners
          (mousemoveListeners (host s) ++ [S (nextId (host s))])
          (set_nextId (S (S (nextId (host s))))
             (set_resizeListeners (resizeListeners (host s) ++ [nextId (host s)])
                (host s)))).

Definition built (cfg : SceneConfig) (h : Host) : St :=
  run animate
    (after_listeners (after_solids (after_particles (after_attach cfg h)))).

(** The background of the fallback and the host once it is applied. *)
Definition gradient : string :=
  "linear-gradient(45deg, var(--primary-color), var(--secondary-color))".

Definition fell_back (h : Host) : Host :=
  set_bodyBackground (Some gradient)
    (set_console (console h ++ ["Failed to initialize 3D background:"%string]) h).

(** The tick can run to its end: the controller is active, the document
    visible and every object the tick dereferences is there. *)
Definition ready (s : St) : bool :=
  isActive (bg s) && negb (hidden (host s)) && equipped s.

(** The state [dispose] leaves when nothing it dereferences is missing
    and the canvas is a child of the container. *)
Definition disposed (s : St) : St :=
  let b := bg s in
  let h := host s in
  mkSt (mkBackground (config b)
          (option_map (fun sc => scene_remove OPoints (remove_meshes (geometries b) sc))
                      (scene b))
          (camera b)
          (option_map renderer_dispose (renderer b))
          (option_map dispose_points (particles b))
          (map dispose_mesh (geometries b))
          (mouse b) (targetMouse b) (frameId b) false (clock b))
       (set_resizeListeners (remove_listener (nextId h) (resizeListeners h))
          (set_nextId (S (nextId h))
             (set_containerChildren
                (match renderer b with
                 | Some r => List.filter (fun c => negb (Nat.eqb c (domElement r)))
                                         (containerChildren h)
                 | None => containerChildren h
                 end)
                (cancelAnimationFrame (frameId b) h)))).

Definition camera_aspect (s : St) : R :=
  match camera (bg s) with
  | Some c => aspect c
  | None => 0
  end.

Definition surface_size (s : St) : R * R :=
  match renderer (bg s) with
  | Some r => (width r, height r)
  | None => (0, 0)
  end.

(** Hosts used as concrete inputs: a 1280x720 viewport whose random
    source always returns one half; the same without WebGL; the same
    with a failure while the particle system is built. *)
Definition sample_host : Host :=
  mkHost true None (fun _ => 0.5) 0 1280 720 1 false 0 0 [] [] [] [] 0 None [].

Definition no_webgl_host : Host :=
  mkHost false None (fun _ => 0.5) 0 1280 720 1 false 0 0 [] [] [] [] 0 None [].

Definition particle_fault_host : Host :=
  mkHost true (Some AtParticles) (fun _ => 0.5) 0 1280 720 1 false 0 0 [] [] [] []
    0 None [].

(** The same viewport when the rendering library is not loaded: the
    clock cannot be created. *)
Definition no_library_host : Host :=
  mkHost true (Some AtClock) (fun _ => 0.5) 0 1280 720 1 false 0 0 [] [] [] []
    0 None [].

(** The same viewport with a random source that always returns
    [1 - 2^-30], a double just below one. *)
Definition high_draw_host : Host :=
  mkHost true None (fun _ => 1 - / 2 ^ 30) 0 1280 720 1 false 0 0 [] [] [] []
    0 None [].

Definition small_config : SceneConfig :=
  mkConfig 10 0.02 0x667eea 0.8 60 15 0.0005 0.002 0.02.

(** The store after the resize handler ran with camera [c] and
    renderer [r] at hand. *)
Definition resized (s : St) (c : Camera) (r : Renderer) : St :=
  mkSt (set_renderer (Some (setSize (innerWidth (host s)) (innerHeight (host s)) r))
          (set_camera
             (Some (updateProjectionMatrix
                      (set_aspect (innerWidth (host s) / innerHeight (host s)) c)))
             (bg s)))
       (host s).

(** A property of the controller object that every handler keeps. *)
Definition kept (P : Background3D -> Prop) : Prop :=
  forall s, P (bg s) ->
    P (bg (run animate s)) /\ P (bg (run onWindowResize s)) /\
    forall x y, P (bg (run (onMouseMove x y) s)).

(** A built controller whose document has become hidden. *)
Definition hidden_sample : St :=
  mkSt (bg (construct small_config sample_host))
       (set_hidden true (host (construct small_config sample_host))).

(** The axis claim as the specification words it: every solid of a
    built controller has a unit-length rotation axis. *)
Definition axes_unit (cfg : SceneConfig) (h : Host) : Prop :=
  Forall (fun m => v3_length (rotationAxis (userData m)) = 1)
         (geometries (bg (construct cfg h))).

(** One tick rotated [m] into [m']: same user data, one more
    [rotateOnAxis] call, about the axis of [m] by [angle]. *)
Definition rotated_once (angle : R) (m m' : Mesh) : Prop :=
  userData m' = userData m /\
  rotations m' = rotations m ++ [(rotationAxis (userData m), angle)].

(** The vertical band of a solid around its initial offset. *)
Definition in_band (m : Mesh) : Prop :=
  initialY (userData m) - 1.5 <= vy (position m) <= initialY (userData m) + 1.5.

(** The position of a solid as the oscillation formula gives it. *)
Definition floats_at (time : R) (m : Mesh) : Prop :=
  vy (position m)
  = initialY (userData m)
    + 1.5 * sin (time * speed (userData m) + offset (userData m)).

(** The cube of half-extent 25, the range of [Math.random()], and the
    closed unit interval. *)
Definition in_cube (x : R) : Prop := -25 <= x <= 25.
Definition in_unit (x : R) : Prop := 0 <= x < 1.
Definition in_unit_closed (x : R) : Prop := 0 <= x <= 1.

(** The particle-field claim as the specification words it: after a
    successful construction every coordinate lies in the cube and every
    scale factor in the half-open interval from 0 to 1. *)
Definition field_as_specified (cfg : SceneConfig) (h : Host) : Prop :=
  exists p, particles (bg (construct cfg h)) = Some p /\
    Forall in_cube (positions p) /\ Forall in_unit (scales p).

(** Some draw of the script gave the stored coordinate [x], up to the
    single-precision rounding of the store; some draw gave the stored
    scale [x]. *)
Definition coordinate_sampled (h : Host) (x : R) : Prop :=
  exists k, Rabs (x - (rand h k - 0.5) * 50) <= 1 / 1000000.

Definition scale_sampled (h : Host) (x : R) : Prop :=
  exists k, x = Float32.fround (rand h k).

(** The three components sampled for the rotation axis of solid [i],
    after [base] earlier draws: draws 5, 6 and 7 of its eight. *)
Definition axis_sample (h : Host) (base i : nat) : Vector3 :=
  mkV3 (rand h (base + 8 * i + 5) - 0.5)
       (rand h (base + 8 * i + 6) - 0.5)
       (rand h (base + 8 * i + 7) - 0.5).

(** The construction contract as the specification words it: a running
    controller with one solid per geometry kind and a particle field of
    [particleCount] positions, or no surface attached at all. *)
Definition fully_built (cfg : SceneConfig) (s : St) : Prop :=
  is_running s = true /\
  map kind (geometries (bg s)) = geometryKinds /\
  exists p, particles (bg s) = Some p /\
            length (positions p) = (particleCount cfg * 3)%nat /\
            length (scales p) = particleCount cfg.

Definition construction_contract (cfg : SceneConfig) (h : Host) : Prop :=
  fully_built cfg (construct cfg h) \/ surface_attached (construct cfg h) = false.

(** [init] fails before the canvas is attached: the capability probe
    finds no WebGL, or one of its calls up to [appendChild] throws. *)
Definition fails_before_attach (h : Host) : bool :=
  negb (webgl h) ||
  match fault h with
  | Some AtScene | Some AtCamera | Some AtRenderer | Some AtAttach => true
  | _ => false
  end.

End Background.

(** ** Strings and the regular expressions of the script *)
Module Js.

(** A string is its sequence of UTF-16 code units. *)
Definition jsstring := list N.

Definition of_string (s : string) : jsstring :=
  map N_of_ascii (list_ascii_of_string s).

(** White space and line terminators: what [trim()] strips and what the
    class [\s] matches. *)
Definition is_space (c : N) : bool :=
  ((9 <=? c) && (c <=? 13) || (c =? 32) || (c =? 160) || (c =? 0x1680)
   || (0x2000 <=? c) && (c <=? 0x200A) || (c =? 0x2028) || (c =? 0x2029)
   || (c =? 0x202F) || (c =? 0x205F) || (c =? 0x3000) || (c =? 0xFEFF))%N.

Fixpoint trimStart (s : jsstring) : jsstring :=
  match s with
  | c :: s' => if is_space c then trimStart s' else s
  | [] => []
  end.

Definition trimEnd (s : jsstring) : jsstring := rev (trimStart (rev s)).

Definition trim (s : jsstring) : jsstring := trimEnd (trimStart s).

(** Regular expressions without captures or assertions; a character
    class is its membership test. *)
Inductive regex :=
| Void
| Eps
| Class (p : N -> bool)
| Cat (r1 r2 : regex)
| Alt (r1 r2 : regex)
| Star (r : regex).

Definition Plus (r : regex) : regex := Cat r (Star r).
Definition Chr (c : N) : regex := Class (N.eqb c).

Fixpoint nullable (r : regex) : bool :=
  match r with
  | Void => false
  | Eps => true
  | Class _ => false
  | Cat r1 r2 => nullable r1 && nullable r2
  | Alt r1 r2 => nullable r1 || nullable r2
  | Star _ => true
  end.

Fixpoint deriv (c : N) (r : regex) : regex :=
  match r with
  | Void => Void
  | Eps => Void
  | Class p => if p c then Eps else Void
  | Cat r1 r2 =>
    if nullable r1 then Alt (Cat (deriv c r1) r2) (deriv c r2)
    else Cat (deriv c r1) r2
  | Alt r1 r2 => Alt (deriv c r1) (deriv c r2)
  | Star r1 => Cat (deriv c r1) (Star r1)
  end.

(** [/^r$/.test(s)]: the whole string is in the language of [r]. *)
Definition test_anchored (r : regex) (s : jsstring) : bool :=
  nullable (fold_left (fun r c => deriv c r) s r).

(** The class [[^\s@]]. *)
Definition not_space_at (c : N) : bool := negb (is_space c) && negb (c =? 64)%N.

(** [/^[^\s@]+@[^\s@]+\.[^\s@]+$/] *)
Definition emailRegex : regex :=
  Cat (Plus (Class not_space_at))
    (Cat (Chr 64)
       (Cat (Plus (Class not_space_at))
          (Cat (Chr 46) (Plus (Class not_space_at))))).

(** The language of a regular expression. *)
Inductive matches : regex -> jsstring -> Prop :=
| MEps : matches Eps []
| MClass p c : p c = true -> matches (Class p) [c]
| MCat r1 r2 s1 s2 :
    matches r1 s1 -> matches r2 s2 -> matches (Cat r1 r2) (s1 ++ s2)
| MAltL r1 r2 s : matches r1 s -> matches (Alt r1 r2) s
| MAltR r1 r2 s : matches r2 s -> matches (Alt r1 r2) s
| MStar0 r : matches (Star r) []
| MStarS r s1 s2 :
    matches r s1 -> matches (Star r) s2 -> matches (Star r) (s1 ++ s2).

(** A character that is neither white space nor [@]. *)
Definition part_char (c : N) : Prop := is_space c = false /\ c <> 64%N.

(** The shape local@domain.tld with three nonempty parts, none of which
    holds white space or [@]. *)
Definition email_shape (s : jsstring) : Prop :=
  exists l d t,
    s = l ++ [64%N] ++ d ++ [46%N] ++ t /\
    l <> [] /\ d <> [] /\ t <> [] /\
    Forall part_char l /\ Forall part_char d /\ Forall part_char t.

(** The same shape with only the local part constrained, as the
    specification words it: a nonempty local part without white space
    or [@], then [@], a nonempty domain, a dot, a nonempty tld. *)
Definition email_shape_loose (s : jsstring) : Prop :=
  exists l d t,
    s = l ++ [64%N] ++ d ++ [46%N] ++ t /\
    l <> [] /\ Forall part_char l /\ d <> [] /\ t <> [].

End Js.

(** ** The contact form *)
Module Contact.
Import Js.
#[local] Open Scope string_scope.

(** The form group around a field: its class list and the text of its
    [.error-message] element. *)
Record FormGroup := mkGroup {
  classList : gset string;
  errorText : string }.

(** An input of the form: its [name] attribute, its current and default
    value, and its form group. *)
Record Field := mkField {
  name : string;
  value : jsstring;
  defaultValue : jsstring;
  group : FormGroup }.

Inductive FieldKey := KName | KEmail | KMessage.

Record FormData := mkFormData {
  data_name : jsstring;
  data_email : jsstring;
  data_message : jsstring }.

(** A toast in the document: class name, text and [style.top]. *)
Record Notification := mkNotification {
  className : string;
  textContent : string;
  top : string }.

(** The form object and the page elements it touches; [pending] is the
    submission whose [submitForm] promise has not settled yet, [logged]
    what [submitForm] wrote to the console. *)
Record ContactForm := mkForm {
  field_name : Field;
  field_email : Field;
  field_message : Field;
  isSubmitting : bool;
  button_disabled : bool;
  buttonText_display : string;
  buttonLoader_display : string;
  notifications : list Notification;
  pending : option FormData;
  logged : list FormData }.

Definition get_field (k : FieldKey) (f : ContactForm) : Field :=
  match k with
  | KName => field_name f
  | KEmail => field_email f
  | KMessage => field_message f
  end.

Definition set_field (k : FieldKey) (x : Field) (f : ContactForm) : ContactForm :=
  match k with
  | KName =>
    mkForm x (field_email f) (field_message f) (isSubmitting f) (button_disabled f)
      (buttonText_display f) (buttonLoader_display f) (notifications f)
      (pending f) (logged f)
  | KEmail =>
    mkForm (field_name f) x (field_message f) (isSubmitting f) (button_disabled f)
      (buttonText_display f) (buttonLoader_display f) (notifications f)
      (pending f) (logged f)
  | KMessage =>
    mkForm (field_name f) (field_email f) x (isSubmitting f) (button_disabled f)
      (buttonText_display f) (buttonLoader_display f) (notifications f)
      (pending f) (logged f)
  end.

Definition set_group (g : FormGroup) (x : Field) : Field :=
  mkField (name x) (value x) (defaultValue x) g.

Definition set_value (v : jsstring) (x : Field) : Field :=
  mkField (name x) v (defaultValue x) (group x).

Definition set_notifications (ns : list Notification) (f : ContactForm) : ContactForm :=
  mkForm (field_name f) (field_email f) (field_message f) (isSubmitting f)
    (button_disabled f) (buttonText_display f) (buttonLoader_display f) ns
    (pending f) (logged f).

Definition set_pending (p : option FormData) (f : ContactForm) : ContactForm :=
  mkForm (field_name f) (field_email f) (field_message f) (isSubmitting f)
    (button_disabled f) (buttonText_display f) (buttonLoader_display f)
    (notifications f) p (logged f).

Definition set_logged (l : list FormData) (f : ContactForm) : ContactForm :=
  mkForm (field_name f) (field_email f) (field_message f) (isSubmitting f)
    (button_disabled f) (buttonText_display f) (buttonLoader_display f)
    (notifications f) (pending f) l.

Definition setLoading (loading : bool) (f : ContactForm) : ContactForm :=
  mkForm (field_name f) (field_email f) (field_message f) loading loading
    (if loading then "none" else "inline")
    (if loading then "inline-block" else "none")
    (notifications f) (pending f) (logged f).

(** The [switch] of [validateField] on the trimmed value: the pair
    [(isValid, errorMessage)] it computes. *)
Definition check (fieldName : string) (v : jsstring) : bool * string :=
  if String.eqb fieldName "name" then
    if (length v <? 2)%nat
    then (false, "Name must be at least 2 characters long") else (true, "")
  else if String.eqb fieldName "email" then
    if negb (test_anchored emailRegex v)
    then (false, "Please enter a valid email address") else (true, "")
  else if String.eqb fieldName "message" then
    if (length v <? 10)%nat
    then (false, "Message must be at least 10 characters long") else (true, "")
  else (true, "").

Definition setFieldStatus (x : Field) (isValid : bool) (errorMessage : string)
  : Field :=
  let g := group x in
  let cl := classList g ∖ {["error"]} ∖ {["success"]} in
  if negb isValid then
    set_group (mkGroup (cl ∪ {["error"]}) errorMessage) x
  else
    match trim (value x) with
    | _ :: _ => set_group (mkGroup (cl ∪ {["success"]}) "") x
    | [] => set_group (mkGroup cl (errorText g)) x
    end.

Definition validateField (k : FieldKey) (f : ContactForm) : bool * ContactForm :=
  let x := get_field k f in
  let '(isValid, errorMessage) := check (name x) (trim (value x)) in
  (isValid, set_field k (setFieldStatus x isValid errorMessage) f).

Definition clearError (k : FieldKey) (f : ContactForm) : ContactForm :=
  let x := get_field k f in
  set_field k (set_group (mkGroup (classList (group x) ∖ {["error"]}) "") x) f.

(** [showNotification]: the toasts present are removed and a new one is
    appended off-screen (its timers are not part of this model). *)
Definition showNotification (message type : string) (f : ContactForm)
  : ContactForm :=
  set_notifications
    [mkNotification ("notification notification-" ++ type) message "-100px"] f.

(** [Object.values(this.fields).every(field => this.validateField(field))]:
    fields are visited in insertion order and the walk stops at the
    first invalid one. *)
Fixpoint every_valid (ks : list FieldKey) (f : ContactForm) : bool * ContactForm :=
  match ks with
  | [] => (true, f)
  | k :: ks' =>
    let '(ok, f') := validateField k f in
    if ok then every_valid ks' f' else (false, f')
  end.

Definition field_keys : list FieldKey := [KName; KEmail; KMessage].

Definition clear_status (k : FieldKey) (f : ContactForm) : ContactForm :=
  let x := get_field k f in
  set_field k
    (set_group (mkGroup (classList (group x) ∖ {["error"]} ∖ {["success"]})
                  (errorText (group x))) x) f.

Definition form_reset (f : ContactForm) : ContactForm :=
  fold_left (fun f k => set_field k (set_value (defaultValue (get_field k f))
                                       (get_field k f)) f)
            field_keys f.

(** [handleSubmit] up to its [await]: a submit event while a submission
    is in flight returns at once; otherwise the fields are validated and
    either the error path runs to its end ([catch], [finally]) or the
    form data is handed to [submitForm] and the handler is suspended. *)
Definition handleSubmit (f : ContactForm) : ContactForm :=
  if isSubmitting f then f else
  let f := setLoading true f in
  let '(isValid, f) := every_valid field_keys f in
  if negb isValid then
    setLoading false
      (showNotification "Please fill all required fields correctly" "error" f)
  else
    set_pending
      (Some (mkFormData (trim (value (field_name f)))
                        (trim (value (field_email f)))
                        (trim (value (field_message f))))) f.

(** The timer of [submitForm] fires: the data is logged, the promise
    resolves and [handleSubmit] runs from its [await] to its end. *)
Definition submit_settled (f : ContactForm) : ContactForm :=
  match pending f with
  | None => f
  | Some d =>
    let f := set_pending None (set_logged (logged f ++ [d]) f) in
    let f := showNotification "Thank you for contacting me" "success" f in
    let f := form_reset f in
    let f := fold_left (fun f k => clear_status k f) field_keys f in
    setLoading false f
  end.

(** What reaches the form: a submit event, a blur of a field, an input
    that changes a field's value, the timer of a pending submission. *)
Inductive Event :=
| Submit
| Blur (k : FieldKey)
| Input (k : FieldKey) (v : jsstring)
| Settled.

Definition deliver (e : Event) (f : ContactForm) : ContactForm :=
  match e with
  | Submit => handleSubmit f
  | Blur k => snd (validateField k f)
  | Input k v => clearError k (set_field k (set_value v (get_field k f)) f)
  | Settled => submit_settled f
  end.

Definition deliver_all (es : list Event) (f : ContactForm) : ContactForm :=
  fold_left (fun f e => deliver e f) es f.

(** *** Vocabulary of the statements *)

Definition msg_name : string := "Name must be at least 2 characters long".
Definition msg_email : string := "Please enter a valid email address".
Definition msg_message : string := "Message must be at least 10 characters long".

(** No submission is in flight and the button is enabled. *)
Definition idle (f : ContactForm) : Prop :=
  isSubmitting f = false /\ button_disabled f = false /\ pending f = None.

(** A submission is in flight and the button is disabled. *)
Definition in_flight (f : ContactForm) : Prop :=
  isSubmitting f = true /\ button_disabled f = true /\ pending f <> None.

(** What the guard of [handleSubmit] depends on. *)
Definition flags (f : ContactForm) : bool * bool * option FormData :=
  (isSubmitting f, button_disabled f, pending f).

Definition empty_group : FormGroup := mkGroup {["form-group"]} "".

(** A form as the page would declare it, filled with the given values. *)
Definition form_with (n e m : string) : ContactForm :=
  mkForm (mkField "name" (of_string n) [] empty_group)
         (mkField "email" (of_string e) [] empty_group)
         (mkField "message" (of_string m) [] empty_group)
         false false "inline" "none" [] None [].

Definition good_form : ContactForm :=
  form_with "Ada" "ada@example.org" "Hello there, nice page.".

Definition bad_form : ContactForm :=
  form_with "A" "ada@example.org" "Hello there, nice page.".

Definition odd_email_form : ContactForm :=
  form_with "Ada" "a@b c.d" "Hello there, nice page.".

End Contact.

(** ** Further vocabulary for the scene controller *)
Module SceneTerms.
Import Three Browser Background.
#[local] Open Scope R_scope.

(** Where [createFloatingGeometries] puts a solid and how it animates
    it: horizontal coordinates and initial height within 10 of the
    origin, angular speed between 0.0005 and 0.001, phase between 0 and
    2 pi. *)
Definition placed (m : Mesh) : Prop :=
  -10 <= vx (position m) <= 10 /\
  -10 <= vz (position m) <= 10 /\
  -10 <= initialY (userData m) <= 10 /\
  0.0005 <= speed (userData m) <= 0.001 /\
  0 <= offset (userData m) <= 2 * PI.

(** What no handler writes on a solid: its horizontal coordinates and
    its user data (initial height, speed, phase, rotation axis). *)
Definition anchor (m : Mesh) : R * R * UserData :=
  (vx (position m), vz (position m), userData m).

(** The loop is alive with exactly one frame request pending, the one
    the controller remembers. *)
Definition one_pending (s : St) : Prop :=
  isActive (bg s) = true /\
  exists i, scheduled (host s) = [i] /\ frameId (bg s) = Some i.

(** Every resource a controller owns has been released [n] times. *)
Definition released (n : nat) (s : St) : Prop :=
  Forall (fun m => geometry_disposed m = n /\ material_disposed m = n)
         (geometries (bg s)) /\
  option_map points_geometry_disposed (particles (bg s)) = Some n /\
  option_map points_material_disposed (particles (bg s)) = Some n /\
  option_map renderer_disposed (renderer (bg s)) = Some n.

End SceneTerms.

(** ** Further vocabulary for the contact form *)
Module FormTerms.
Import Js Contact.
#[local] Open Scope string_scope.

(** Events that edit or leave a field: what a user can do to the
    fields while a submission is in flight. *)
Definition is_edit (e : Contact.Event) : Prop :=
  match e with
  | Blur _ | Input _ _ => True
  | Submit | Settled => False
  end.

Definition error_toast : Notification :=
  mkNotification "notification notification-error"
    "Please fill all required fields correctly" "-100px".

Definition success_toast : Notification :=
  mkNotification "notification notification-success"
    "Thank you for contacting me" "-100px".

(** The form data [handleSubmit] reads off the fields. *)
Definition trimmed_data (f : ContactForm) : FormData :=
  mkFormData (trim (value (field_name f))) (trim (value (field_email f)))
             (trim (value (field_message f))).

(** A field shows neither verdict. *)
Definition unmarked (x : Field) : Prop :=
  ("error" ∉ classList (group x)) /\ ("success" ∉ classList (group x)).

Definition known_name (n : string) : Prop :=
  n = "name" \/ n = "email" \/ n = "message".

End FormTerms.

(** ** The theme toggle and the header *)
Module Page.
#[local] Open Scope string_scope.

(** [ThemeManager] and the class list of the document element. *)
Record Theme := mkTheme {
  isDark : bool;
  rootClasses : gset string }.

(** [classList.toggle(token, force)]: add when [force], else remove. *)
Definition toggle_class (token : string) (force : bool) (cl : gset string)
  : gset string :=
  if force then cl ∪ {[token]} else cl ∖ {[token]}.

Definition applyTheme (t : Theme) : Theme :=
  mkTheme (isDark t)
    (toggle_class "dark-theme" (isDark t)
       (toggle_class "light-theme" (negb (isDark t)) (rootClasses t))).

Definition toggleTheme (t : Theme) : Theme :=
  applyTheme (mkTheme (negb (isDark t)) (rootClasses t)).

(** The constructor: dark by default, then [init] applies the theme. *)
Definition new_ThemeManager (cl : gset string) : Theme :=
  applyTheme (mkTheme true cl).

Fixpoint toggles (n : nat) (t : Theme) : Theme :=
  match n with
  | O => t
  | S n' => toggleTheme (toggles n' t)
  end.

(** The header as [initHeaderScroll] styles it, and the closure
    variable [lastScroll]. *)
Record Header := mkHeader {
  background : string;
  boxShadow : string;
  lastScroll : R }.

(** The scroll listener, for the page offset [currentScroll]. *)
Definition onScroll (currentScroll : R) (hd : Header) : Header :=
  if Rlt_dec 100 currentScroll
  then mkHeader "rgba(0, 0, 0, 0.8)" "0 2px 10px rgba(0, 0, 0, 0.3)" currentScroll
  else mkHeader "rgba(0, 0, 0, 0.3)" "none" currentScroll.

Definition scrolls (ys : list R) (hd : Header) : Header :=
  fold_left (fun hd y => onScroll y hd) ys hd.

End Page.

(** ** Toasts with their timers *)
Module Toasts.
#[local] Open Scope string_scope.

(** A notification element: it exists from its creation on, whether it
    is still in the document or not. *)
Record Toast := mkToast {
  toast_class : string;
  toast_text : string;
  toast_top : string;
  attached : bool }.

(** What a pending timer of [showNotification] will do, to the element
    it closed over (its index in [elements]): slide it in, slide it out
    and arm the removal, remove it. *)
Inductive Action :=
| SlideIn (i : nat)
| SlideOut (i : nat)
| Detach (i : nat).

Record Doc := mkDoc {
  elements : list Toast;
  timers : list Action }.

Definition detach (t : Toast) : Toast :=
  mkToast (toast_class t) (toast_text t) (toast_top t) false.

Definition set_top (v : string) (t : Toast) : Toast :=
  mkToast (toast_class t) (toast_text t) v (attached t).

(** [showNotification(message, type)]: every notification in the
    document is removed, a new one is appended above the viewport, and
    its two timers are armed. *)
Definition showNotification (message type : string) (d : Doc) : Doc :=
  let els := map detach (elements d) in
  let i := length els in
  mkDoc (els ++ [mkToast ("notification notification-" ++ type) message "-100px" true])
        (timers d ++ [SlideIn i; SlideOut i]).

(** The [k]-th pending timer fires. *)
Definition fire (k : nat) (d : Doc) : Doc :=
  match timers d !! k with
  | None => d
  | Some (SlideIn i) =>
    mkDoc (alter (set_top "20px") i (elements d)) (delete k (timers d))
  | Some (SlideOut i) =>
    mkDoc (alter (set_top "-100px") i (elements d))
          (delete k (timers d) ++ [Detach i])
  | Some (Detach i) =>
    mkDoc (alter detach i (elements d)) (delete k (timers d))
  end.

(** Calls of [showNotification] and firings of pending timers, in any
    order. *)
Inductive Step :=
| Show (message type : string)
| Fire (k : nat).

Definition step (d : Doc) (e : Step) : Doc :=
  match e with
  | Show m t => showNotification m t d
  | Fire k => fire k d
  end.

Definition steps (es : list Step) (d : Doc) : Doc := fold_left step es d.

Definition is_fire (e : Step) : Prop :=
  match e with Fire _ => True | Show _ _ => False end.

Definition empty_doc : Doc := mkDoc [] [].

(** The notifications that are in the document. *)
Definition visible (d : Doc) : list Toast := List.filter attached (elements d).

(** Only the element created last can be in the document, and tops
    take one of two values. *)
Definition tidy (d : Doc) : Prop :=
  forall j t, elements d !! j = Some t ->
    (attached t = true -> S j = length (elements d)) /\
    (toast_top t = "-100px" \/ toast_top t = "20px").

End Toasts.

(** ** Device detection *)
Module Device.
Import Js.

(** Case folding of the ignore-case flag, as far as the characters of
    an ASCII pattern are concerned: A-Z and a-z pair up, every other
    code unit stands alone. *)
Definition lower (c : N) : N :=
  if ((65 <=? c) && (c <=? 90))%N then (c + 32)%N else c.

Definition ci_char (p c : N) : bool := (lower p =? lower c)%N.

(** A literal of the pattern under the ignore-case flag. *)
Definition lit_i (s : jsstring) : regex :=
  fold_right (fun p r => Cat (Class (ci_char p)) r) Eps s.

Definition keywords : list jsstring :=
  map of_string
    ["Android"; "webOS"; "iPhone"; "iPad"; "iPod"; "BlackBerry"; "IEMobile";
     "Opera Mini"]%string.

(** [/Android|webOS|iPhone|iPad|iPod|BlackBerry|IEMobile|Opera Mini/i] *)
Definition mobileRegex : regex :=
  fold_right (fun k r => Alt (lit_i k) r) Void keywords.

Definition any_char : regex := Class (fun _ => true).

(** [r.test(s)] for an expression without anchors: some substring of
    [s] is in the language of [r]. *)
Definition test_search (r : regex) (s : jsstring) : bool :=
  test_anchored (Cat (Star any_char) (Cat r (Star any_char))) s.

Definition isMobile (userAgent : jsstring) : bool :=
  test_search mobileRegex userAgent.

(** [shouldUpdate]; [lastUpdate] is [None] while the property is
    undefined, and zero is falsy like undefined. *)
Definition shouldUpdate (userAgent : jsstring) (lastUpdate : option R) (now : R)
  : bool :=
  if isMobile userAgent then
    match lastUpdate with
    | None => true
    | Some l =>
      if Req_dec_T l 0 then true
      else if Rlt_dec 33 (now - l) then true else false
    end
  else true.

End Device.

(** ** Cards revealed on scroll *)
Module Reveal.
#[local] Open Scope string_scope.

Record Card := mkCard {
  opacity : string;
  transform : string;
  transition : string }.

(** What [initScrollAnimations] does to every card before observing. *)
Definition hide (c : Card) : Card :=
  mkCard "0" "translateY(30px)" "opacity 0.6s ease, transform 0.6s ease".

Definition reveal (c : Card) : Card := mkCard "1" "translateY(0)" (transition c).

Definition initScrollAnimations (cards : list Card) : list Card := map hide cards.

(** An entry handed to the observer callback: the observed card and
    whether it intersects the viewport. *)
Record Entry := mkEntry {
  target : nat;
  isIntersecting : bool }.

Definition on_entry (cards : list Card) (e : Entry) : list Card :=
  if isIntersecting e then alter reveal (target e) cards else cards.

(** The observer callback, and a run of callbacks. *)
Definition callback (cards : list Card) (entries : list Entry) : list Card :=
  fold_left on_entry entries cards.

Definition callbacks (cards : list Card) (batches : list (list Entry)) : list Card :=
  fold_left callback batches cards.

(** Some entry of the list reports card [i] as intersecting. *)
Definition hit (i : nat) (es : list Entry) : bool :=
  existsb (fun e => isIntersecting e && Nat.eqb (target e) i) es.

(** Card [i] was reported as intersecting in some batch. *)
Definition seen (i : nat) (batches : list (list Entry)) : Prop :=
  exists es e, In es batches /\ In e es /\ target e = i /\ isIntersecting e = true.

End Reveal.

(** ** Properties of single-precision rounding *)
Module Float32Proofs.
Import Float32.
#[local] Open Scope R_scope.

Lemma nearest_even_cases t :
  let n := Int_part t in
  IZR n <= t < IZR n + 1 /\
  (nearest_even t = n \/ nearest_even t = (n + 1)%Z) /\
  Rabs (IZR (nearest_even t) - t) <= 1 / 2.
Proof.
  cbv zeta. destruct (base_Int_part t) as [H1 H2].
  split; [lra|]. unfold nearest_even.
  destruct (Rlt_dec _ _) as [Ha|Ha].
  - split; [auto|]. apply Rabs_le. lra.
  - destruct (Rlt_dec _ _) as [Hb|Hb].
    + split; [auto|]. rewrite plus_IZR. apply Rabs_le. simpl. lra.
    + destruct (Z.even _).
      * split; [auto|]. apply Rabs_le. lra.
      * split; [auto|]. rewrite plus_IZR. apply Rabs_le. simpl. lra.
Qed.

Lemma nearest_even_le t k : t <= IZR k -> (nearest_even t <= k)%Z.
Proof.
  intros H. destruct (nearest_even_cases t) as ([H1 H2] & Hc & _).
  assert (Hn : (Int_part t <= k)%Z) by (apply le_IZR; lra).
  destruct (Z.eq_dec (Int_part t) k) as [He|He].
  - (* t = k exactly *)
    assert (t = IZR k) by (rewrite He in H1; lra).
    unfold nearest_even. rewrite He.
    destruct (Rlt_dec _ _) as [Ha|Ha]; [lia|]. exfalso. apply Ha. lra.
  - destruct Hc as [-> | ->]; lia.
Qed.

Lemma nearest_even_ge t k : IZR k <= t -> (k <= nearest_even t)%Z.
Proof.
  intros H. destruct (nearest_even_cases t) as ([H1 H2] & Hc & _).
  assert (Hn : (k < Int_part t + 1)%Z).
  { apply lt_IZR. rewrite plus_IZR. simpl. lra. }
  destruct Hc as [-> | ->]; lia.
Qed.

Lemma pow2_pos e : 0 < powerRZ 2 e.
Proof. apply powerRZ_lt. lra. Qed.

Lemma pow2_succ e : powerRZ 2 (e + 1) = 2 * powerRZ 2 e.
Proof. rewrite powerRZ_add by lra. simpl. lra. Qed.

Lemma pow2_le a b : (a <= b)%Z -> powerRZ 2 a <= powerRZ 2 b.
Proof.
  intros H. replace b with (a + Z.of_nat (Z.to_nat (b - a)))%Z by lia.
  rewrite powerRZ_add by lra. rewrite <- pow_powerRZ.
  pose proof (pow_R1_Rle 2 (Z.to_nat (b - a)) ltac:(lra)).
  pose proof (pow2_pos a). nra.
Qed.

Lemma binade_from_spec k : forall e0 a,
  let e := binade_from k e0 a in
  (e0 - Z.of_nat k <= e <= e0)%Z /\
  ((e0 - Z.of_nat k < e)%Z -> powerRZ 2 e <= a) /\
  ((e < e0)%Z -> a < powerRZ 2 (e + 1)).
Proof.
  induction k as [|k IH]; intros e0 a; cbv zeta.
  - simpl. split; [lia|]. split; intros; lia.
  - cbn [binade_from]. destruct (Rle_dec _ _) as [H|H].
    + split; [lia|]. split; [auto|]. intros; lia.
    + specialize (IH (e0 - 1)%Z a). cbv zeta in IH.
      destruct IH as (I1 & I2 & I3).
      split; [lia|]. split.
      * intros Hlt. apply I2. lia.
      * intros Hlt. destruct (Z.eq_dec (binade_from k (e0 - 1) a) (e0 - 1)%Z) as [He|He].
        -- rewrite He. replace (e0 - 1 + 1)%Z with e0 by lia. lra.
        -- apply I3. lia.
Qed.

Lemma binade_spec a :
  (-126 <= binade a <= 127)%Z /\
  ((-126 < binade a)%Z -> powerRZ 2 (binade a) <= a) /\
  ((binade a < 127)%Z -> a < powerRZ 2 (binade a + 1)).
Proof.
  unfold binade. destruct (binade_from_spec 253 127 a) as (H1 & H2 & H3).
  split; [lia|]. split; [intros; apply H2; lia | exact H3].
Qed.

Lemma binade_below a e : (-126 <= e < 127)%Z -> a < powerRZ 2 (e + 1) -> (binade a <= e)%Z.
Proof.
  intros He Ha. destruct (binade_spec a) as (H1 & H2 & _).
  destruct (Z_le_gt_dec (binade a) e) as [|Hgt]; [assumption|exfalso].
  assert (powerRZ 2 (e + 1) <= powerRZ 2 (binade a)) by (apply pow2_le; lia).
  assert (powerRZ 2 (binade a) <= a) by (apply H2; lia). lra.
Qed.

Lemma binade_above a e : (-126 <= e <= 127)%Z -> powerRZ 2 e <= a -> (e <= binade a)%Z.
Proof.
  intros He Ha. destruct (binade_spec a) as (H1 & _ & H3).
  destruct (Z_le_gt_dec e (binade a)) as [|Hgt]; [assumption|exfalso].
  assert (powerRZ 2 (binade a + 1) <= powerRZ 2 e) by (apply pow2_le; lia).
  assert (a < powerRZ 2 (binade a + 1)) by (apply H3; lia). lra.
Qed.

Lemma ulp_pos x : 0 < ulp x.
Proof. apply pow2_pos. Qed.

Lemma fround_error x : Rabs (fround x - x) <= ulp x / 2.
Proof.
  unfold fround. pose proof (ulp_pos x) as Hu.
  destruct (nearest_even_cases (x / ulp x)) as (_ & _ & H).
  replace (IZR (nearest_even (x / ulp x)) * ulp x - x)
    with ((IZR (nearest_even (x / ulp x)) - x / ulp x) * ulp x) by (field; lra).
  rewrite Rabs_mult, (Rabs_pos_eq (ulp x)) by lra. nra.
Qed.

Lemma fround_le x k : x <= IZR k * ulp x -> fround x <= IZR k * ulp x.
Proof.
  intros H. unfold fround. pose proof (ulp_pos x) as Hu.
  apply Rmult_le_compat_r; [lra|]. apply IZR_le, nearest_even_le.
  apply (Rmult_le_reg_r (ulp x)); [lra|]. unfold Rdiv. rewrite Rmult_assoc, Rinv_l by lra. lra.
Qed.

Lemma fround_ge x k : IZR k * ulp x <= x -> IZR k * ulp x <= fround x.
Proof.
  intros H. unfold fround. pose proof (ulp_pos x) as Hu.
  apply Rmult_le_compat_r; [lra|]. apply IZR_le, nearest_even_ge.
  apply (Rmult_le_reg_r (ulp x)); [lra|]. unfold Rdiv. rewrite Rmult_assoc, Rinv_l by lra. lra.
Qed.

Lemma fround_nonneg x : 0 <= x -> 0 <= fround x.
Proof. intros H. pose proof (fround_ge x 0). lra. Qed.

Lemma fround_nonpos x : x <= 0 -> fround x <= 0.
Proof. intros H. pose proof (fround_le x 0). lra. Qed.

Lemma ulp_binade x e : binade (Rabs x) = e -> ulp x * powerRZ 2 23 = powerRZ 2 e.
Proof.
  intros <-. unfold ulp. rewrite <- powerRZ_add by lra. f_equal. lia.
Qed.

(** Rounding stays inside the closed binade of its argument. *)
Lemma fround_binade x :
  (binade (Rabs x) < 127)%Z -> Rabs (fround x) <= powerRZ 2 (binade (Rabs x) + 1).
Proof.
  intros He. destruct (binade_spec (Rabs x)) as (_ & _ & H3). specialize (H3 He).
  pose proof (ulp_binade x _ eq_refl) as Hu. rewrite pow2_succ in *.
  pose proof (ulp_pos x) as Hp.
  assert (H24 : IZR 16777216 * ulp x = 2 * powerRZ 2 (binade (Rabs x))).
  { rewrite <- Hu. simpl. lra. }
  apply Rabs_le. split.
  - apply Rle_trans with (IZR (-16777216) * ulp x); [lra|]. apply fround_ge.
    pose proof (Rle_abs (- x)) as H. rewrite Rabs_Ropp in H. lra.
  - apply Rle_trans with (IZR 16777216 * ulp x); [|lra]. apply fround_le.
    pose proof (Rle_abs x). lra.
Qed.

Lemma fround_unit x : 0 <= x < 1 -> 0 <= fround x <= 1.
Proof.
  intros [H0 H1]. split; [apply fround_nonneg; exact H0|].
  assert (He : (binade (Rabs x) <= -1)%Z).
  { apply binade_below; [lia|]. rewrite Rabs_pos_eq by lra. simpl. lra. }
  pose proof (fround_binade x ltac:(lia)) as Hb.
  assert (powerRZ 2 (binade (Rabs x) + 1) <= powerRZ 2 0) by (apply pow2_le; lia).
  simpl in H. pose proof (Rle_abs (fround x)). lra.
Qed.

Lemma fround_cube x : -25 <= x <= 25 -> -25 <= fround x <= 25.
Proof.
  intros [Hl Hu].
  assert (He : (binade (Rabs x) <= 4)%Z).
  { apply binade_below; [lia|]. simpl. apply Rabs_def1; lra. }
  destruct (Z.eq_dec (binade (Rabs x)) 4%Z) as [E4|E4].
  - pose proof (ulp_binade x 4%Z E4) as U. simpl in U.
    assert (U' : IZR 13107200 * ulp x = 25) by lra.
    split.
    + apply Rle_trans with (IZR (-13107200) * ulp x); [lra|]. apply fround_ge. lra.
    + apply Rle_trans with (IZR 13107200 * ulp x); [|lra]. apply fround_le. lra.
  - pose proof (fround_binade x ltac:(lia)) as Hb.
    assert (powerRZ 2 (binade (Rabs x) + 1) <= powerRZ 2 4) by (apply pow2_le; lia).
    simpl in H. pose proof (Rle_abs (fround x)).
    pose proof (Rle_abs (- fround x)) as H'. rewrite Rabs_Ropp in H'. lra.
Qed.

Lemma fround_near x : Rabs x < 32 -> Rabs (fround x - x) <= 1 / 1000000.
Proof.
  intros H. pose proof (fround_error x) as He.
  assert (Hb : (binade (Rabs x) <= 4)%Z).
  { apply binade_below; [lia|]. simpl. lra. }
  assert (ulp x <= powerRZ 2 (-19)).
  { unfold ulp. apply pow2_le. lia. }
  simpl in H0. lra.
Qed.

(** A double just below one is stored as one. *)
Lemma fround_high : fround (1 - / 2 ^ 30) = 1.
Proof.
  set (x := 1 - / 2 ^ 30).
  assert (Hx : 1 / 2 <= x < 1).
  { unfold x. simpl. lra. }
  assert (He : binade (Rabs x) = (-1)%Z).
  { rewrite Rabs_pos_eq by lra. apply Z.le_antisymm.
    - apply binade_below; [lia|]. simpl. lra.
    - apply binade_above; [lia|]. simpl. lra. }
  assert (Hu : ulp x = / 2 ^ 24).
  { unfold ulp. rewrite He. simpl. lra. }
  unfold fround. rewrite Hu.
  assert (Hn : Int_part (x / / 2 ^ 24) = 16777215%Z).
  { symmetry. apply Int_part_spec. unfold x. simpl. lra. }
  assert (Hr : nearest_even (x / / 2 ^ 24) = 16777216%Z).
  { unfold nearest_even. rewrite Hn.
    destruct (Rlt_dec _ _) as [Ha|Ha].
    - exfalso. unfold x in Ha. simpl in Ha. lra.
    - destruct (Rlt_dec _ _) as [Hb|Hb]; [reflexivity|].
      exfalso. apply Hb. unfold x. simpl. lra. }
  rewrite Hr. simpl. lra.
Qed.

End Float32Proofs.

(** ** Properties of the scene controller *)
Module SceneProofs.
Import Three Browser Background.
#[local] Open Scope R_scope.

(** Evaluation by need that leaves real arithmetic alone. *)
Ltac exec :=
  lazy -[IZR Rplus Rminus Rmult Rdiv Rinv Ropp sin cos sqrt PI Rlt_dec Req_dec_T
         Rmin normalize app map animate_mesh steer elapsed_ms particles_loop
         Float32.fround replicate Nat.mul Nat.add].
Ltac exec_in H :=
  lazy -[IZR Rplus Rminus Rmult Rdiv Rinv Ropp sin cos sqrt PI Rlt_dec Req_dec_T
         Rmin normalize app map animate_mesh steer elapsed_ms particles_loop
         Float32.fround replicate Nat.mul Nat.add] in H.

(** Expose the fields of a store. *)
Ltac open_state s :=
  let b := fresh "b" in let h := fresh "h" in
  destruct s as [b h]; destruct b, h.

Lemma bind_ok {A B} (m : M A) (k : A -> M B) s a s' :
  m s = (Ok a, s') -> (m ≫= k) s = k a s'.
Proof. intros H. unfold mbind, M_bind, bind. rewrite H. reflexivity. Qed.

Lemma bind_throw {A B} (m : M A) (k : A -> M B) s e s' :
  m s = (Throw e, s') -> (m ≫= k) s = (Throw e, s').
Proof. intros H. unfold mbind, M_bind, bind. rewrite H. reflexivity. Qed.

(** *** Real arithmetic of easing and of normalisation *)

Lemma ease_closed (f : nat -> R) (T k : R) :
  (forall n, f (S n) = f n + (T - f n) * k) ->
  forall n, f n - T = (1 - k) ^ n * (f 0%nat - T).
Proof.
  intros Hf n. induction n as [|n IH]; [simpl; lra|].
  rewrite Hf. simpl pow.
  replace (f n + (T - f n) * k - T) with ((1 - k) * (f n - T)) by lra.
  rewrite IH. lra.
Qed.

Lemma ease_monotone (f : nat -> R) (T k : R) :
  0 < k < 1 -> (forall n, f (S n) = f n + (T - f n) * k) ->
  (forall n, f n <= f (S n)) \/ (forall n, f (S n) <= f n).
Proof.
  intros Hk Hf.
  assert (Hp : forall n, 0 <= (1 - k) ^ n) by (intros n; apply pow_le; lra).
  destruct (Rle_dec (f 0%nat) T) as [Hle|Hgt]; [left|right]; intros n;
    pose proof (ease_closed f T k Hf n) as Hc; pose proof (Hp n) as Hn; rewrite Hf.
  - assert (f n - T <= 0) by (rewrite Hc; nra). nra.
  - assert (0 <= f n - T) by (rewrite Hc; nra). nra.
Qed.

Lemma ease_converges (f : nat -> R) (T k : R) :
  0 < k < 1 -> (forall n, f (S n) = f n + (T - f n) * k) -> Un_cv f T.
Proof.
  intros Hk Hf eps Heps.
  destruct (Req_dec (f 0%nat) T) as [E|NE].
  - exists 0%nat. intros n _. unfold R_dist.
    pose proof (ease_closed f T k Hf n) as Hc.
    rewrite Hc, E. replace ((1 - k) ^ n * (T - T)) with 0 by ring.
    rewrite Rabs_R0. exact Heps.
  - assert (Hd : 0 < Rabs (f 0%nat - T)) by (apply Rabs_pos_lt; lra).
    assert (Hy : 0 < eps / Rabs (f 0%nat - T)) by (apply Rdiv_lt_0_compat; lra).
    destruct (pow_lt_1_zero (1 - k)) with (y := eps / Rabs (f 0%nat - T)) as [N HN].
    + rewrite Rabs_pos_eq; lra.
    + exact Hy.
    + exists N. intros n Hn. unfold R_dist.
      rewrite (ease_closed f T k Hf n), Rabs_mult.
      specialize (HN n Hn).
      apply Rmult_lt_compat_r with (r := Rabs (f 0%nat - T)) in HN; [|exact Hd].
      unfold Rdiv in HN. rewrite Rmult_assoc, Rinv_l, Rmult_1_r in HN by lra.
      exact HN.
Qed.

Lemma sum_squares_zero x y z : x * x + y * y + z * z = 0 -> x = 0 /\ y = 0 /\ z = 0.
Proof. intros H. repeat split; nra. Qed.

Lemma v3_length_zero v : v3_length v = 0 -> v = origin.
Proof.
  unfold v3_length. intros H. apply sqrt_eq_0 in H; [|nra].
  destruct v as [x y z]. simpl in H. apply sum_squares_zero in H.
  destruct H as (-> & -> & ->). reflexivity.
Qed.

Lemma normalize_unit v : v3_length v <> 0 -> v3_length (normalize v) = 1.
Proof.
  intros Hne. unfold normalize, or_one.
  destruct (Req_dec_T (v3_length v) 0) as [E|_]; [contradiction|].
  set (L := v3_length v) in *.
  assert (HL : L * L = vx v * vx v + vy v * vy v + vz v * vz v).
  { unfold L, v3_length. apply sqrt_sqrt. nra. }
  unfold v3_length, divideScalar. simpl.
  replace (vx v / L * (vx v / L) + vy v / L * (vy v / L) + vz v / L * (vz v / L))
    with 1.
  - apply sqrt_1.
  - field_simplify_eq; [|exact Hne]. lra.
Qed.

Lemma normalize_origin : normalize origin = origin.
Proof.
  unfold normalize, or_one, origin, v3_length. simpl.
  replace (0 * 0 + 0 * 0 + 0 * 0) with 0 by ring. rewrite sqrt_0.
  destruct (Req_dec_T 0 0) as [_|N]; [|lra].
  unfold divideScalar. simpl. f_equal; lra.
Qed.

Lemma normalize_unit_or_origin v :
  v3_length (normalize v) = 1 \/ v = origin.
Proof.
  destruct (Req_dec (v3_length v) 0) as [E|NE].
  - right. apply v3_length_zero, E.
  - left. apply normalize_unit, NE.
Qed.

Lemma v3_length_origin : v3_length origin = 0.
Proof.
  unfold v3_length, origin. simpl.
  replace (0 * 0 + 0 * 0 + 0 * 0) with 0 by ring. apply sqrt_0.
Qed.

Lemma in_band_animate cfg t m : in_band (animate_mesh cfg t m).
Proof.
  unfold in_band. simpl.
  pose proof (SIN_bound (t * speed (userData m) + offset (userData m))) as [H1 H2].
  lra.
Qed.

Lemma floats_at_animate cfg t m : floats_at t (animate_mesh cfg t m).
Proof. unfold floats_at. simpl. lra. Qed.

(** *** The tick, case by case *)

Lemma animate_inactive s : isActive (bg s) = false -> animate s = (Ok tt, s).
Proof.
  intros H. unfold animate, mbind, M_bind, bind, get_bg. rewrite H. reflexivity.
Qed.

Lemma animate_hidden s :
  isActive (bg s) = true -> hidden (host s) = true ->
  animate s = (Ok tt, reschedule s).
Proof.
  intros Ha Hh. open_state s. simpl in Ha, Hh. subst. reflexivity.
Qed.

Lemma animate_visible s c sc r :
  isActive (bg s) = true -> hidden (host s) = false ->
  camera (bg s) = Some c -> scene (bg s) = Some sc -> renderer (bg s) = Some r ->
  animate s = (Ok tt, advance s c r).
Proof.
  intros Ha Hh Hc Hs Hr. open_state s. simpl in Ha, Hh, Hc, Hs, Hr. subst.
  destruct particles0; reflexivity.
Qed.

(** *** The particle loop *)

Lemma particles_loop_host n : forall i pos scl h,
  snd (particles_loop n i pos scl h) = set_rngPos (rngPos h + 4 * n) h.
Proof.
  induction n as [|n IH]; intros i pos scl h.
  - cbn. destruct h; unfold set_rngPos; cbn. f_equal. lia.
  - cbn [particles_loop]. unfold Math_random. cbn -[particles_loop Nat.mul Float32.fround].
    rewrite IH. cbn -[Nat.mul]. unfold set_rngPos; cbn -[Nat.mul]. f_equal. lia.
Qed.

Lemma particles_loop_length n : forall i pos scl h,
  length (fst (fst (particles_loop n i pos scl h))) = length pos /\
  length (snd (fst (particles_loop n i pos scl h))) = length scl.
Proof.
  induction n as [|n IH]; intros i pos scl h.
  - cbn. done.
  - cbn [particles_loop]. unfold Math_random. cbn -[particles_loop Nat.mul Float32.fround].
    match goal with
    | |- context [particles_loop n ?i ?p ?s ?h] =>
      destruct (IH i p s h) as [H1 H2]
    end.
    rewrite H1, H2. unfold Float32.store. rewrite !length_insert. done.
Qed.

(** A stored coordinate stays in the closed cube, a stored scale in the
    closed unit interval: rounding can reach the upper ends. *)
Lemma cube_sample r : in_unit r -> in_cube (Float32.fround ((r - 0.5) * 50)).
Proof.
  unfold in_unit, in_cube. intros H. apply Float32Proofs.fround_cube. lra.
Qed.

Lemma unit_sample r : in_unit r -> in_unit_closed (Float32.fround r).
Proof. apply Float32Proofs.fround_unit. Qed.

Lemma coordinate_near r :
  in_unit r ->
  Rabs (Float32.fround ((r - 0.5) * 50) - (r - 0.5) * 50) <= 1 / 1000000.
Proof.
  unfold in_unit. intros H. apply Float32Proofs.fround_near.
  apply Rabs_def1; lra.
Qed.

Lemma particles_loop_bounds n : forall i pos scl h,
  (forall k, in_unit (rand h k)) ->
  Forall in_cube pos -> Forall in_unit_closed scl ->
  Forall in_cube (fst (fst (particles_loop n i pos scl h))) /\
  Forall in_unit_closed (snd (fst (particles_loop n i pos scl h))).
Proof.
  induction n as [|n IH]; intros i pos scl h Hr Hp Hs.
  - cbn. done.
  - cbn [particles_loop]. unfold Math_random.
    cbn -[particles_loop Nat.mul Float32.fround Float32.store].
    apply IH.
    + intros k. cbn. apply Hr.
    + unfold Float32.store. repeat apply Forall_insert; auto using cube_sample.
    + unfold Float32.store. apply Forall_insert; auto using unit_sample.
Qed.

(** *** What the particle loop writes *)

Lemma particles_loop_step n i pos scl h :
  particles_loop (S n) i pos scl h
  = particles_loop n (S i)
      (<[(i * 3 + 2)%nat := Float32.fround ((rand h (2 + rngPos h) - 0.5) * 50)]>
         (<[(i * 3 + 1)%nat := Float32.fround ((rand h (1 + rngPos h) - 0.5) * 50)]>
            (<[(i * 3)%nat := Float32.fround ((rand h (rngPos h) - 0.5) * 50)]> pos)))
      (<[i := Float32.fround (rand h (3 + rngPos h))]> scl)
      (set_rngPos (4 + rngPos h) h).
Proof. destruct h. reflexivity. Qed.

Lemma particles_loop_below n : forall i pos scl h,
  (forall j, (j < i * 3)%nat ->
     fst (fst (particles_loop n i pos scl h)) !! j = pos !! j) /\
  (forall j, (j < i)%nat ->
     snd (fst (particles_loop n i pos scl h)) !! j = scl !! j).
Proof.
  induction n as [|n IH]; intros i pos scl h; [split; reflexivity|].
  rewrite particles_loop_step.
  match goal with |- context [particles_loop n ?i ?p ?s ?h] =>
    destruct (IH i p s h) as [Hp Hs] end.
  split; intros j Hj.
  - rewrite Hp by lia. rewrite !list_lookup_insert_ne by lia. reflexivity.
  - rewrite Hs by lia. rewrite list_lookup_insert_ne by lia. reflexivity.
Qed.

Lemma particles_loop_content n : forall i pos scl h,
  ((i + n) * 3 <= length pos)%nat -> (i + n <= length scl)%nat ->
  forall j, (j < n)%nat ->
    let res := fst (particles_loop n i pos scl h) in
    let k := (rngPos h + 4 * j)%nat in
    fst res !! ((i + j) * 3)%nat
      = Some (Float32.fround ((rand h k - 0.5) * 50)) /\
    fst res !! ((i + j) * 3 + 1)%nat
      = Some (Float32.fround ((rand h (k + 1) - 0.5) * 50)) /\
    fst res !! ((i + j) * 3 + 2)%nat
      = Some (Float32.fround ((rand h (k + 2) - 0.5) * 50)) /\
    snd res !! (i + j)%nat = Some (Float32.fround (rand h (k + 3))).
Proof.
  induction n as [|n IH]; intros i pos scl h Hp Hs j Hj; [lia|].
  cbv zeta. rewrite particles_loop_step.
  match goal with |- context [particles_loop n ?i ?p ?s ?h] =>
    set (pos' := p); set (scl' := s); set (h' := h) end.
  destruct j as [|j].
  - destruct (particles_loop_below n (S i) pos' scl' h') as [Bp Bs].
    rewrite Nat.mul_0_r, !Nat.add_0_r.
    rewrite (Bp (i * 3)%nat) by lia. rewrite (Bp (i * 3 + 1)%nat) by lia.
    rewrite (Bp (i * 3 + 2)%nat) by lia. rewrite (Bs i) by lia.
    subst pos' scl'.
    split; [|split; [|split]].
    + rewrite !list_lookup_insert_ne by lia.
      rewrite list_lookup_insert_eq by lia. reflexivity.
    + rewrite list_lookup_insert_ne by lia.
      rewrite list_lookup_insert_eq by (rewrite length_insert; lia).
      do 5 f_equal. lia.
    + rewrite list_lookup_insert_eq by (rewrite !length_insert; lia).
      do 5 f_equal. lia.
    + rewrite list_lookup_insert_eq by lia. do 3 f_equal. lia.
  - assert (Hp' : ((S i + n) * 3 <= length pos')%nat)
      by (subst pos'; rewrite !length_insert; lia).
    assert (Hs' : (S i + n <= length scl')%nat)
      by (subst scl'; rewrite !length_insert; lia).
    destruct (IH (S i) pos' scl' h' Hp' Hs' j ltac:(lia)) as (A & B & C & D).
    assert (E1 : (i + S j = S i + j)%nat) by lia.
    assert (E2 : (rngPos h + 4 * S j = rngPos h' + 4 * j)%nat) by (simpl; lia).
    rewrite E1, E2. auto.
Qed.

(** *** The stages of construction *)

Lemma createParticles_ok s sc :
  fault (host s) <> Some AtParticles -> scene (bg s) = Some sc ->
  createParticles s = (Ok tt, after_particles s).
Proof.
  intros Hf Hs. unfold after_particles. rewrite <- particles_loop_host with (i := 0%nat)
    (pos := replicate (particleCount (config (bg s)) * 3) 0)
    (scl := replicate (particleCount (config (bg s))) 0).
  unfold createParticles, ext, mbind, M_bind, bind, get_host, get_bg.
  destruct (fault (host s)) as [[]|]; try congruence; cbn -[particles_loop Nat.mul Float32.fround];
  destruct (particles_loop _ _ _ _ _) as [[pos scl] h'];
  cbn; unfold scene_add_m, mbind, M_bind, bind, get_bg; cbn; rewrite Hs; reflexivity.
Qed.

Lemma createFloatingGeometries_ok s sc :
  fault (host s) <> Some AtSolids -> scene (bg s) = Some sc ->
  createFloatingGeometries s = (Ok tt, after_solids s).
Proof.
  intros Hf Hs. open_state s. simpl in Hs, Hf. subst. destruct sc as [ch].
  destruct fault0 as [[]|]; try congruence; exec; rewrite <- !app_assoc; reflexivity.
Qed.

Lemma addEventListeners_ok s : addEventListeners s = (Ok tt, after_listeners s).
Proof. open_state s. reflexivity. Qed.

Lemma init_attach cfg h :
  fails_before_attach h = false ->
  init (mkSt (new_Background3D cfg) h)
  = (createParticles;; createFloatingGeometries;; addEventListeners;; animate)
      (after_attach cfg h).
Proof.
  intros H. destruct h. unfold fails_before_attach in H. simpl in H.
  destruct webgl0; [|discriminate].
  destruct fault0 as [[]|]; simpl in H; try discriminate;
    lazy -[IZR Rplus Rminus Rmult Rdiv Rinv Ropp Rlt_dec Rmin createParticles
           createFloatingGeometries addEventListeners animate app];
    reflexivity.
Qed.

Lemma no_fault_not_early h :
  webgl h = true -> fault h = None -> fails_before_attach h = false.
Proof. intros Hw Hf. unfold fails_before_attach. rewrite Hw, Hf. reflexivity. Qed.

(** [init] has no call at the clock stage: a fault there does not reach
    it. *)
Lemma init_passes cfg h :
  webgl h = true -> fault h = None \/ fault h = Some AtClock ->
  init (mkSt (new_Background3D cfg) h) = (Ok tt, built cfg h).
Proof.
  intros Hw Hf. rewrite init_attach.
  2:{ unfold fails_before_attach. rewrite Hw. destruct Hf as [->| ->]; reflexivity. }
  erewrite bind_ok; [|apply createParticles_ok with (sc := mkScene []); [|reflexivity]].
  2:{ simpl. destruct Hf as [->| ->]; discriminate. }
  erewrite bind_ok; [|eapply createFloatingGeometries_ok; [|reflexivity]].
  2:{ simpl. destruct Hf as [->| ->]; discriminate. }
  erewrite bind_ok; [|apply addEventListeners_ok].
  unfold built, run.
  set (s := after_listeners _).
  destruct (hidden (host s)) eqn:Hh.
  - rewrite animate_hidden; [reflexivity| reflexivity | exact Hh].
  - erewrite animate_visible; [reflexivity| reflexivity | exact Hh | reflexivity ..].
Qed.

Lemma init_ok cfg h :
  webgl h = true -> fault h = None ->
  init (mkSt (new_Background3D cfg) h) = (Ok tt, built cfg h).
Proof. intros Hw Hf. apply init_passes; auto. Qed.


Lemma built_eq cfg h :
  let s := after_listeners (after_solids (after_particles (after_attach cfg h))) in
  built cfg h =
  if hidden h then reschedule s else advance s (first_camera h) (first_renderer h).
Proof.
  intros s. unfold built, run. destruct (hidden h) eqn:Hh.
  - rewrite animate_hidden; [reflexivity| reflexivity | exact Hh].
  - erewrite animate_visible; [reflexivity| reflexivity | exact Hh | reflexivity ..].
Qed.

Lemma construct_ok cfg h :
  webgl h = true -> fault h = None -> construct cfg h = built cfg h.
Proof. intros Hw Hf. unfold construct. rewrite init_ok by assumption. reflexivity. Qed.

Lemma construct_no_webgl cfg h :
  webgl h = false ->
  construct cfg h = mkSt (new_Background3D cfg) (fell_back h).
Proof. intros Hw. destruct h. simpl in Hw. subst. reflexivity. Qed.

Lemma construct_early_fault cfg h :
  fails_before_attach h = true ->
  containerChildren (host (construct cfg h)) = containerChildren h /\
  is_running (construct cfg h) = false /\
  geometries (bg (construct cfg h)) = [] /\
  particles (bg (construct cfg h)) = None /\
  bodyBackground (host (construct cfg h)) = Some gradient.
Proof.
  intros H. destruct h. unfold fails_before_attach in H. simpl in H.
  destruct webgl0; [|repeat split; reflexivity].
  destruct fault0 as [[]|]; simpl in H; try discriminate; repeat split; reflexivity.
Qed.

Lemma construct_particle_fault cfg h :
  webgl h = true -> fault h = Some AtParticles ->
  construct cfg h = mkSt (bg (after_attach cfg h)) (fell_back (host (after_attach cfg h))).
Proof.
  intros Hw Hf. unfold construct. rewrite init_attach.
  2:{ unfold fails_before_attach. rewrite Hw, Hf. reflexivity. }
  destruct h. simpl in Hw, Hf. subst. reflexivity.
Qed.

Lemma construct_solid_fault cfg h :
  webgl h = true -> fault h = Some AtSolids ->
  construct cfg h =
  let s := after_particles (after_attach cfg h) in mkSt (bg s) (fell_back (host s)).
Proof.
  intros Hw Hf. unfold construct. rewrite init_attach.
  2:{ unfold fails_before_attach. rewrite Hw, Hf. reflexivity. }
  erewrite bind_ok; [|apply createParticles_ok with (sc := mkScene []); [|reflexivity]].
  2:{ simpl. rewrite Hf. discriminate. }
  set (s := after_particles _).
  assert (E : createFloatingGeometries s = (Throw "Error"%string, s)).
  { unfold createFloatingGeometries, ext, mbind, M_bind, bind, get_host.
    replace (fault (host s)) with (Some AtSolids) by (symmetry; exact Hf).
    reflexivity. }
  erewrite bind_throw by exact E. reflexivity.
Qed.

Lemma construct_clock_fault cfg h :
  webgl h = true -> fault h = Some AtClock -> construct cfg h = built cfg h.
Proof. intros Hw Hf. unfold construct. rewrite init_passes by auto. reflexivity. Qed.

Lemma construct_falls_back cfg h :
  fault h <> Some AtClock ->
  webgl h = false \/ fault h <> None ->
  bodyBackground (host (construct cfg h)) = Some gradient.
Proof.
  intros Hc H. destruct (fails_before_attach h) eqn:He.
  - apply construct_early_fault; assumption.
  - unfold fails_before_attach in He. destruct (webgl h) eqn:Hw; [|discriminate].
    destruct (fault h) as [[]|] eqn:Hf; simpl in He; try discriminate.
    + congruence.
    + rewrite construct_particle_fault by assumption. reflexivity.
    + rewrite construct_solid_fault by assumption. reflexivity.
    + destruct H; congruence.
Qed.

(** The constructor throws exactly at a clock fault. *)
Lemma constructor_returns cfg h :
  fault h <> Some AtClock -> constructor cfg h = Ok (construct cfg h).
Proof.
  intros H. unfold constructor. destruct (fault h) as [[]|]; congruence.
Qed.

Lemma constructor_throws cfg h :
  fault h = Some AtClock -> constructor cfg h = Throw "ReferenceError"%string.
Proof. intros H. unfold constructor. rewrite H. reflexivity. Qed.


(** *** What a finished construction looks like *)

Lemma existsb_snoc (x : nat) (l : list nat) : existsb (Nat.eqb x) (l ++ [x]) = true.
Proof. rewrite existsb_app. simpl. rewrite Nat.eqb_refl. apply orb_true_r. Qed.

Lemma reschedule_running s :
  isActive (bg s) = true -> is_running (reschedule s) = true.
Proof.
  intros Ha. unfold is_running. change (isActive (bg (reschedule s))) with (isActive (bg s)).
  rewrite Ha. change (frameId (bg (reschedule s))) with (Some (nextFrame (host s))).
  change (scheduled (host (reschedule s))) with (scheduled (host s) ++ [nextFrame (host s)]).
  apply existsb_snoc.
Qed.

Lemma advance_running s c r : is_running (advance s c r) = is_running (reschedule s).
Proof. reflexivity. Qed.

Lemma advance_geometries s c r :
  geometries (bg (advance s c r))
  = map (animate_mesh (config (bg s)) (elapsed_ms (now (host s)) (clock (bg s))))
        (geometries (bg s)).
Proof. reflexivity. Qed.

Lemma advance_particles s c r :
  particles (bg (advance s c r))
  = option_map (set_points_time (elapsed_ms (now (host s)) (clock (bg s))))
               (particles (bg s)).
Proof. unfold advance. simpl. destruct (particles (bg s)); reflexivity. Qed.

Lemma advance_attached s c r :
  surface_attached (advance s c r)
  = existsb (Nat.eqb (domElement r)) (containerChildren (host s)).
Proof. reflexivity. Qed.

Lemma reschedule_attached s : surface_attached (reschedule s) = surface_attached s.
Proof. reflexivity. Qed.

Lemma map_kind_animate cfg t l : map kind (map (animate_mesh cfg t) l) = map kind l.
Proof. rewrite map_map. reflexivity. Qed.

Section Built.
Variables (cfg : SceneConfig) (h : Host).

(** The store just before the first tick. *)
Let s0 : St :=
  after_listeners (after_solids (after_particles (after_attach cfg h))).

Lemma s0_active : isActive (bg s0) = true.
Proof. reflexivity. Qed.

Lemma s0_config : config (bg s0) = cfg.
Proof. reflexivity. Qed.

Lemma s0_geometries :
  geometries (bg s0)
  = fresh_meshes geometryKinds 0
      (set_rngPos (rngPos h + 4 * particleCount cfg) (host (after_attach cfg h))).
Proof. reflexivity. Qed.

Lemma s0_particles :
  particles (bg s0)
  = Some (mkPoints
            (fst (fst (particles_loop (particleCount cfg) 0
                         (replicate (particleCount cfg * 3) 0)
                         (replicate (particleCount cfg) 0)
                         (host (after_attach cfg h)))))
            (snd (fst (particles_loop (particleCount cfg) 0
                         (replicate (particleCount cfg * 3) 0)
                         (replicate (particleCount cfg) 0)
                         (host (after_attach cfg h)))))
            0 0 0).
Proof. reflexivity. Qed.

Lemma s0_children : containerChildren (host s0) = containerChildren h ++ [nextId h].
Proof. reflexivity. Qed.

Lemma s0_renderer : renderer (bg s0) = Some (first_renderer h).
Proof. reflexivity. Qed.

Lemma s0_camera : camera (bg s0) = Some (first_camera h).
Proof. reflexivity. Qed.

Lemma s0_scene :
  scene (bg s0)
  = Some (mkScene [OPoints; OAmbientLight; OPointLight;
                   OMesh 0; OMesh 1; OMesh 2; OMesh 3]).
Proof. reflexivity. Qed.

Lemma s0_listeners :
  resizeListeners (host s0) = resizeListeners h ++ [S (nextId h)] /\
  mousemoveListeners (host s0) = mousemoveListeners h ++ [S (S (nextId h))] /\
  nextId (host s0) = S (S (S (nextId h))).
Proof. repeat split; reflexivity. Qed.

Lemma s0_host_inputs :
  hidden (host s0) = hidden h /\ bodyBackground (host s0) = bodyBackground h /\
  scheduled (host s0) = scheduled h /\ nextFrame (host s0) = nextFrame h.
Proof. repeat split; reflexivity. Qed.

Lemma built_cases :
  built cfg h = reschedule s0 /\ hidden h = true \/
  built cfg h = advance s0 (first_camera h) (first_renderer h) /\ hidden h = false.
Proof.
  pose proof (built_eq cfg h) as E. cbv zeta in E. fold s0 in E.
  destruct (hidden h); [left|right]; split; auto.
Qed.

Lemma built_running : is_running (built cfg h) = true.
Proof.
  destruct built_cases as [[-> _]|[-> _]]; rewrite ?advance_running;
    apply reschedule_running, s0_active.
Qed.

Lemma built_kinds : map kind (geometries (bg (built cfg h))) = geometryKinds.
Proof.
  destruct built_cases as [[-> _]|[-> _]].
  - change (geometries (bg (reschedule s0))) with (geometries (bg s0)).
    rewrite s0_geometries. reflexivity.
  - rewrite advance_geometries, map_kind_animate, s0_geometries. reflexivity.
Qed.

Lemma built_config : config (bg (built cfg h)) = cfg.
Proof.
  destruct built_cases as [[-> _]|[-> _]].
  - change (config (bg (reschedule s0))) with (config (bg s0)). apply s0_config.
  - change (config (bg (advance s0 (first_camera h) (first_renderer h))))
      with (config (bg s0)). apply s0_config.
Qed.

Lemma built_particles :
  exists p, particles (bg (built cfg h)) = Some p /\
    positions p = fst (fst (particles_loop (particleCount cfg) 0
                              (replicate (particleCount cfg * 3) 0)
                              (replicate (particleCount cfg) 0)
                              (host (after_attach cfg h)))) /\
    scales p = snd (fst (particles_loop (particleCount cfg) 0
                              (replicate (particleCount cfg * 3) 0)
                              (replicate (particleCount cfg) 0)
                              (host (after_attach cfg h)))).
Proof.
  destruct built_cases as [[-> _]|[-> _]].
  - change (particles (bg (reschedule s0))) with (particles (bg s0)).
    rewrite s0_particles. eexists. split; [reflexivity|]. split; reflexivity.
  - rewrite advance_particles, s0_particles. simpl option_map.
    eexists. split; [reflexivity|]. split; reflexivity.
Qed.

Lemma built_attached : surface_attached (built cfg h) = true.
Proof.
  destruct built_cases as [[-> _]|[-> _]].
  - rewrite reschedule_attached. unfold surface_attached.
    rewrite s0_renderer, s0_children. apply existsb_snoc.
  - rewrite advance_attached, s0_children. apply existsb_snoc.
Qed.

Lemma built_background : bodyBackground (host (built cfg h)) = bodyBackground h.
Proof.
  destruct built_cases as [[-> _]|[-> _]].
  - change (bodyBackground (host (reschedule s0))) with (bodyBackground (host s0)).
    apply s0_host_inputs.
  - change (bodyBackground (host (advance s0 (first_camera h) (first_renderer h))))
      with (bodyBackground (host s0)). apply s0_host_inputs.
Qed.

Lemma built_fully : fully_built cfg (built cfg h).
Proof.
  split; [apply built_running|]. split; [apply built_kinds|].
  destruct built_particles as (p & Hp & Hpos & Hscl).
  exists p. split; [exact Hp|].
  rewrite Hpos, Hscl.
  match goal with |- context [particles_loop ?n ?i ?a ?b ?c] =>
    destruct (particles_loop_length n i a b c) as [H1 H2] end.
  rewrite H1, H2, !length_replicate. done.
Qed.

End Built.

(** *** Disposal *)

Lemma dispose_ok s sc p r :
  scene (bg s) = Some sc -> particles (bg s) = Some p -> renderer (bg s) = Some r ->
  existsb (Nat.eqb (domElement r)) (containerChildren (host s)) = true ->
  dispose s = (Ok tt, disposed s).
Proof.
  intros Hs Hp Hr Hin. open_state s. destruct r. simpl in Hs, Hp, Hr, Hin. subst.
  destruct geometries0 as [|m ms], frameId0 as [i|];
    lazy -[IZR Rplus Rminus Rmult Rdiv Rinv Ropp map existsb List.filter remove_meshes
           scene_remove dispose_mesh dispose_points remove_listener
           Nat.eqb negb];
    rewrite Hin; reflexivity.
Qed.

Lemma dispose_inactive s : isActive (bg (run dispose s)) = false.
Proof.
  open_state s.
  destruct geometries0 as [|m ms], scene0, particles0, renderer0 as [r|];
    try reflexivity;
    unfold run, dispose, removeChild, mbind, M_bind, bind, get_host, get_bg, upd_bg,
      upd_host; simpl;
    destruct (existsb (Nat.eqb (domElement r)) _); reflexivity.
Qed.

Lemma filter_neq_absent (x : nat) (l : list nat) :
  existsb (Nat.eqb x) (List.filter (fun c => negb (Nat.eqb c x)) l) = false.
Proof.
  induction l as [|y l IH]; [reflexivity|]. simpl.
  destruct (Nat.eqb y x) eqn:E; simpl; [exact IH|].
  rewrite Nat.eqb_sym, E. exact IH.
Qed.

(** C1 (amended).  A construction that meets no failure returns a
    running controller with one solid per geometry kind, a particle
    field of [particleCount] positions and scales, and its canvas
    attached.  When WebGL is missing, or a step of [init] up to the
    attaching of the canvas throws, the constructor still returns; the
    container receives no canvas, nothing is built and the loop does not
    run.  Whenever [init] fails, at any of its steps, the constructor
    returns and the rejection is handled: the static gradient is
    installed as the page background.  The creation of the clock is not
    a step of [init]: when it throws, the constructor throws. *)
Theorem C1_construction_outcomes (cfg : SceneConfig) (h : Host) :
  (webgl h = true -> fault h = None ->
     constructor cfg h = Ok (construct cfg h) /\
     fully_built cfg (construct cfg h) /\
     surface_attached (construct cfg h) = true /\
     bodyBackground (host (construct cfg h)) = bodyBackground h) /\
  (fault h <> Some AtClock -> fails_before_attach h = true ->
     constructor cfg h = Ok (construct cfg h) /\
     containerChildren (host (construct cfg h)) = containerChildren h /\
     is_running (construct cfg h) = false /\
     geometries (bg (construct cfg h)) = [] /\
     particles (bg (construct cfg h)) = None) /\
  (fault h <> Some AtClock -> webgl h = false \/ fault h <> None ->
     constructor cfg h = Ok (construct cfg h) /\
     bodyBackground (host (construct cfg h)) = Some gradient) /\
  (fault h = Some AtClock ->
     constructor cfg h = Throw "ReferenceError"%string).
Proof.
  split; [|split; [|split]].
  - intros Hw Hf. split; [apply constructor_returns; congruence|].
    rewrite construct_ok by assumption.
    split; [apply built_fully|]. split; [apply built_attached|apply built_background].
  - intros Hc He. split; [apply constructor_returns; exact Hc|].
    destruct (construct_early_fault cfg h He) as (A & B & C & D & _). auto.
  - intros Hc H. split; [apply constructor_returns; exact Hc|].
    apply construct_falls_back; assumption.
  - apply constructor_throws.
Qed.

Lemma C1_construction_outcomes_witness :
  fully_built small_config (construct small_config sample_host) /\
  containerChildren (host (construct small_config no_webgl_host)) = [] /\
  (constructor small_config particle_fault_host
     = Ok (construct small_config particle_fault_host) /\
   bodyBackground (host (construct small_config particle_fault_host))
     = Some gradient) /\
  constructor small_config no_library_host = Throw "ReferenceError"%string.
Proof.
  split; [|split; [|split]].
  - destruct (C1_construction_outcomes small_config sample_host) as (A & _).
    apply A; reflexivity.
  - destruct (C1_construction_outcomes small_config no_webgl_host) as (_ & B & _).
    apply B; [discriminate|reflexivity].
  - destruct (C1_construction_outcomes small_config particle_fault_host)
      as (_ & _ & C & _).
    apply C; [discriminate|right; discriminate].
  - destruct (C1_construction_outcomes small_config no_library_host)
      as (_ & _ & _ & D).
    apply D. reflexivity.
Defined.

(** C1 as stated fails: when building the particle system throws, the
    canvas is already attached and stays attached, although no
    controller runs. *)
Lemma C1_counterexample :
  ~ construction_contract default_config particle_fault_host.
Proof.
  unfold construction_contract.
  rewrite construct_particle_fault by reflexivity.
  intros [[H _]|H]; vm_compute in H; discriminate.
Qed.

(** *** The resize handler *)

Lemma onWindowResize_ok s c r :
  camera (bg s) = Some c -> renderer (bg s) = Some r ->
  onWindowResize s = (Ok tt, resized s c r).
Proof.
  intros Hc Hr. open_state s. simpl in Hc, Hr. subst. reflexivity.
Qed.

Lemma run_each_resize (ls : list nat) : forall s c r,
  ls <> [] -> camera (bg s) = Some c -> renderer (bg s) = Some r ->
  camera_aspect (run_each ls onWindowResize s)
  = innerWidth (host s) / innerHeight (host s).
Proof.
  induction ls as [|l ls IH]; intros s c r Hne Hc Hr; [congruence|].
  simpl. unfold run at 1. rewrite (onWindowResize_ok s c r Hc Hr). simpl snd.
  destruct ls as [|l' ls'].
  - reflexivity.
  - erewrite IH; [reflexivity|discriminate|reflexivity|reflexivity].
Qed.

Lemma fresh_meshes_unreleased h :
  Forall (fun m => geometry_disposed m = 0%nat /\ material_disposed m = 0%nat)
         (fresh_meshes geometryKinds 0 h).
Proof. repeat constructor. Qed.

Lemma built_unreleased cfg h :
  Forall (fun m => geometry_disposed m = 0%nat /\ material_disposed m = 0%nat)
         (geometries (bg (built cfg h))).
Proof.
  destruct (built_cases cfg h) as [[-> _]|[-> _]].
  - apply fresh_meshes_unreleased.
  - rewrite advance_geometries, s0_geometries. apply Forall_map.
    eapply Forall_impl; [apply fresh_meshes_unreleased|]. intros m Hm. exact Hm.
Qed.

Lemma advance_fields s c r :
  scene (bg (advance s c r)) = scene (bg s) /\
  camera (bg (advance s c r))
  = Some (lookAt origin (steer (mouse (bg s)) (mouseEffect (config (bg s))) c)) /\
  renderer (bg (advance s c r)) = Some (render r) /\
  containerChildren (host (advance s c r)) = containerChildren (host s) /\
  resizeListeners (host (advance s c r)) = resizeListeners (host s) /\
  nextId (host (advance s c r)) = nextId (host s).
Proof. repeat split; reflexivity. Qed.

Lemma reschedule_fields s :
  scene (bg (reschedule s)) = scene (bg s) /\
  camera (bg (reschedule s)) = camera (bg s) /\
  renderer (bg (reschedule s)) = renderer (bg s) /\
  particles (bg (reschedule s)) = particles (bg s) /\
  containerChildren (host (reschedule s)) = containerChildren (host s) /\
  resizeListeners (host (reschedule s)) = resizeListeners (host s) /\
  nextId (host (reschedule s)) = nextId (host s).
Proof. repeat split; reflexivity. Qed.

Lemma built_equipment cfg h :
  exists sc p c r,
    scene (bg (built cfg h)) = Some sc /\
    particles (bg (built cfg h)) = Some p /\
    camera (bg (built cfg h)) = Some c /\
    renderer (bg (built cfg h)) = Some r /\
    domElement r = nextId h /\
    points_geometry_disposed p = 0%nat /\ points_material_disposed p = 0%nat /\
    containerChildren (host (built cfg h)) = containerChildren h ++ [nextId h] /\
    resizeListeners (host (built cfg h)) = resizeListeners h ++ [S (nextId h)] /\
    nextId (host (built cfg h)) = S (S (S (nextId h))).
Proof.
  pose proof (s0_scene cfg h) as Hs. pose proof (s0_particles cfg h) as Hp.
  pose proof (s0_camera cfg h) as Hc. pose proof (s0_renderer cfg h) as Hr.
  pose proof (s0_children cfg h) as Hch.
  destruct (s0_listeners cfg h) as (Hl & _ & Hid).
  cbv zeta in *.
  destruct (built_cases cfg h) as [[-> _]|[-> _]].
  - destruct (reschedule_fields
                (after_listeners (after_solids (after_particles (after_attach cfg h)))))
      as (E1 & E2 & E3 & E4 & E5 & E6 & E7).
    rewrite E1, E2, E3, E4, E5, E6, E7, Hs, Hp, Hc, Hr, Hch, Hl, Hid.
    eexists _, _, _, _. repeat split; reflexivity.
  - destruct (advance_fields
                (after_listeners (after_solids (after_particles (after_attach cfg h))))
                (first_camera h) (first_renderer h))
      as (E1 & E2 & E3 & E5 & E6 & E7).
    rewrite advance_particles.
    rewrite E1, E2, E3, E5, E6, E7, Hs, Hp, Hch, Hl, Hid.
    eexists _, _, _, _. repeat split; reflexivity.
Qed.

Lemma dispose_report b sc p c r f w ht :
  scene (bg b) = Some sc -> particles (bg b) = Some p ->
  camera (bg b) = Some c -> renderer (bg b) = Some r ->
  existsb (Nat.eqb (domElement r)) (containerChildren (host b)) = true ->
  points_geometry_disposed p = 0%nat -> points_material_disposed p = 0%nat ->
  Forall (fun m => geometry_disposed m = 0%nat /\ material_disposed m = 0%nat)
         (geometries (bg b)) ->
  In f (resizeListeners (host b)) -> f <> nextId (host b) ->
  let d := run dispose b in
  dispose b = (Ok tt, d) /\
  isActive (bg d) = false /\
  is_running d = false /\
  Forall (fun m => geometry_disposed m = 1%nat /\ material_disposed m = 1%nat)
         (geometries (bg d)) /\
  (exists p, particles (bg d) = Some p /\
             points_geometry_disposed p = 1%nat /\ points_material_disposed p = 1%nat) /\
  surface_attached d = false /\
  In f (resizeListeners (host d)) /\
  camera_aspect (deliver (Resize w ht) d) = w / ht.
Proof.
  intros Hs Hp Hc Hr Hin Hg0 Hm0 Hun Hf Hne d.
  pose proof (dispose_ok _ sc p r Hs Hp Hr Hin) as Hd.
  assert (Ed : d = disposed b) by (unfold d, run; rewrite Hd; reflexivity).
  clearbody d. subst d.
  assert (Hl : In f (resizeListeners (host (disposed b)))).
  { change (resizeListeners (host (disposed b)))
      with (remove_listener (nextId (host b)) (resizeListeners (host b))).
    apply filter_In. split; [exact Hf|].
    apply negb_true_iff, Nat.eqb_neq. exact Hne. }
  split; [exact Hd|]. split; [reflexivity|]. split; [reflexivity|].
  split.
  { change (geometries (bg (disposed b))) with (map dispose_mesh (geometries (bg b))).
    apply Forall_map. eapply Forall_impl; [exact Hun|].
    intros m [H1 H2]. simpl. rewrite H1, H2. done. }
  split.
  { exists (dispose_points p).
    change (particles (bg (disposed b))) with (option_map dispose_points (particles (bg b))).
    rewrite Hp. simpl. rewrite Hg0, Hm0. done. }
  split.
  { unfold surface_attached.
    change (renderer (bg (disposed b))) with (option_map renderer_dispose (renderer (bg b))).
    rewrite Hr. simpl option_map. cbv iota.
    change (containerChildren (host (disposed b)))
      with (match renderer (bg b) with
            | Some r => List.filter (fun c => negb (Nat.eqb c (domElement r)))
                                    (containerChildren (host b))
            | None => containerChildren (host b)
            end).
    rewrite Hr. apply filter_neq_absent. }
  split; [exact Hl|].
  unfold deliver.
  erewrite run_each_resize with (c := c) (r := renderer_dispose r).
  - reflexivity.
  - intros E. rewrite E in Hl. destruct Hl.
  - exact Hc.
  - simpl. rewrite Hr. reflexivity.
Qed.

(** C2, the code at the failing input.  Disposing a controller that was
    built without failure runs to its end: the controller is inactive,
    the frame it had requested is no longer pending, each solid and the
    particle system have had geometry and material released exactly
    once, and the canvas is detached.  The resize listener that the
    constructor registered is still registered: [dispose] passes a new
    function object to [removeEventListener].  A later resize therefore
    still reaches the disposed controller and rewrites its camera. *)
Theorem C2_dispose_keeps_resize_listener (cfg : SceneConfig) (h : Host) (w ht : R) :
  webgl h = true -> fault h = None ->
  let s := construct cfg h in
  let d := run dispose s in
  dispose s = (Ok tt, d) /\
  isActive (bg d) = false /\
  is_running d = false /\
  Forall (fun m => geometry_disposed m = 1%nat /\ material_disposed m = 1%nat)
         (geometries (bg d)) /\
  (exists p, particles (bg d) = Some p /\
             points_geometry_disposed p = 1%nat /\ points_material_disposed p = 1%nat) /\
  surface_attached d = false /\
  In (S (nextId h)) (resizeListeners (host s)) /\
  In (S (nextId h)) (resizeListeners (host d)) /\
  camera_aspect (deliver (Resize w ht) d) = w / ht.
Proof.
  intros Hw Hf s d. subst d s. rewrite construct_ok by assumption.
  destruct (built_equipment cfg h)
    as (sc & p & c & r & Hs & Hp & Hc & Hr & Hel & Hg0 & Hm0 & Hch & Hls & Hid).
  assert (Hin : existsb (Nat.eqb (domElement r)) (containerChildren (host (built cfg h))) = true).
  { rewrite Hch, Hel. apply existsb_snoc. }
  assert (Hreg : In (S (nextId h)) (resizeListeners (host (built cfg h)))).
  { rewrite Hls. apply in_or_app. right. left. reflexivity. }
  assert (Hne : S (nextId h) <> nextId (host (built cfg h))) by (rewrite Hid; lia).
  destruct (dispose_report (built cfg h) sc p c r (S (nextId h)) w ht
              Hs Hp Hc Hr Hin Hg0 Hm0 (built_unreleased cfg h) Hreg Hne)
    as (A1 & A2 & A3 & A4 & A5 & A6 & A7 & A8).
  repeat (split; [assumption|]). assumption.
Qed.

Lemma C2_dispose_keeps_resize_listener_witness :
  In 1%nat (resizeListeners
              (host (run dispose (construct small_config sample_host)))) /\
  surface_attached (run dispose (construct small_config sample_host)) = false.
Proof.
  destruct (C2_dispose_keeps_resize_listener small_config sample_host 800 600
              eq_refl eq_refl) as (_ & _ & _ & _ & _ & A & _ & B & _).
  split; [exact B|exact A].
Defined.

(** *** What the handlers never touch *)

Lemma animate_keeps s :
  config (bg (run animate s)) = config (bg s) /\
  isActive (bg (run animate s)) = isActive (bg s) /\
  mouse (bg (run animate s)) = mouse (bg s) /\
  option_map positions (particles (bg (run animate s)))
  = option_map positions (particles (bg s)) /\
  option_map scales (particles (bg (run animate s)))
  = option_map scales (particles (bg s)) /\
  (geometries (bg (run animate s)) = geometries (bg s) \/
   geometries (bg (run animate s))
   = map (animate_mesh (config (bg s)) (elapsed_ms (now (host s)) (clock (bg s))))
         (geometries (bg s))).
Proof.
  open_state s.
  destruct isActive0, hidden0, particles0, camera0, scene0, renderer0;
    (repeat split; try reflexivity; (left; reflexivity) || (right; reflexivity)).
Qed.

Lemma onWindowResize_keeps s :
  config (bg (run onWindowResize s)) = config (bg s) /\
  isActive (bg (run onWindowResize s)) = isActive (bg s) /\
  particles (bg (run onWindowResize s)) = particles (bg s) /\
  geometries (bg (run onWindowResize s)) = geometries (bg s).
Proof.
  open_state s. destruct camera0, renderer0; repeat split; reflexivity.
Qed.

Lemma onMouseMove_keeps x y s :
  config (bg (run (onMouseMove x y) s)) = config (bg s) /\
  isActive (bg (run (onMouseMove x y) s)) = isActive (bg s) /\
  particles (bg (run (onMouseMove x y) s)) = particles (bg s) /\
  geometries (bg (run (onMouseMove x y) s)) = geometries (bg s).
Proof. open_state s. repeat split; reflexivity. Qed.

Lemma run_each_kept (P : Background3D -> Prop) (m : M unit) :
  (forall s, P (bg s) -> P (bg (run m s))) ->
  forall (ls : list nat) s, P (bg s) -> P (bg (run_each ls m s)).
Proof.
  intros Hm ls. induction ls as [|l ls IH]; intros s Hs; [exact Hs|].
  simpl. apply IH, Hm, Hs.
Qed.

Lemma deliver_kept P : kept P -> forall e s, P (bg s) -> P (bg (deliver e s)).
Proof.
  intros HP e s Hs. destruct e as [t|w ht|x y|v]; simpl.
  - apply run_each_kept; [intros s' Hs'; apply HP, Hs'|exact Hs].
  - apply run_each_kept; [intros s' Hs'; apply HP, Hs'|exact Hs].
  - apply run_each_kept; [intros s' Hs'; apply HP, Hs'|exact Hs].
  - exact Hs.
Qed.

Lemma deliver_all_kept P :
  kept P -> forall es s, P (bg s) -> P (bg (deliver_all es s)).
Proof.
  intros HP es. induction es as [|e es IH]; intros s Hs; [exact Hs|].
  simpl. apply IH, deliver_kept; assumption.
Qed.

Lemma ticks_kept P : kept P -> forall ts n s, P (bg s) -> P (bg (ticks ts n s)).
Proof.
  intros HP ts n. induction n as [|n IH]; intros s Hs; [exact Hs|].
  simpl. unfold tick. apply HP. simpl. apply IH, Hs.
Qed.

Lemma inactive_kept : kept (fun b => isActive b = false).
Proof.
  intros s Hs. split; [|split; [|intros x y]].
  - destruct (animate_keeps s) as (_ & -> & _). exact Hs.
  - destruct (onWindowResize_keeps s) as (_ & -> & _). exact Hs.
  - destruct (onMouseMove_keeps x y s) as (_ & -> & _). exact Hs.
Qed.

(** C6. A tick of an inactive controller returns at once and changes
    nothing; disposal makes the controller inactive and no event makes
    it active again, so every later tick leaves the controller and the
    pending requests as they are.  A tick of an active controller while
    the document is hidden requests the next frame and does nothing
    else: clock, particle system, solids, camera and renderer (and so
    the number of rendered frames) are unchanged. *)
Theorem C6_inactive_and_hidden_ticks :
  (forall s, isActive (bg s) = false -> animate s = (Ok tt, s)) /\
  (forall s es, isActive (bg (deliver_all es (run dispose s))) = false) /\
  (forall s ts n,
      bg (ticks ts n (run dispose s)) = bg (run dispose s) /\
      scheduled (host (ticks ts n (run dispose s))) = scheduled (host (run dispose s))) /\
  (forall s, isActive (bg s) = true -> hidden (host s) = true ->
      animate s = (Ok tt, reschedule s) /\
      is_running (reschedule s) = true /\
      clock (bg (reschedule s)) = clock (bg s) /\
      particles (bg (reschedule s)) = particles (bg s) /\
      geometries (bg (reschedule s)) = geometries (bg s) /\
      camera (bg (reschedule s)) = camera (bg s) /\
      renderer (bg (reschedule s)) = renderer (bg s)).
Proof.
  split; [exact animate_inactive|]. split; [|split].
  - intros s es. apply (deliver_all_kept _ inactive_kept). apply dispose_inactive.
  - intros s ts n. pose proof (dispose_inactive s) as Hd.
    remember (run dispose s) as d eqn:E. clear E s.
    induction n as [|n IH]; [split; reflexivity|].
    destruct IH as [IHb IHs]. simpl. unfold tick, run.
    rewrite animate_inactive by (simpl; rewrite IHb; exact Hd).
    simpl. split; [exact IHb|exact IHs].
  - intros s Ha Hh. split; [apply animate_hidden; assumption|].
    split; [apply reschedule_running; assumption|]. repeat split; reflexivity.
Qed.

Lemma C6_inactive_and_hidden_ticks_witness :
  animate (run dispose (construct small_config sample_host))
  = (Ok tt, run dispose (construct small_config sample_host)) /\
  animate hidden_sample = (Ok tt, reschedule hidden_sample).
Proof.
  destruct C6_inactive_and_hidden_ticks as (A & _ & _ & D). split.
  - apply A. apply dispose_inactive.
  - apply D; reflexivity.
Defined.

(** C7. Invoking the resize handler a second time with the same
    viewport dimensions leaves the whole store, and so the camera aspect
    and the surface size, as the first invocation left it; with camera
    and renderer in place, the first invocation sets the aspect (and the
    projection) to width/height and the surface to the new size. *)
Theorem C7_resize_idempotent (s : St) (w ht : R) :
  resize w ht (resize w ht s) = resize w ht s /\
  (equipped s = true ->
   camera_aspect (resize w ht s) = w / ht /\
   surface_size (resize w ht s) = (w, ht) /\
   option_map projection_aspect (camera (bg (resize w ht s))) = Some (w / ht)).
Proof.
  split.
  - open_state s. destruct camera0 as [[]|], renderer0 as [[]|]; reflexivity.
  - intros He. open_state s. unfold equipped in He. simpl in He.
    destruct camera0 as [c|]; [|discriminate]. destruct scene0; [|discriminate].
    destruct renderer0 as [r|]; [|discriminate].
    repeat split; reflexivity.
Qed.

Lemma C7_resize_idempotent_witness :
  camera_aspect (resize 800 600 (construct small_config sample_host)) = 800 / 600.
Proof.
  apply (C7_resize_idempotent (construct small_config sample_host) 800 600).
  reflexivity.
Defined.

(** *** Ticks of a controller that is ready *)

Lemma tick_ready t s :
  ready s = true ->
  ready (tick t s) = true /\
  config (bg (tick t s)) = config (bg s) /\
  mouse (bg (tick t s)) = mouse (bg s) /\
  camera_position (tick t s)
  = mkV3 (vx (camera_position s)
          + (x2 (mouse (bg s)) * 2 - vx (camera_position s))
            * mouseEffect (config (bg s)))
         (vy (camera_position s)
          + (y2 (mouse (bg s)) * 2 - vy (camera_position s))
            * mouseEffect (config (bg s)))
         (vz (camera_position s)) /\
  camera_aim (tick t s) = Some origin /\
  frames_rendered (tick t s) = S (frames_rendered s).
Proof.
  intros H. open_state s. unfold ready, equipped in H. simpl in H.
  destruct isActive0, hidden0, camera0 as [c|], scene0, renderer0 as [r|];
    try discriminate.
  destruct particles0; repeat split; reflexivity.
Qed.

Lemma ticks_ready ts n : forall s,
  ready s = true ->
  ready (ticks ts n s) = true /\
  config (bg (ticks ts n s)) = config (bg s) /\
  mouse (bg (ticks ts n s)) = mouse (bg s).
Proof.
  induction n as [|n IH]; intros s H; [repeat split; auto|].
  destruct (IH s H) as (Hr & Hc & Hm). simpl.
  destruct (tick_ready (ts n) _ Hr) as (A & B & C & _).
  rewrite B, C. auto.
Qed.

(** C3. On a controller that is ready (active, visible, with camera,
    scene and renderer), every tick moves the camera by
    x := x + (mouse.x * 2 - x) * mouseEffect, likewise y, and aims it
    at the origin.  With the pointer left where it is and mouseEffect
    strictly between 0 and 1, each camera coordinate is monotone over
    the ticks and converges to twice the pointer coordinate. *)
Theorem C3_camera_easing (s : St) (ts : nat -> R) :
  ready s = true ->
  0 < mouseEffect (config (bg s)) < 1 ->
  let k := mouseEffect (config (bg s)) in
  let px := x2 (mouse (bg s)) in
  let py := y2 (mouse (bg s)) in
  let X n := vx (camera_position (ticks ts n s)) in
  let Y n := vy (camera_position (ticks ts n s)) in
  (forall n, X (S n) = X n + (px * 2 - X n) * k /\
             Y (S n) = Y n + (py * 2 - Y n) * k /\
             camera_aim (ticks ts (S n) s) = Some origin) /\
  ((forall n, X n <= X (S n)) \/ (forall n, X (S n) <= X n)) /\
  ((forall n, Y n <= Y (S n)) \/ (forall n, Y (S n) <= Y n)) /\
  Un_cv X (px * 2) /\ Un_cv Y (py * 2).
Proof.
  intros Hr Hk k px py X Y.
  assert (Hstep : forall n, X (S n) = X n + (px * 2 - X n) * k /\
                            Y (S n) = Y n + (py * 2 - Y n) * k /\
                            camera_aim (ticks ts (S n) s) = Some origin).
  { intros n. destruct (ticks_ready ts n s Hr) as (Hn & Hc & Hm).
    destruct (tick_ready (ts n) _ Hn) as (_ & _ & _ & Hp & Ha & _).
    unfold X, Y, k, px, py. simpl ticks. rewrite Hp, Ha, Hc, Hm. simpl. auto. }
  split; [exact Hstep|].
  assert (HX : forall n, X (S n) = X n + (px * 2 - X n) * k) by (intros n; apply Hstep).
  assert (HY : forall n, Y (S n) = Y n + (py * 2 - Y n) * k) by (intros n; apply Hstep).
  split; [apply (ease_monotone X (px * 2) k Hk HX)|].
  split; [apply (ease_monotone Y (py * 2) k Hk HY)|].
  split; [apply (ease_converges X (px * 2) k Hk HX)|apply (ease_converges Y (py * 2) k Hk HY)].
Qed.

Lemma C3_camera_easing_witness :
  Un_cv (fun n => vx (camera_position
                        (ticks (fun i => INR i) n (construct small_config sample_host))))
        (x2 (mouse (bg (construct small_config sample_host))) * 2).
Proof.
  apply (C3_camera_easing (construct small_config sample_host) (fun i => INR i)).
  - reflexivity.
  - rewrite construct_ok by reflexivity. rewrite built_config. simpl. lra.
Defined.

(** *** Solids *)

Lemma animate_geometries s :
  geometries (bg (run animate s))
  = if isActive (bg s) && negb (hidden (host s))
    then map (animate_mesh (config (bg s)) (elapsed_ms (now (host s)) (clock (bg s))))
             (geometries (bg s))
    else geometries (bg s).
Proof.
  open_state s.
  destruct isActive0, hidden0, particles0, camera0, scene0, renderer0; reflexivity.
Qed.

Lemma band_kept : kept (fun b => Forall in_band (geometries b)).
Proof.
  intros s Hs. split; [|split; [|intros x y]].
  - destruct (animate_keeps s) as (_ & _ & _ & _ & _ & [-> | ->]); [exact Hs|].
    apply Forall_map, Forall_true. intros m. apply in_band_animate.
  - destruct (onWindowResize_keeps s) as (_ & _ & _ & ->). exact Hs.
  - destruct (onMouseMove_keeps x y s) as (_ & _ & _ & ->). exact Hs.
Qed.

Lemma fresh_meshes_band h : Forall in_band (fresh_meshes geometryKinds 0 h).
Proof. repeat constructor; unfold in_band; simpl; lra. Qed.

Lemma construct_cases cfg h :
  construct cfg h = built cfg h /\ webgl h = true /\
    (fault h = None \/ fault h = Some AtClock) \/
  geometries (bg (construct cfg h)) = [] /\ particles (bg (construct cfg h)) = None \/
  geometries (bg (construct cfg h)) = [] /\ fault h = Some AtSolids.
Proof.
  destruct (fails_before_attach h) eqn:He.
  - right. left. destruct (construct_early_fault cfg h He) as (_ & _ & A & B & _). auto.
  - unfold fails_before_attach in He. destruct (webgl h) eqn:Hw; [|discriminate].
    destruct (fault h) as [[]|] eqn:Hf; simpl in He; try discriminate.
    + left. split; [apply construct_clock_fault; assumption|auto].
    + right. left. rewrite construct_particle_fault by assumption. split; reflexivity.
    + right. right. rewrite construct_solid_fault by assumption. split; reflexivity.
    + left. split; [apply construct_ok; assumption|auto].
Qed.

Lemma construct_band cfg h : Forall in_band (geometries (bg (construct cfg h))).
Proof.
  destruct (construct_cases cfg h) as [(-> & _)|[(-> & _)|(-> & _)]];
    try apply Forall_nil_2.
  destruct (built_cases cfg h) as [[-> _]|[-> _]].
  - apply fresh_meshes_band.
  - rewrite advance_geometries. apply Forall_map, Forall_true.
    intros m. apply in_band_animate.
Qed.

(** C4. Whatever events were delivered to a controller since its
    construction, every solid sits within 1.5 of its initial vertical
    offset; and a tick at time [t] either sets every solid to
    initialY + 1.5 * sin(elapsed * speed + offset), with [elapsed] the
    milliseconds the clock reports (controller active, document
    visible), or leaves the solids as they are. *)
Theorem C4_oscillation_band (cfg : SceneConfig) (h : Host) (es : list Event) (t : R) :
  let s := deliver_all es (construct cfg h) in
  Forall in_band (geometries (bg s)) /\
  Forall in_band (geometries (bg (tick t s))) /\
  if isActive (bg s) && negb (hidden (host s))
  then Forall (floats_at (elapsed_ms t (clock (bg s)))) (geometries (bg (tick t s)))
  else geometries (bg (tick t s)) = geometries (bg s).
Proof.
  intros s.
  assert (Hs : Forall in_band (geometries (bg s))).
  { apply (deliver_all_kept _ band_kept). apply construct_band. }
  split; [exact Hs|]. split.
  - unfold tick. apply band_kept. exact Hs.
  - unfold tick. rewrite animate_geometries. simpl.
    destruct (isActive (bg s) && negb (hidden (host s))); [|reflexivity].
    apply Forall_map, Forall_true. intros m. apply floats_at_animate.
Qed.

(** *** The particle field and the number of solids *)

Lemma layout_kept ps sc ks :
  kept (fun b => option_map positions (particles b) = ps /\
                 option_map scales (particles b) = sc /\
                 map kind (geometries b) = ks).
Proof.
  intros s (H1 & H2 & H3). split; [|split; [|intros x y]].
  - destruct (animate_keeps s) as (_ & _ & _ & -> & -> & [-> | ->]);
      rewrite ?map_kind_animate; auto.
  - destruct (onWindowResize_keeps s) as (_ & _ & -> & ->). auto.
  - destruct (onMouseMove_keeps x y s) as (_ & _ & -> & ->). auto.
Qed.

(** What [createParticles] leaves in a controller built without
    failure: particle [i] holds the single-precision roundings of
    (r - 0.5) * 50 for draws 4i, 4i+1, 4i+2 and of draw 4i+3 as its
    scale, counted from the first draw of the construction. *)
Lemma built_field cfg h :
  exists p, particles (bg (built cfg h)) = Some p /\
    length (positions p) = (particleCount cfg * 3)%nat /\
    length (scales p) = particleCount cfg /\
    forall i, (i < particleCount cfg)%nat ->
      let k := (rngPos h + 4 * i)%nat in
      positions p !! (i * 3)%nat
        = Some (Float32.fround ((rand h k - 0.5) * 50)) /\
      positions p !! (i * 3 + 1)%nat
        = Some (Float32.fround ((rand h (k + 1) - 0.5) * 50)) /\
      positions p !! (i * 3 + 2)%nat
        = Some (Float32.fround ((rand h (k + 2) - 0.5) * 50)) /\
      scales p !! i = Some (Float32.fround (rand h (k + 3))).
Proof.
  destruct (built_particles cfg h) as (p & Hp & Hpos & Hscl).
  exists p. split; [exact Hp|]. rewrite Hpos, Hscl.
  match goal with |- context [particles_loop ?n ?i ?a ?b ?c] =>
    destruct (particles_loop_length n i a b c) as [L1 L2] end.
  rewrite L1, L2, !length_replicate. split; [reflexivity|]. split; [reflexivity|].
  intros i Hi.
  apply (particles_loop_content (particleCount cfg) 0
           (replicate (particleCount cfg * 3) 0) (replicate (particleCount cfg) 0)
           (host (after_attach cfg h))).
  - rewrite length_replicate. lia.
  - rewrite length_replicate. lia.
  - exact Hi.
Qed.

Lemma built_field_sampled cfg h :
  (forall k, in_unit (rand h k)) ->
  exists p, particles (bg (built cfg h)) = Some p /\
    length (positions p) = (particleCount cfg * 3)%nat /\
    Forall (fun x => in_cube x /\ coordinate_sampled h x) (positions p) /\
    length (scales p) = particleCount cfg /\
    Forall (fun x => in_unit_closed x /\ scale_sampled h x) (scales p).
Proof.
  intros Hr. destruct (built_field cfg h) as (p & Hp & Lp & Ls & Hc).
  exists p. split; [exact Hp|]. split; [exact Lp|]. split; [|split; [exact Ls|]].
  - apply Forall_lookup. intros j x Hj.
    assert (Hlt : (j < particleCount cfg * 3)%nat).
    { rewrite <- Lp. apply lookup_lt_is_Some. eauto. }
    pose proof (Nat.div_mod_eq j 3) as Hd.
    pose proof (Nat.mod_upper_bound j 3 ltac:(lia)) as Hm.
    set (i := (j / 3)%nat) in *. set (r := (j mod 3)%nat) in *.
    assert (Hi : (i < particleCount cfg)%nat) by lia.
    destruct (Hc i Hi) as (A & B & C & _).
    assert (Hx : exists k, x = Float32.fround ((rand h k - 0.5) * 50)).
    { destruct r as [|[|[|r]]]; [| | |lia].
      - replace j with (i * 3)%nat in Hj by lia. rewrite A in Hj.
        injection Hj as <-. eauto.
      - replace j with (i * 3 + 1)%nat in Hj by lia. rewrite B in Hj.
        injection Hj as <-. eauto.
      - replace j with (i * 3 + 2)%nat in Hj by lia. rewrite C in Hj.
        injection Hj as <-. eauto. }
    destruct Hx as (k & ->). split; [apply cube_sample, Hr|].
    exists k. apply coordinate_near, Hr.
  - apply Forall_lookup. intros j x Hj.
    assert (Hlt : (j < particleCount cfg)%nat).
    { rewrite <- Ls. apply lookup_lt_is_Some. eauto. }
    destruct (Hc j Hlt) as (_ & _ & _ & D). rewrite D in Hj. injection Hj as <-.
    split; [apply unit_sample, Hr|]. eexists. reflexivity.
Qed.

(** C8 (amended).  After a construction that meets no failure, with
    every random draw in [0,1), the particle field has
    particleCount * 3 position coordinates and particleCount scale
    factors.  Both arrays hold single-precision numbers: each
    coordinate is (r - 0.5) * 50 for a draw r of the script, up to the
    rounding of the store (less than one millionth), and lies in the
    closed cube [-25, 25]; each scale factor is the rounding of a draw
    and lies in the closed interval [0, 1].  There is one solid per
    geometry kind.  No delivery of frames, resizes, pointer moves or
    visibility changes alters the position array, the scale array, or
    the list of solids' kinds (so neither length ever changes). *)
Theorem C8_particle_field_fixed (cfg : SceneConfig) (h : Host) :
  (webgl h = true -> fault h = None -> (forall k, in_unit (rand h k)) ->
   exists p, particles (bg (construct cfg h)) = Some p /\
     length (positions p) = (particleCount cfg * 3)%nat /\
     Forall (fun x => in_cube x /\ coordinate_sampled h x) (positions p) /\
     length (scales p) = particleCount cfg /\
     Forall (fun x => in_unit_closed x /\ scale_sampled h x) (scales p) /\
     map kind (geometries (bg (construct cfg h))) = geometryKinds) /\
  (forall es,
     let s := construct cfg h in
     let s' := deliver_all es s in
     option_map positions (particles (bg s')) = option_map positions (particles (bg s)) /\
     option_map scales (particles (bg s')) = option_map scales (particles (bg s)) /\
     map kind (geometries (bg s')) = map kind (geometries (bg s)) /\
     length (geometries (bg s')) = length (geometries (bg s))).
Proof.
  split.
  - intros Hw Hf Hr. rewrite construct_ok by assumption.
    destruct (built_field_sampled cfg h Hr) as (p & Hp & A & B & C & D).
    exists p. repeat split; auto. apply built_kinds.
  - intros es s s'.
    pose proof (deliver_all_kept _ (layout_kept _ _ _) es s
                  (conj eq_refl (conj eq_refl eq_refl))) as (A & B & C).
    fold s' in A, B, C. repeat split; auto.
    rewrite <- (length_map kind (geometries (bg s'))), C. apply length_map.
Qed.

Lemma sample_host_unit : forall k, in_unit (rand sample_host k).
Proof. intros k. unfold in_unit. simpl. lra. Qed.

Lemma C8_particle_field_fixed_witness :
  exists p, particles (bg (construct small_config sample_host)) = Some p /\
    length (positions p) = 30%nat /\
    Forall (fun x => in_cube x /\ coordinate_sampled sample_host x) (positions p) /\
    length (scales p) = 10%nat /\
    Forall (fun x => in_unit_closed x /\ scale_sampled sample_host x) (scales p) /\
    map kind (geometries (bg (construct small_config sample_host))) = geometryKinds.
Proof.
  destruct (C8_particle_field_fixed small_config sample_host) as [A _].
  apply A; [reflexivity|reflexivity|exact sample_host_unit].
Defined.

Lemma high_draw_host_unit : forall k, in_unit (rand high_draw_host k).
Proof. intros k. unfold in_unit. simpl. lra. Qed.

(** C8 as stated fails: a draw just below one is in [0,1), but the
    scale array holds single-precision numbers and the draw is stored
    as exactly one. *)
Lemma C8_counterexample :
  webgl high_draw_host = true /\ fault high_draw_host = None /\
  (forall k, in_unit (rand high_draw_host k)) /\
  ~ field_as_specified small_config high_draw_host.
Proof.
  split; [reflexivity|]. split; [reflexivity|]. split; [exact high_draw_host_unit|].
  unfold field_as_specified. rewrite construct_ok by reflexivity.
  intros (p & Hp & _ & Hs).
  destruct (built_field small_config high_draw_host) as (q & Hq & _ & _ & Hc).
  rewrite Hq in Hp. injection Hp as ->.
  destruct (Hc 0%nat ltac:(simpl; lia)) as (_ & _ & _ & D).
  pose proof (proj1 (Forall_lookup _ _) Hs 0%nat _ D) as H1.
  change (rand high_draw_host (rngPos high_draw_host + 4 * 0 + 3))
    with (1 - / 2 ^ 30) in H1.
  rewrite Float32Proofs.fround_high in H1. unfold in_unit in H1. lra.
Qed.

(** *** Rotation axes *)

Lemma fresh_meshes_axes h :
  Forall (fun m => rotationAxis (userData m)
                   = normalize (axis_sample h (rngPos h) (mesh_index m)))
         (fresh_meshes geometryKinds 0 h).
Proof.
  repeat constructor; simpl; unfold axis_sample; simpl;
    repeat (f_equal; try lia).
Qed.

Lemma built_axes cfg h :
  Forall (fun m => rotationAxis (userData m)
                   = normalize (axis_sample h (rngPos h + 4 * particleCount cfg)
                                  (mesh_index m)))
         (geometries (bg (built cfg h))).
Proof.
  pose proof (fresh_meshes_axes
                (set_rngPos (rngPos h + 4 * particleCount cfg) (host (after_attach cfg h))))
    as H.
  destruct (built_cases cfg h) as [[-> _]|[-> _]].
  - exact H.
  - rewrite advance_geometries, s0_geometries. apply Forall_map.
    eapply Forall_impl; [exact H|]. intros m Hm. exact Hm.
Qed.

Lemma animate_rotates cfg t l :
  Forall2 (rotated_once (rotationSpeed cfg)) l (map (animate_mesh cfg t) l).
Proof.
  induction l as [|m l IH]; constructor; [split; reflexivity|exact IH].
Qed.

(** C9 (amended).  Every solid of a controller built without failure
    has as rotation axis the normalised vector of its three sampled
    components, and that axis has length 1 unless the three components
    are all zero (all three draws exactly one half), in which case the
    axis is the zero vector.  A tick of an active controller in a
    visible document leaves every solid's user data (the axis included)
    as it is and issues exactly one rotation about that axis by
    config.rotationSpeed. *)
Theorem C9_rotation_axis (cfg : SceneConfig) (h : Host) :
  (webgl h = true -> fault h = None ->
   Forall (fun m =>
             let v := axis_sample h (rngPos h + 4 * particleCount cfg) (mesh_index m) in
             rotationAxis (userData m) = normalize v /\
             (v3_length (rotationAxis (userData m)) = 1 \/
              v = origin /\ rotationAxis (userData m) = origin))
          (geometries (bg (construct cfg h)))) /\
  (forall s t, isActive (bg s) = true -> hidden (host s) = false ->
     Forall2 (rotated_once (rotationSpeed (config (bg s))))
             (geometries (bg s)) (geometries (bg (tick t s)))).
Proof.
  split.
  - intros Hw Hf. rewrite construct_ok by assumption.
    eapply Forall_impl; [apply built_axes|]. intros m Hm. cbv zeta.
    split; [exact Hm|]. rewrite Hm.
    destruct (normalize_unit_or_origin
                (axis_sample h (rngPos h + 4 * particleCount cfg) (mesh_index m)))
      as [H1|H0]; [left; exact H1|right].
    split; [exact H0|]. rewrite H0. apply normalize_origin.
  - intros s t Ha Hh. unfold tick. rewrite animate_geometries. simpl.
    rewrite Ha, Hh. simpl. apply animate_rotates.
Qed.

Lemma C9_rotation_axis_witness :
  Forall2 (rotated_once (rotationSpeed small_config))
          (geometries (bg (construct small_config sample_host)))
          (geometries (bg (tick 16 (construct small_config sample_host)))).
Proof.
  rewrite <- (built_config small_config sample_host) at 1.
  rewrite <- (construct_ok small_config sample_host) by reflexivity.
  apply (C9_rotation_axis small_config sample_host); reflexivity.
Defined.

(** C9 as stated fails: with every draw equal to one half, which lies
    in [0,1), the three sampled components of an axis are zero,
    normalisation leaves the zero vector, and its length is 0, not 1. *)
Lemma C9_counterexample :
  (forall k, in_unit (rand sample_host k)) /\ ~ axes_unit small_config sample_host.
Proof.
  split; [exact sample_host_unit|]. unfold axes_unit. intros H.
  rewrite construct_ok in H by reflexivity.
  pose proof (built_axes small_config sample_host) as Ha.
  pose proof (built_kinds small_config sample_host) as Hk.
  destruct (geometries (bg (built small_config sample_host))) as [|m ms];
    [discriminate Hk|].
  apply Forall_inv in H. apply Forall_inv in Ha. rewrite Ha in H.
  assert (E : axis_sample sample_host
                (rngPos sample_host + 4 * particleCount small_config) (mesh_index m)
              = origin).
  { unfold axis_sample, origin. simpl. f_equal; lra. }
  rewrite E, normalize_origin, v3_length_origin in H. lra.
Qed.

End SceneProofs.

(** ** Properties of the contact form *)
Module FormProofs.
Import Js Contact.

(** *** Derivatives decide the language *)

Lemma matches_Void_inv s : matches Void s -> False.
Proof. inversion 1. Qed.

Lemma matches_Eps_inv s : matches Eps s -> s = [].
Proof. inversion 1. reflexivity. Qed.

Lemma matches_Class_inv p s : matches (Class p) s -> exists c, s = [c] /\ p c = true.
Proof. inversion 1; subst. eauto. Qed.

Lemma matches_Cat_inv r1 r2 s :
  matches (Cat r1 r2) s -> exists s1 s2, s = s1 ++ s2 /\ matches r1 s1 /\ matches r2 s2.
Proof. inversion 1; subst. eauto. Qed.

Lemma matches_Alt_inv r1 r2 s : matches (Alt r1 r2) s -> matches r1 s \/ matches r2 s.
Proof. inversion 1; subst; auto. Qed.

Lemma matches_Star_cons r c s :
  matches (Star r) (c :: s) ->
  exists s1 s2, s = s1 ++ s2 /\ matches r (c :: s1) /\ matches (Star r) s2.
Proof.
  intros H. remember (Star r) as r' eqn:Er. remember (c :: s) as cs eqn:Es.
  revert c s Es. induction H; intros c0 s0 Es; try discriminate.
  injection Er as ->. destruct s1 as [|a s1].
  - simpl in Es. apply IHmatches2; auto.
  - simpl in Es. injection Es as -> <-. eauto.
Qed.

Lemma nullable_spec r : nullable r = true <-> matches r [].
Proof.
  induction r as [| |p|r1 IH1 r2 IH2|r1 IH1 r2 IH2|r IH]; simpl.
  - split; [discriminate|intros H; destruct (matches_Void_inv _ H)].
  - split; [constructor|reflexivity].
  - split; [discriminate|].
    intros H. apply matches_Class_inv in H as (c & E & _). discriminate.
  - rewrite andb_true_iff, IH1, IH2. split.
    + intros [H1 H2]. change (@nil N) with (@nil N ++ []). constructor; assumption.
    + intros H. apply matches_Cat_inv in H as (s1 & s2 & E & H1 & H2).
      symmetry in E. apply app_eq_nil in E as [-> ->]. auto.
  - rewrite orb_true_iff, IH1, IH2. split.
    + intros [H|H]; [apply MAltL|apply MAltR]; assumption.
    + apply matches_Alt_inv.
  - split; [constructor|reflexivity].
Qed.

Lemma deriv_spec r : forall c s, matches (deriv c r) s <-> matches r (c :: s).
Proof.
  induction r as [| |p|r1 IH1 r2 IH2|r1 IH1 r2 IH2|r IH]; intros c s; simpl.
  - split; intros H; destruct (matches_Void_inv _ H).
  - split; intros H; [destruct (matches_Void_inv _ H)|].
    apply matches_Eps_inv in H. discriminate.
  - destruct (p c) eqn:Ep; split; intros H.
    + apply matches_Eps_inv in H as ->. constructor. exact Ep.
    + apply matches_Class_inv in H as (c' & E & _). injection E as -> ->. constructor.
    + destruct (matches_Void_inv _ H).
    + apply matches_Class_inv in H as (c' & E & Hp). injection E as -> ->. congruence.
  - assert (Hcat : matches (Cat (deriv c r1) r2) s ->  matches (Cat r1 r2) (c :: s)).
    { intros H. apply matches_Cat_inv in H as (s1 & s2 & -> & H1 & H2).
      change (c :: s1 ++ s2) with ((c :: s1) ++ s2). constructor; [apply IH1|]; assumption. }
    destruct (nullable r1) eqn:En; split; intros H.
    + apply matches_Alt_inv in H as [H|H]; [auto|].
      change (c :: s) with ([] ++ c :: s). constructor; [apply nullable_spec, En|apply IH2, H].
    + apply matches_Cat_inv in H as (s1 & s2 & E & H1 & H2). destruct s1 as [|a s1].
      * simpl in E. subst s2. apply MAltR, IH2, H2.
      * simpl in E. injection E as -> ->. apply MAltL. constructor; [apply IH1|]; assumption.
    + auto.
    + apply matches_Cat_inv in H as (s1 & s2 & E & H1 & H2). destruct s1 as [|a s1].
      * apply nullable_spec in H1. congruence.
      * simpl in E. injection E as -> ->. constructor; [apply IH1|]; assumption.
  - split; intros H.
    + apply matches_Alt_inv in H as [H|H]; [apply MAltL, IH1|apply MAltR, IH2]; assumption.
    + apply matches_Alt_inv in H as [H|H]; [apply MAltL, IH1|apply MAltR, IH2]; assumption.
  - split; intros H.
    + apply matches_Cat_inv in H as (s1 & s2 & -> & H1 & H2).
      change (c :: s1 ++ s2) with ((c :: s1) ++ s2). constructor; [apply IH|]; assumption.
    + apply matches_Star_cons in H as (s1 & s2 & -> & H1 & H2).
      constructor; [apply IH|]; assumption.
Qed.

Lemma test_anchored_spec s : forall r, test_anchored r s = true <-> matches r s.
Proof.
  unfold test_anchored. induction s as [|c s IH]; intros r; simpl.
  - apply nullable_spec.
  - rewrite IH. apply deriv_spec.
Qed.

(** *** The email expression *)

Lemma not_space_at_spec c : not_space_at c = true <-> part_char c.
Proof.
  unfold not_space_at, part_char.
  rewrite andb_true_iff, !negb_true_iff, N.eqb_neq. reflexivity.
Qed.

Lemma matches_star_class p s :
  matches (Star (Class p)) s <-> Forall (fun c => p c = true) s.
Proof.
  split.
  - induction s as [|c s IH]; intros H; [constructor|].
    apply matches_Star_cons in H as (s1 & s2 & -> & H1 & H2).
    apply matches_Class_inv in H1 as (c' & E & Hp). injection E as <- ->.
    constructor; [exact Hp|apply IH, H2].
  - induction 1 as [|c s Hc _ IH]; [constructor|].
    change (c :: s) with ([c] ++ s). constructor; [constructor; exact Hc|exact IH].
Qed.

Lemma matches_plus_class p s :
  matches (Plus (Class p)) s <-> s <> [] /\ Forall (fun c => p c = true) s.
Proof.
  unfold Plus. split.
  - intros H. apply matches_Cat_inv in H as (s1 & s2 & -> & H1 & H2).
    apply matches_Class_inv in H1 as (c & -> & Hp). apply matches_star_class in H2.
    split; [discriminate|constructor; assumption].
  - intros [Hne H]. destruct H as [|c s Hc Hs]; [congruence|].
    change (c :: s) with ([c] ++ s).
    constructor; [constructor; exact Hc|apply matches_star_class, Hs].
Qed.

Lemma matches_part s :
  matches (Plus (Class not_space_at)) s <-> s <> [] /\ Forall part_char s.
Proof.
  rewrite matches_plus_class. split; intros [H1 H2]; (split; [exact H1|]);
    (eapply Forall_impl; [exact H2|]); intros c Hc; apply not_space_at_spec, Hc.
Qed.

Lemma matches_Chr c s : matches (Chr c) s <-> s = [c].
Proof.
  unfold Chr. split.
  - intros H. apply matches_Class_inv in H as (c' & -> & E).
    apply N.eqb_eq in E. subst. reflexivity.
  - intros ->. constructor. apply N.eqb_refl.
Qed.

Lemma emailRegex_spec s : test_anchored emailRegex s = true <-> email_shape s.
Proof.
  rewrite test_anchored_spec. unfold emailRegex, email_shape. split.
  - intros H.
    apply matches_Cat_inv in H as (l & s1 & -> & Hl & H).
    apply matches_Cat_inv in H as (a & s2 & -> & Ha & H).
    apply matches_Cat_inv in H as (d & s3 & -> & Hd & H).
    apply matches_Cat_inv in H as (o & t & -> & Ho & Ht).
    apply matches_Chr in Ha as ->. apply matches_Chr in Ho as ->.
    apply matches_part in Hl as [? ?]. apply matches_part in Hd as [? ?].
    apply matches_part in Ht as [? ?].
    exists l, d, t. repeat split; auto.
  - intros (l & d & t & -> & Hl & Hd & Ht & Fl & Fd & Ft).
    constructor; [apply matches_part; auto|].
    constructor; [apply matches_Chr; reflexivity|].
    constructor; [apply matches_part; auto|].
    constructor; [apply matches_Chr; reflexivity|].
    apply matches_part; auto.
Qed.

(** *** Fields *)

Lemma get_set_field k x f : get_field k (set_field k x f) = x.
Proof. destruct k; reflexivity. Qed.

Lemma validateField_result k f :
  fst (validateField k f)
  = fst (check (name (get_field k f)) (trim (value (get_field k f)))).
Proof. unfold validateField. destruct (check _ _). reflexivity. Qed.

Lemma validateField_field k f :
  get_field k (snd (validateField k f))
  = setFieldStatus (get_field k f)
      (fst (check (name (get_field k f)) (trim (value (get_field k f)))))
      (snd (check (name (get_field k f)) (trim (value (get_field k f))))).
Proof. unfold validateField. destruct (check _ _). simpl. apply get_set_field. Qed.

Lemma check_name v : fst (check "name" v) = true <-> (2 <= length v)%nat.
Proof.
  unfold check. simpl. destruct (length v <? 2)%nat eqn:E; simpl.
  - apply Nat.ltb_lt in E. split; [discriminate|lia].
  - apply Nat.ltb_ge in E. split; auto.
Qed.

Lemma check_message v : fst (check "message" v) = true <-> (10 <= length v)%nat.
Proof.
  unfold check. simpl. destruct (length v <? 10)%nat eqn:E; simpl.
  - apply Nat.ltb_lt in E. split; [discriminate|lia].
  - apply Nat.ltb_ge in E. split; auto.
Qed.

Lemma check_email v : fst (check "email" v) = true <-> email_shape v.
Proof.
  unfold check. simpl. rewrite <- emailRegex_spec.
  destruct (test_anchored emailRegex v); simpl; split; auto.
Qed.

Lemma check_invalid n v :
  fst (check n v) = false ->
  snd (check n v) <> "" /\
  (n = "name" -> snd (check n v) = msg_name) /\
  (n = "email" -> snd (check n v) = msg_email) /\
  (n = "message" -> snd (check n v) = msg_message).
Proof.
  unfold check.
  destruct (String.eqb n "name") eqn:E1.
  { apply String.eqb_eq in E1 as ->.
    destruct (length v <? 2)%nat; simpl; [|discriminate].
    intros _. repeat split; try discriminate. }
  destruct (String.eqb n "email") eqn:E2.
  { apply String.eqb_eq in E2 as ->.
    destruct (test_anchored emailRegex v); simpl; [discriminate|].
    intros _. repeat split; try discriminate. }
  destruct (String.eqb n "message") eqn:E3.
  { apply String.eqb_eq in E3 as ->.
    destruct (length v <? 10)%nat; simpl; [|discriminate].
    intros _. repeat split; try discriminate. }
  simpl. discriminate.
Qed.

(** C5 (amended).  Whether a field is valid is a function of its name
    and its trimmed value alone.  A field named "name" is valid exactly
    when the trimmed value has at least 2 code units, one named
    "message" exactly when it has at least 10, one named "email"
    exactly when the trimmed value is local@domain.tld with the three
    parts nonempty and free of white space and of [@].  An invalid field
    gets the error class and a nonempty error text, which is the message
    of its kind. *)
Theorem C5_field_validation (k : FieldKey) (f : ContactForm) :
  let x := get_field k f in
  let v := trim (value x) in
  let valid := fst (validateField k f) in
  let x' := get_field k (snd (validateField k f)) in
  valid = fst (check (name x) v) /\
  (name x = "name" -> (valid = true <-> (2 <= length v)%nat)) /\
  (name x = "message" -> (valid = true <-> (10 <= length v)%nat)) /\
  (name x = "email" -> (valid = true <-> email_shape v)) /\
  (valid = false ->
   errorText (group x') <> "" /\
   "error" ∈ classList (group x') /\
   (name x = "name" -> errorText (group x') = msg_name) /\
   (name x = "email" -> errorText (group x') = msg_email) /\
   (name x = "message" -> errorText (group x') = msg_message)).
Proof.
  intros x v valid x'. subst valid x'.
  rewrite validateField_result, validateField_field. fold x. fold v.
  split; [reflexivity|].
  split; [intros ->; apply check_name|].
  split; [intros ->; apply check_message|].
  split; [intros ->; apply check_email|].
  intros Hv. destruct (check_invalid _ _ Hv) as (Hne & H1 & H2 & H3).
  rewrite Hv. unfold setFieldStatus. simpl.
  split; [exact Hne|]. split; [set_solver|]. auto.
Qed.

Lemma C5_field_validation_witness :
  fst (validateField KName good_form) = true /\
  errorText (group (field_name (snd (validateField KName bad_form)))) = msg_name.
Proof.
  split.
  - destruct (C5_field_validation KName good_form) as (_ & Hn & _).
    apply Hn; [reflexivity|]. vm_compute. lia.
  - destruct (C5_field_validation KName bad_form) as (_ & _ & _ & _ & Hinv).
    destruct Hinv as (_ & _ & Hm & _); [reflexivity|]. apply Hm. reflexivity.
Defined.

(** C5 as stated fails when only the local part is constrained: the
    trimmed value a@b c.d has a nonempty local part without white space
    or [@], an [@], a nonempty domain, a dot and a nonempty tld, and the
    field is invalid. *)
Lemma C5_counterexample :
  ~ (fst (validateField KEmail odd_email_form) = true <->
     email_shape_loose (trim (value (field_email odd_email_form)))).
Proof.
  intros [_ H].
  assert (E : fst (validateField KEmail odd_email_form) = true).
  { apply H. exists [97%N], [98%N; 32%N; 99%N], [100%N].
    split; [reflexivity|]. split; [discriminate|].
    split; [repeat constructor; discriminate|]. split; discriminate. }
  rewrite validateField_result in E. vm_compute in E. discriminate.
Qed.

(** *** The submission flag *)

Lemma set_field_flags k x f : flags (set_field k x f) = flags f.
Proof. destruct k; reflexivity. Qed.

Lemma validateField_flags k f : flags (snd (validateField k f)) = flags f.
Proof.
  unfold validateField. destruct (check _ _). simpl. apply set_field_flags.
Qed.

Lemma every_valid_flags ks : forall f, flags (snd (every_valid ks f)) = flags f.
Proof.
  induction ks as [|k ks IH]; intros f; [reflexivity|]. simpl.
  pose proof (validateField_flags k f) as Hk.
  destruct (validateField k f) as [ok f']. simpl in Hk.
  destruct ok; [rewrite IH|]; exact Hk.
Qed.

Lemma clearError_flags k f : flags (clearError k f) = flags f.
Proof. unfold clearError. apply set_field_flags. Qed.

Lemma form_reset_flags f : flags (form_reset f) = flags f.
Proof. reflexivity. Qed.

Lemma clear_all_flags f :
  flags (fold_left (fun f k => clear_status k f) field_keys f) = flags f.
Proof. reflexivity. Qed.

Lemma handleSubmit_busy f : isSubmitting f = true -> handleSubmit f = f.
Proof. intros H. unfold handleSubmit. rewrite H. reflexivity. Qed.

Lemma handleSubmit_idle f :
  idle f ->
  idle (handleSubmit f) /\ fst (every_valid field_keys (setLoading true f)) = false \/
  in_flight (handleSubmit f) /\ fst (every_valid field_keys (setLoading true f)) = true.
Proof.
  intros (Hs & Hb & Hp). unfold handleSubmit. rewrite Hs.
  pose proof (every_valid_flags field_keys (setLoading true f)) as Hf.
  destruct (every_valid field_keys (setLoading true f)) as [ok f'].
  unfold flags in Hf. simpl in Hf. injection Hf as H1 H2 H3. destruct ok; simpl.
  - right. split; [|reflexivity]. unfold in_flight. simpl. rewrite H1, H2.
    split; [reflexivity|]. split; [reflexivity|discriminate].
  - left. split; [|reflexivity]. unfold idle. simpl. rewrite H3. auto.
Qed.

Lemma submit_settled_idle f : in_flight f -> idle (submit_settled f).
Proof.
  intros (_ & _ & Hp). unfold submit_settled.
  destruct (pending f) as [d|]; [|congruence].
  repeat split.
Qed.

Lemma deliver_guard e f :
  (idle f -> idle (deliver e f) \/ in_flight (deliver e f)) /\
  (in_flight f -> idle (deliver e f) \/ in_flight (deliver e f)).
Proof.
  assert (Hfl : forall g, flags g = flags f ->
                  (idle f -> idle g) /\ (in_flight f -> in_flight g)).
  { intros g E. unfold flags in E. injection E as E1 E2 E3. unfold idle, in_flight.
    rewrite E1, E2, E3. auto. }
  destruct e as [|k|k v|]; simpl.
  - split.
    + intros H. destruct (handleSubmit_idle f H) as [[A _]|[A _]]; auto.
    + intros H. rewrite handleSubmit_busy by apply H. auto.
  - destruct (Hfl _ (validateField_flags k f)) as [A B]. split; auto.
  - assert (E : flags (clearError k (set_field k (set_value v (get_field k f)) f))
                = flags f) by (rewrite clearError_flags; apply set_field_flags).
    destruct (Hfl _ E) as [A B]. split; auto.
  - split.
    + intros (Hs & Hb & Hp). unfold submit_settled. rewrite Hp. left. repeat split; auto.
    + intros H. left. apply submit_settled_idle, H.
Qed.

Lemma deliver_all_guard es : forall f,
  idle f \/ in_flight f -> idle (deliver_all es f) \/ in_flight (deliver_all es f).
Proof.
  induction es as [|e es IH]; intros f H; [exact H|].
  simpl. apply IH. destruct (deliver_guard e f) as [A B]. destruct H; auto.
Qed.

(** C10. While a submission is in flight (flag set, button disabled) a
    submit event leaves the form exactly as it is.  A submit event on
    an idle form either fails validation and leaves the form idle again
    (flag cleared, button enabled), or starts a submission (flag set,
    button disabled, the data pending); when the pending submission
    settles the form is idle again.  Whatever events arrive, a form that
    starts idle is always either idle or has a submission in flight. *)
Theorem C10_submit_guard (f : ContactForm) :
  (isSubmitting f = true -> deliver Submit f = f) /\
  (idle f ->
   idle (deliver Submit f) /\ fst (every_valid field_keys (setLoading true f)) = false \/
   in_flight (deliver Submit f) /\ fst (every_valid field_keys (setLoading true f)) = true) /\
  (in_flight f -> idle (deliver Settled f)) /\
  (idle f -> forall es, idle (deliver_all es f) \/ in_flight (deliver_all es f)).
Proof.
  split; [apply handleSubmit_busy|]. split; [apply handleSubmit_idle|].
  split; [apply submit_settled_idle|].
  intros H es. apply deliver_all_guard. left. exact H.
Qed.

Lemma C10_submit_guard_witness :
  deliver Submit (deliver Submit good_form) = deliver Submit good_form /\
  idle (deliver Settled (deliver Submit good_form)) /\
  idle (deliver Submit bad_form).
Proof.
  split; [|split].
  - apply (C10_submit_guard (deliver Submit good_form)). reflexivity.
  - destruct (C10_submit_guard (deliver Submit good_form)) as (_ & _ & A & _).
    apply A. repeat split; discriminate.
  - destruct (C10_submit_guard bad_form) as (_ & A & _).
    destruct A as [[A _]|[_ A]]; [repeat split|exact A|discriminate A].
Defined.

End FormProofs.

(** ** Further properties of the scene controller *)
Module SceneExtras.
Import Three Browser Background SceneTerms SceneProofs.
#[local] Open Scope R_scope.

(** *** What the particle loop writes *)

(** X1. In a controller built without failure, with every draw in
    [0,1), every slot of both arrays is written, each from its own
    draw: counted from the first draw of the construction, the
    coordinates of particle [i] are (r - 0.5) * 50 for draws 4i, 4i+1
    and 4i+2, up to the single-precision rounding of the store (less
    than one millionth), and its scale is the single-precision rounding
    of draw 4i+3. *)
Theorem X1_particles_sampled (cfg : SceneConfig) (h : Host) :
  webgl h = true -> fault h = None -> (forall k, in_unit (rand h k)) ->
  exists p, particles (bg (construct cfg h)) = Some p /\
    forall i, (i < particleCount cfg)%nat ->
      let k := (rngPos h + 4 * i)%nat in
      (exists x, positions p !! (i * 3)%nat = Some x /\
         Rabs (x - (rand h k - 0.5) * 50) <= 1 / 1000000) /\
      (exists y, positions p !! (i * 3 + 1)%nat = Some y /\
         Rabs (y - (rand h (k + 1) - 0.5) * 50) <= 1 / 1000000) /\
      (exists z, positions p !! (i * 3 + 2)%nat = Some z /\
         Rabs (z - (rand h (k + 2) - 0.5) * 50) <= 1 / 1000000) /\
      scales p !! i = Some (Float32.fround (rand h (k + 3))).
Proof.
  intros Hw Hf Hr. rewrite construct_ok by assumption.
  destruct (built_field cfg h) as (p & Hp & _ & _ & Hc).
  exists p. split; [exact Hp|]. intros i Hi.
  destruct (Hc i Hi) as (A & B & C & D). cbv zeta.
  split; [|split; [|split; [|exact D]]];
    eexists; (split; [eassumption|apply coordinate_near, Hr]).
Qed.

Lemma X1_particles_sampled_witness :
  exists p, particles (bg (construct small_config sample_host)) = Some p /\
    scales p !! 9%nat = Some (Float32.fround 0.5).
Proof.
  destruct (X1_particles_sampled small_config sample_host)
    as (p & Hp & Hc); [reflexivity|reflexivity|exact sample_host_unit|].
  exists p. split; [exact Hp|].
  destruct (Hc 9%nat ltac:(simpl; lia)) as (_ & _ & _ & D). exact D.
Defined.

(** *** Where the solids are *)

Lemma fresh_mesh_placed k i h :
  (forall j, in_unit (rand h j)) ->
  placed (fresh_mesh k i h) /\ in_band (fresh_mesh k i h).
Proof.
  intros Hr. pose proof PI_RGT_0 as Hpi.
  pose proof (Hr (rngPos h)) as H0. pose proof (Hr (1 + rngPos h)%nat) as H1.
  pose proof (Hr (2 + rngPos h)%nat) as H2. pose proof (Hr (3 + rngPos h)%nat) as H3.
  pose proof (Hr (4 + rngPos h)%nat) as H4.
  unfold in_unit in *. unfold placed, in_band, fresh_mesh. simpl in *.
  repeat split; try lra; nra.
Qed.

Lemma fresh_meshes_placed ks : forall i h,
  (forall j, in_unit (rand h j)) ->
  Forall (fun m => placed m /\ in_band m) (fresh_meshes ks i h).
Proof.
  induction ks as [|k ks IH]; intros i h Hr; simpl; constructor.
  - apply fresh_mesh_placed, Hr.
  - apply IH. intros j. apply Hr.
Qed.

Lemma anchor_animate cfg t m : anchor (animate_mesh cfg t m) = anchor m.
Proof. destruct m as [? ? [] ? ? ? ? ?]. reflexivity. Qed.

Lemma anchors_kept a :
  kept (fun b => map anchor (geometries b) = a /\ Forall in_band (geometries b)).
Proof.
  intros s [Ha Hb]. split; [|split; [|intros x y]].
  - destruct (animate_keeps s) as (_ & _ & _ & _ & _ & [-> | ->]); [auto|].
    split.
    + rewrite <- Ha, map_map. apply map_ext. intros m. apply anchor_animate.
    + apply Forall_map, Forall_true. intros m. apply in_band_animate.
  - destruct (onWindowResize_keeps s) as (_ & _ & _ & ->). auto.
  - destruct (onMouseMove_keeps x y s) as (_ & _ & _ & ->). auto.
Qed.

Lemma placed_anchor m m' : anchor m' = anchor m -> placed m -> placed m'.
Proof. unfold anchor, placed. intros H. injection H as -> -> ->. auto. Qed.

(** X2. With every draw in [0,1), each solid of a controller built
    without failure is created with x, z and initial height between
    -10 and 10, angular speed between 0.0005 and 0.001 and phase
    between 0 and 2 pi.  No delivery of frames, resizes, pointer moves
    or visibility changes alters the x and z coordinates or the user
    data of any solid, and the height stays between -11.5 and 11.5. *)
Theorem X2_solids_placed (cfg : SceneConfig) (h : Host) (es : list Event) :
  webgl h = true -> fault h = None -> (forall k, in_unit (rand h k)) ->
  let s := construct cfg h in
  let s' := deliver_all es s in
  Forall placed (geometries (bg s)) /\
  map anchor (geometries (bg s')) = map anchor (geometries (bg s)) /\
  Forall (fun m => placed m /\ -11.5 <= vy (position m) <= 11.5)
         (geometries (bg s')).
Proof.
  intros Hw Hf Hr s s'.
  assert (H0 : Forall (fun m => placed m /\ in_band m) (geometries (bg s))).
  { unfold s. rewrite construct_ok by assumption.
    pose proof (fresh_meshes_placed geometryKinds 0
                  (set_rngPos (rngPos h + 4 * particleCount cfg)
                     (host (after_attach cfg h))) Hr) as Hfm.
    destruct (built_cases cfg h) as [[-> _]|[-> _]]; [exact Hfm|].
    rewrite advance_geometries, s0_geometries. apply Forall_map.
    eapply Forall_impl; [exact Hfm|].
    intros m [Hp _]. split; [|apply in_band_animate].
    eapply placed_anchor; [apply anchor_animate|exact Hp]. }
  assert (Hp0 : Forall placed (geometries (bg s))).
  { eapply Forall_impl; [exact H0|]. intros m [Hp _]. exact Hp. }
  assert (Hb0 : Forall in_band (geometries (bg s))).
  { eapply Forall_impl; [exact H0|]. intros m [_ Hb]. exact Hb. }
  destruct (deliver_all_kept _ (anchors_kept (map anchor (geometries (bg s)))) es s
              (conj eq_refl Hb0)) as [Ha Hb].
  fold s' in Ha, Hb. split; [exact Hp0|]. split; [exact Ha|].
  assert (Hp' : Forall placed (geometries (bg s'))).
  { apply Forall_lookup. intros j m' Hj.
    assert (Hm : map anchor (geometries (bg s')) !! j = Some (anchor m'))
      by (rewrite list_lookup_fmap, Hj; reflexivity).
    rewrite Ha, list_lookup_fmap in Hm.
    destruct (geometries (bg s) !! j) as [m|] eqn:Em; [|discriminate].
    simpl in Hm. injection Hm as Hx Hz Hu.
    apply (placed_anchor m m'); [unfold anchor; congruence|].
    exact (proj1 (Forall_lookup _ _) Hp0 j m Em). }
  apply Forall_lookup. intros j m Hj.
  pose proof (proj1 (Forall_lookup _ _) Hp' j m Hj) as Hp.
  pose proof (proj1 (Forall_lookup _ _) Hb j m Hj) as Hbm.
  split; [exact Hp|]. unfold placed in Hp. unfold in_band in Hbm. lra.
Qed.

Lemma X2_solids_placed_witness :
  Forall (fun m => placed m /\ -11.5 <= vy (position m) <= 11.5)
         (geometries (bg (deliver_all [Frame 16; Resize 800 600]
                            (construct small_config sample_host)))).
Proof.
  destruct (X2_solids_placed small_config sample_host [Frame 16; Resize 800 600])
    as (_ & _ & C); [reflexivity|reflexivity|exact sample_host_unit|].
  exact C.
Defined.


(** *** The pointer *)

Lemma onMouseMove_ok x y s :
  run (onMouseMove x y) s
  = mkSt (set_mouse (mkV2 (x / innerWidth (host s) * 2 - 1)
                          (- (y / innerHeight (host s)) * 2 + 1)) (bg s))
         (host s).
Proof. open_state s. reflexivity. Qed.

Lemma run_each_mouse x y (ls : list nat) : forall s,
  ls <> [] ->
  run_each ls (onMouseMove x y) s
  = mkSt (set_mouse (mkV2 (x / innerWidth (host s) * 2 - 1)
                          (- (y / innerHeight (host s)) * 2 + 1)) (bg s))
         (host s).
Proof.
  induction ls as [|l ls IH]; intros s Hne; [congruence|].
  simpl. rewrite onMouseMove_ok. destruct ls as [|l' ls']; [reflexivity|].
  rewrite IH by discriminate. open_state s. reflexivity.
Qed.

(** X3. With the mousemove listener registered, a pointer move to
    client coordinates inside a viewport of positive size stores
    x / width * 2 - 1 and -(y / height) * 2 + 1: both land in [-1, 1],
    the top-left corner at (-1, 1) and the bottom-right corner at
    (1, -1); nothing of the controller but the pointer changes. *)
Theorem X3_pointer_normalised (s : St) (x y : R) :
  mousemoveListeners (host s) <> [] ->
  0 < innerWidth (host s) -> 0 < innerHeight (host s) ->
  0 <= x <= innerWidth (host s) -> 0 <= y <= innerHeight (host s) ->
  let s' := deliver (MouseMove x y) s in
  s' = mkSt (set_mouse (mkV2 (x / innerWidth (host s) * 2 - 1)
                             (- (y / innerHeight (host s)) * 2 + 1)) (bg s))
            (host s) /\
  -1 <= x2 (mouse (bg s')) <= 1 /\ -1 <= y2 (mouse (bg s')) <= 1 /\
  (x = 0 -> y = 0 -> mouse (bg s') = mkV2 (-1) 1) /\
  (x = innerWidth (host s) -> y = innerHeight (host s) -> mouse (bg s') = mkV2 1 (-1)).
Proof.
  intros Hl HW HH Hx Hy s'. subst s'. simpl deliver.
  rewrite run_each_mouse by exact Hl. split; [reflexivity|]. simpl.
  assert (Hfrac : forall a w, 0 < w -> 0 <= a <= w -> 0 <= a / w <= 1).
  { intros a w Hw Ha. assert (Hi : 0 < / w) by (apply Rinv_0_lt_compat; lra).
    unfold Rdiv. split; [apply Rmult_le_pos; lra|].
    replace 1 with (w * / w) by (apply Rinv_r; lra).
    apply Rmult_le_compat_r; lra. }
  pose proof (Hfrac x _ HW Hx) as Ex. pose proof (Hfrac y _ HH Hy) as Ey.
  split; [lra|]. split; [lra|]. split.
  - intros -> ->. f_equal; unfold Rdiv; lra.
  - intros -> ->. f_equal; unfold Rdiv; rewrite Rinv_r by lra; lra.
Qed.

Lemma X3_pointer_normalised_witness :
  mouse (bg (deliver (MouseMove 1280 720) (construct small_config sample_host)))
  = mkV2 1 (-1).
Proof.
  assert (L : mousemoveListeners (host (construct small_config sample_host)) = [2%nat])
    by reflexivity.
  assert (W : innerWidth (host (construct small_config sample_host)) = 1280)
    by reflexivity.
  assert (H : innerHeight (host (construct small_config sample_host)) = 720)
    by reflexivity.
  destruct (X3_pointer_normalised (construct small_config sample_host) 1280 720)
    as (_ & _ & _ & _ & B).
  - rewrite L. discriminate.
  - rewrite W. lra.
  - rewrite H. lra.
  - rewrite W. lra.
  - rewrite H. lra.
  - apply B; symmetry; assumption.
Defined.

(** *** One frame request at a time *)

Lemma animate_schedules s :
  isActive (bg s) = true ->
  isActive (bg (run animate s)) = true /\
  scheduled (host (run animate s)) = scheduled (host s) ++ [nextFrame (host s)] /\
  frameId (bg (run animate s)) = Some (nextFrame (host s)).
Proof.
  intros Ha. open_state s. simpl in Ha. subst.
  destruct hidden0, particles0, camera0, scene0, renderer0; repeat split; reflexivity.
Qed.

Lemma onWindowResize_schedule s :
  isActive (bg (run onWindowResize s)) = isActive (bg s) /\
  scheduled (host (run onWindowResize s)) = scheduled (host s) /\
  frameId (bg (run onWindowResize s)) = frameId (bg s).
Proof. open_state s. destruct camera0, renderer0; repeat split; reflexivity. Qed.

Lemma onMouseMove_schedule x y s :
  isActive (bg (run (onMouseMove x y) s)) = isActive (bg s) /\
  scheduled (host (run (onMouseMove x y) s)) = scheduled (host s) /\
  frameId (bg (run (onMouseMove x y) s)) = frameId (bg s).
Proof. open_state s. repeat split; reflexivity. Qed.

Lemma run_each_inv (P : St -> Prop) (m : M unit) :
  (forall s, P s -> P (run m s)) ->
  forall (ls : list nat) s, P s -> P (run_each ls m s).
Proof.
  intros Hm ls. induction ls as [|l ls IH]; intros s Hs; [exact Hs|].
  simpl. apply IH, Hm, Hs.
Qed.

Lemma deliver_one_pending e s : one_pending s -> one_pending (deliver e s).
Proof.
  intros (Ha & i & Hs & Hf). destruct e as [t|w ht|x y|v].
  - simpl deliver. rewrite Hs. simpl run_each.
    match goal with |- one_pending (run animate ?s1) =>
      destruct (animate_schedules s1 Ha) as (A & B & C) end.
    split; [exact A|]. eexists. split; [exact B|exact C].
  - simpl deliver. apply run_each_inv.
    + intros s1 (Ha1 & i1 & Hs1 & Hf1).
      destruct (onWindowResize_schedule s1) as (A & B & C).
      split; [congruence|]. exists i1. split; congruence.
    + split; [exact Ha|]. exists i. split; assumption.
  - simpl deliver. apply run_each_inv.
    + intros s1 (Ha1 & i1 & Hs1 & Hf1).
      destruct (onMouseMove_schedule x y s1) as (A & B & C).
      split; [congruence|]. exists i1. split; congruence.
    + split; [exact Ha|]. exists i. split; assumption.
  - split; [exact Ha|]. exists i. split; assumption.
Qed.

Lemma built_one_pending cfg h : scheduled h = [] -> one_pending (built cfg h).
Proof.
  intros Hs. unfold built.
  match goal with |- one_pending (run animate ?s1) =>
    destruct (animate_schedules s1 eq_refl) as (A & B & C);
    change (scheduled (host s1)) with (scheduled h) in B;
    change (nextFrame (host s1)) with (nextFrame h) in B, C
  end.
  split; [exact A|]. exists (nextFrame h). rewrite Hs in B. split; assumption.
Qed.

Lemma reachable_one_pending cfg h es :
  webgl h = true -> fault h = None -> scheduled h = [] ->
  one_pending (deliver_all es (construct cfg h)).
Proof.
  intros Hw Hf Hs. rewrite construct_ok by assumption.
  pose proof (built_one_pending cfg h Hs) as H0.
  generalize dependent (built cfg h). induction es as [|e es IH]; intros s H0; [exact H0|].
  simpl. apply IH, deliver_one_pending, H0.
Qed.

(** X4. From a construction without failure on a page with no frame
    request pending, whatever frames, resizes, pointer moves and
    visibility changes are delivered, the controller is active and
    exactly one frame request is pending, the one whose id it holds:
    ticks never pile up and the loop never stalls. *)
Theorem X4_one_frame_pending (cfg : SceneConfig) (h : Host) (es : list Event) :
  webgl h = true -> fault h = None -> scheduled h = [] ->
  one_pending (deliver_all es (construct cfg h)).
Proof. apply reachable_one_pending. Qed.

Lemma X4_one_frame_pending_witness :
  one_pending (deliver_all [Frame 16; Visibility true; Frame 33; Frame 50]
                 (construct small_config sample_host)).
Proof.
  apply (X4_one_frame_pending small_config sample_host); reflexivity.
Defined.


(** *** One render per visible refresh *)

Lemma equipment_kept :
  kept (fun b => is_Some (camera b) /\ is_Some (scene b) /\ is_Some (renderer b)).
Proof.
  intros s ([c Hc] & [sc Hs] & [r Hr]). open_state s. simpl in Hc, Hs, Hr. subst.
  split; [|split; [|intros x y]].
  - destruct isActive0, hidden0, particles0; repeat split; eexists; reflexivity.
  - repeat split; eexists; reflexivity.
  - repeat split; eexists; reflexivity.
Qed.

Lemma animate_renders s :
  isActive (bg s) = true ->
  is_Some (camera (bg s)) -> is_Some (scene (bg s)) -> is_Some (renderer (bg s)) ->
  frames_rendered (run animate s)
  = if hidden (host s) then frames_rendered s else S (frames_rendered s).
Proof.
  intros Ha [c Hc] [sc Hs] [r Hr]. open_state s. simpl in Ha, Hc, Hs, Hr. subst.
  destruct hidden0, particles0; reflexivity.
Qed.

Lemma built_equipped cfg h :
  is_Some (camera (bg (built cfg h))) /\ is_Some (scene (bg (built cfg h))) /\
  is_Some (renderer (bg (built cfg h))).
Proof.
  destruct (built_equipment cfg h) as (sc & p & c & r & Hs & _ & Hc & Hr & _).
  rewrite Hs, Hc, Hr. repeat split; eexists; reflexivity.
Qed.

(** X5. In every state reached from a construction without failure (on
    a page with no frame request pending), a display refresh renders
    the scene exactly once when the document is visible and not at all
    when it is hidden. *)
Theorem X5_one_render_per_refresh (cfg : SceneConfig) (h : Host) (es : list Event) (t : R) :
  webgl h = true -> fault h = None -> scheduled h = [] ->
  let s := deliver_all es (construct cfg h) in
  frames_rendered (deliver (Frame t) s)
  = if hidden (host s) then frames_rendered s else S (frames_rendered s).
Proof.
  intros Hw Hf Hs s.
  destruct (reachable_one_pending cfg h es Hw Hf Hs) as (Ha & i & Hi & _). fold s in Ha, Hi.
  assert (He : is_Some (camera (bg s)) /\ is_Some (scene (bg s)) /\ is_Some (renderer (bg s))).
  { apply (deliver_all_kept _ equipment_kept). rewrite construct_ok by assumption.
    apply built_equipped. }
  destruct He as (Hc & Hsc & Hr).
  simpl deliver. rewrite Hi. simpl run_each.
  rewrite animate_renders; auto.
Qed.

Lemma X5_one_render_per_refresh_witness :
  frames_rendered (deliver (Frame 33)
                     (deliver_all [Frame 16] (construct small_config sample_host)))
  = 3%nat.
Proof.
  rewrite (X5_one_render_per_refresh small_config sample_host [Frame 16] 33);
    reflexivity.
Defined.

(** *** Disposing twice, and disposing what never started *)

Lemma dispose_detached s sc p r :
  scene (bg s) = Some sc -> particles (bg s) = Some p -> renderer (bg s) = Some r ->
  existsb (Nat.eqb (domElement r)) (containerChildren (host s)) = false ->
  fst (dispose s) = Throw "NotFoundError" /\
  geometries (bg (run dispose s)) = map dispose_mesh (geometries (bg s)) /\
  particles (bg (run dispose s)) = Some (dispose_points p) /\
  renderer (bg (run dispose s)) = Some (renderer_dispose r) /\
  resizeListeners (host (run dispose s)) = resizeListeners (host s).
Proof.
  intros Hs Hp Hr Hin. open_state s. destruct r. simpl in Hs, Hp, Hr, Hin. subst.
  unfold run.
  destruct geometries0 as [|m ms], frameId0 as [i|];
    lazy -[IZR Rplus Rminus Rmult Rdiv Rinv Ropp map existsb List.filter remove_meshes
           scene_remove dispose_mesh dispose_points remove_listener
           Nat.eqb negb];
    rewrite Hin; repeat split; reflexivity.
Qed.

Lemma disposed_released b :
  released 0 b -> released 1 (disposed b).
Proof.
  intros (Hg & Hpg & Hpm & Hr). unfold released.
  change (geometries (bg (disposed b))) with (map dispose_mesh (geometries (bg b))).
  change (particles (bg (disposed b))) with (option_map dispose_points (particles (bg b))).
  change (renderer (bg (disposed b))) with (option_map renderer_dispose (renderer (bg b))).
  split.
  { apply Forall_map. eapply Forall_impl; [exact Hg|].
    intros m [H1 H2]. simpl. rewrite H1, H2. done. }
  destruct (particles (bg b)) as [p|]; [|discriminate].
  destruct (renderer (bg b)) as [r|]; [|discriminate].
  simpl in *. repeat split; congruence.
Qed.

Lemma built_released cfg h : released 0 (built cfg h).
Proof.
  split; [apply built_unreleased|].
  destruct (built_cases cfg h) as [[-> _]|[-> _]].
  - repeat split; reflexivity.
  - rewrite advance_particles. repeat split; reflexivity.
Qed.

Lemma second_dispose b sc p r :
  scene (bg b) = Some sc -> particles (bg b) = Some p -> renderer (bg b) = Some r ->
  existsb (Nat.eqb (domElement r)) (containerChildren (host b)) = true ->
  released 0 b ->
  let d := run dispose b in
  released 1 d /\
  fst (dispose d) = Throw "NotFoundError" /\
  released 2 (run dispose d).
Proof.
  intros Hs Hp Hr Hin H0 d.
  assert (Ed : d = disposed b).
  { unfold d, run. rewrite (dispose_ok _ sc p r Hs Hp Hr Hin). reflexivity. }
  clearbody d. subst d.
  pose proof (disposed_released b H0) as H1. split; [exact H1|].
  assert (Hout : existsb (Nat.eqb (domElement (renderer_dispose r)))
                         (containerChildren (host (disposed b))) = false).
  { change (containerChildren (host (disposed b)))
      with (match renderer (bg b) with
            | Some r => List.filter (fun c => negb (Nat.eqb c (domElement r)))
                                    (containerChildren (host b))
            | None => containerChildren (host b)
            end).
    rewrite Hr. apply filter_neq_absent. }
  destruct (dispose_detached (disposed b)
              (scene_remove OPoints (remove_meshes (geometries (bg b)) sc))
              (dispose_points p) (renderer_dispose r))
    as (A & B & C & D & _); auto.
  { change (scene (bg (disposed b)))
      with (option_map (fun sc => scene_remove OPoints (remove_meshes (geometries (bg b)) sc))
                       (scene (bg b))).
    rewrite Hs. reflexivity. }
  { change (particles (bg (disposed b))) with (option_map dispose_points (particles (bg b))).
    rewrite Hp. reflexivity. }
  { change (renderer (bg (disposed b))) with (option_map renderer_dispose (renderer (bg b))).
    rewrite Hr. reflexivity. }
  split; [exact A|].
  destruct H1 as (G1 & P1 & P2 & R1). unfold released. rewrite B, C, D.
  change (particles (bg (disposed b))) with (option_map dispose_points (particles (bg b)))
    in P1, P2.
  change (renderer (bg (disposed b))) with (option_map renderer_dispose (renderer (bg b)))
    in R1.
  rewrite Hp in P1, P2. rewrite Hr in R1. simpl in P1, P2, R1.
  split.
  { apply Forall_map. eapply Forall_impl; [exact G1|].
    intros m [E1 E2]. simpl. rewrite E1, E2. done. }
  simpl. repeat split; congruence.
Qed.

(** X6. Disposing a built controller a second time does not complete:
    every geometry, material and the renderer are released a second
    time, then removing the canvas, no longer a child of the container,
    throws. *)
Theorem X6_second_dispose_throws (cfg : SceneConfig) (h : Host) :
  webgl h = true -> fault h = None ->
  let d := run dispose (construct cfg h) in
  released 1 d /\
  fst (dispose d) = Throw "NotFoundError" /\
  released 2 (run dispose d).
Proof.
  intros Hw Hf. rewrite construct_ok by assumption.
  destruct (built_equipment cfg h)
    as (sc & p & c & r & Hs & Hp & Hc & Hr & Hel & Hg0 & Hm0 & Hch & Hls & Hid).
  assert (Hin : existsb (Nat.eqb (domElement r)) (containerChildren (host (built cfg h))) = true).
  { rewrite Hch, Hel. apply existsb_snoc. }
  exact (second_dispose (built cfg h) sc p r Hs Hp Hr Hin (built_released cfg h)).
Qed.

Lemma X6_second_dispose_throws_witness :
  fst (dispose (run dispose (construct small_config sample_host)))
  = Throw "NotFoundError".
Proof.
  destruct (X6_second_dispose_throws small_config sample_host eq_refl eq_refl)
    as (_ & A & _).
  exact A.
Defined.

(** X7. Disposing a controller whose construction fell back because
    WebGL is missing completes without throwing and touches nothing of
    the page: the container, the pending frame requests and the
    fallback background are as the constructor left them; the
    controller is inactive. *)
Theorem X7_dispose_after_fallback (cfg : SceneConfig) (h : Host) :
  webgl h = false ->
  let d := run dispose (construct cfg h) in
  fst (dispose (construct cfg h)) = Ok tt /\
  isActive (bg d) = false /\
  containerChildren (host d) = containerChildren h /\
  scheduled (host d) = scheduled h /\
  bodyBackground (host d) = Some gradient.
Proof.
  intros Hw. rewrite construct_no_webgl by assumption.
  destruct h. repeat split; reflexivity.
Qed.

Lemma X7_dispose_after_fallback_witness :
  fst (dispose (construct small_config no_webgl_host)) = Ok tt.
Proof.
  destruct (X7_dispose_after_fallback small_config no_webgl_host eq_refl)
    as (A & _).
  exact A.
Defined.

End SceneExtras.

(** ** Further properties of the contact form *)
Module FormExtras.
Import Js Contact FormTerms FormProofs.
#[local] Open Scope string_scope.
#[local] Open Scope list_scope.

(** *** The verdict classes *)

Lemma get_set_field_ne k k' x f : k <> k' -> get_field k' (set_field k x f) = get_field k' f.
Proof. destruct k, k'; intros H; try congruence; reflexivity. Qed.

(** X8. After a field is validated its form group carries the error
    class exactly when the field is invalid and the success class
    exactly when it is valid with a nonempty trimmed value, never both;
    every other class of the group and every other field are left as
    they were. *)
Theorem X8_verdict_classes (k : FieldKey) (f : ContactForm) :
  let ok := fst (validateField k f) in
  let f' := snd (validateField k f) in
  let cl := classList (group (get_field k f)) in
  let cl' := classList (group (get_field k f')) in
  ("error" ∈ cl' <-> ok = false) /\
  ("success" ∈ cl' <-> ok = true /\ trim (value (get_field k f)) <> []) /\
  (forall c, c <> "error" -> c <> "success" -> (c ∈ cl' <-> c ∈ cl)) /\
  (forall k', k' <> k -> get_field k' f' = get_field k' f) /\
  value (get_field k f') = value (get_field k f).
Proof.
  intros ok f' cl cl'. subst ok f' cl cl'.
  rewrite validateField_result, validateField_field.
  assert (Ho : forall k', k' <> k ->
                 get_field k' (snd (validateField k f)) = get_field k' f).
  { intros k' Hk. unfold validateField. destruct (check _ _). simpl.
    apply get_set_field_ne. congruence. }
  destruct (fst (check _ _)) eqn:E; unfold setFieldStatus; simpl.
  - destruct (trim (value (get_field k f))) eqn:Et; simpl.
    + repeat split; try set_solver; try (intros [? ?]; congruence); auto.
    + repeat split; try set_solver; auto; try discriminate.
  - repeat split; try set_solver; auto; try (intros [? ?]; discriminate).
Qed.


Lemma X8_verdict_classes_witness :
  "error" ∈ classList (group (field_name (snd (validateField KName bad_form)))) /\
  "form-group" ∈ classList (group (field_name (snd (validateField KName bad_form)))).
Proof.
  destruct (X8_verdict_classes KName bad_form) as (A & _ & C & _). split.
  - apply A. reflexivity.
  - apply C; [discriminate|discriminate|]. vm_compute. set_solver.
Defined.

(** *** Submitting *)

Lemma every_valid_first_invalid k ks f :
  fst (validateField k f) = false ->
  every_valid (k :: ks) f = (false, snd (validateField k f)).
Proof.
  intros H. simpl. destruct (validateField k f) as [ok f']. simpl in H. subst.
  reflexivity.
Qed.

(** X9. A submit event on an idle form whose name field is invalid
    stops at that field: the email and message fields are not validated
    and keep their marks and error texts, nothing is handed to
    [submitForm] or logged, the name field gets the error class, the
    one toast in the document is the error toast, and the form is idle
    again. *)
Theorem X9_submit_stops_at_first_invalid (f : ContactForm) :
  idle f -> fst (validateField KName f) = false ->
  let f' := deliver Submit f in
  field_email f' = field_email f /\
  field_message f' = field_message f /\
  "error" ∈ classList (group (field_name f')) /\
  notifications f' = [error_toast] /\
  pending f' = None /\ logged f' = logged f /\ idle f'.
Proof.
  intros (Hs & Hb & Hp) Hv f'. subst f'. simpl deliver. unfold handleSubmit.
  rewrite Hs.
  assert (Hv' : fst (validateField KName (setLoading true f)) = false).
  { rewrite validateField_result in *. exact Hv. }
  unfold field_keys. rewrite every_valid_first_invalid by exact Hv'.
  destruct (X8_verdict_classes KName (setLoading true f)) as (A & _).
  apply A in Hv'.
  unfold validateField in *. simpl get_field in *.
  destruct (check (name (field_name f)) (trim (value (field_name f)))) as [ok msg].
  simpl in Hv'. simpl. repeat split; auto.
Qed.

Lemma X9_submit_stops_at_first_invalid_witness :
  notifications (deliver Submit bad_form) = [error_toast].
Proof.
  apply (X9_submit_stops_at_first_invalid bad_form); [repeat split|reflexivity].
Defined.

Lemma edit_keeps e f :
  is_edit e ->
  pending (deliver e f) = pending f /\
  logged (deliver e f) = logged f /\
  (forall k, defaultValue (get_field k (deliver e f)) = defaultValue (get_field k f)) /\
  flags (deliver e f) = flags f.
Proof.
  destruct e as [|k|k v|]; intros He; try destruct He; simpl.
  - unfold validateField. destruct (check _ _) as [ok msg]. simpl.
    repeat split; try (destruct k; reflexivity).
    intros k'. unfold setFieldStatus.
    destruct k, k'; simpl; destruct ok; simpl;
      try destruct (trim _); reflexivity.
  - repeat split; try (destruct k; reflexivity).
    intros k'. destruct k, k'; reflexivity.
Qed.

Lemma edits_keep_pending es : forall f,
  Forall is_edit es ->
  pending (Contact.deliver_all es f) = pending f /\
  logged (Contact.deliver_all es f) = logged f /\
  (forall k, defaultValue (get_field k (Contact.deliver_all es f))
             = defaultValue (get_field k f)) /\
  flags (Contact.deliver_all es f) = flags f.
Proof.
  induction es as [|e es IH]; intros f He; [auto|].
  apply Forall_cons in He as [He Hes].
  destruct (IH (deliver e f) Hes) as (A & B & C & D).
  destruct (edit_keeps e f He) as (A' & B' & C' & D').
  change (Contact.deliver_all (e :: es) f) with (Contact.deliver_all es (deliver e f)).
  rewrite A, B, D, A', B', D'. repeat split. intros k. rewrite C. apply C'.
Qed.

Lemma setFieldStatus_values x ok msg :
  value (setFieldStatus x ok msg) = value x /\
  defaultValue (setFieldStatus x ok msg) = defaultValue x.
Proof.
  unfold setFieldStatus. destruct ok; simpl; [destruct (trim (value x))|]; auto.
Qed.

(** X10. When every field of an idle form is valid, a submit event
    captures the trimmed values; whatever the user then edits or leaves
    while the submission is in flight, when it settles exactly the
    captured data are logged, every field is back at its default value
    with neither verdict class, the one toast is the success toast and
    the form is idle. *)
Theorem X10_submission_settles (f : ContactForm) (es : list Contact.Event) :
  idle f -> fst (every_valid field_keys (setLoading true f)) = true ->
  Forall is_edit es ->
  let f1 := deliver Submit f in
  let f2 := deliver Settled (Contact.deliver_all es f1) in
  pending f1 = Some (trimmed_data f) /\
  logged f2 = (logged f ++ [trimmed_data f])%list /\
  (forall k, value (get_field k f2) = defaultValue (get_field k f) /\
             unmarked (get_field k f2)) /\
  notifications f2 = [success_toast] /\
  idle f2.
Proof.
  intros (Hs & Hb & Hp) Hv He f1 f2.
  assert (H1 : pending f1 = Some (trimmed_data f) /\ logged f1 = logged f /\
               forall k, defaultValue (get_field k f1) = defaultValue (get_field k f)).
  { subst f1. simpl deliver. unfold handleSubmit. rewrite Hs.
    unfold field_keys in *. simpl in Hv |- *.
    unfold validateField in *. simpl get_field in *.
    destruct (check (name (field_name f)) _) as [o1 m1]; simpl in *.
    destruct o1; [|discriminate].
    destruct (check (name (field_email f)) _) as [o2 m2]; simpl in *.
    destruct o2; [|discriminate].
    destruct (check (name (field_message f)) _) as [o3 m3]; simpl in *.
    destruct o3; [|discriminate]. simpl.
    unfold trimmed_data.
    repeat split; try (intros k; destruct k; simpl);
      rewrite ?(proj1 (setFieldStatus_values _ _ _)),
              ?(proj2 (setFieldStatus_values _ _ _)); reflexivity. }
  destruct H1 as (P1 & L1 & D1). split; [exact P1|].
  destruct (edits_keep_pending es f1 He) as (A & B & C & _).
  subst f2. simpl deliver. unfold submit_settled. rewrite A, P1.
  split; [simpl; rewrite B, L1; reflexivity|].
  split.
  { intros k. split.
    - destruct k; simpl;
        [exact (eq_trans (C KName) (D1 KName))
        |exact (eq_trans (C KEmail) (D1 KEmail))
        |exact (eq_trans (C KMessage) (D1 KMessage))].
    - unfold unmarked. destruct k; simpl; split; set_solver. }
  split; [reflexivity|]. repeat split.
Qed.

Lemma X10_submission_settles_witness :
  logged (deliver Settled
            (Contact.deliver_all [Input KName (of_string "Grace"); Blur KName]
               (deliver Submit good_form)))
  = [trimmed_data good_form].
Proof.
  apply (X10_submission_settles good_form
           [Input KName (of_string "Grace"); Blur KName]).
  - repeat split.
  - vm_compute. reflexivity.
  - repeat constructor.
Defined.


(** *** Trimming *)

Lemma trimStart_spaces pre s :
  Forall (fun c => is_space c = true) pre -> trimStart (pre ++ s) = trimStart s.
Proof.
  induction 1 as [|c pre Hc _ IH]; [reflexivity|]. simpl. rewrite Hc. exact IH.
Qed.

Lemma trimStart_app_keep s post :
  trimStart s <> [] -> trimStart (s ++ post) = (trimStart s ++ post)%list.
Proof.
  induction s as [|c s IH]; intros H; [contradiction|]. simpl in *.
  destruct (is_space c); [apply IH, H|reflexivity].
Qed.

Lemma trimStart_all_spaces s :
  Forall (fun c => is_space c = true) s -> trimStart s = [].
Proof. induction 1 as [|c s Hc _ IH]; [reflexivity|]. simpl. rewrite Hc. exact IH. Qed.

Lemma trimStart_nil_spaces s :
  trimStart s = [] -> Forall (fun c => is_space c = true) s.
Proof.
  induction s as [|c s IH]; intros H; [constructor|]. simpl in H.
  destruct (is_space c) eqn:E; [constructor; auto|discriminate].
Qed.

Lemma trimEnd_spaces s post :
  Forall (fun c => is_space c = true) post -> trimEnd (s ++ post) = trimEnd s.
Proof.
  intros H. unfold trimEnd. rewrite rev_app_distr.
  rewrite trimStart_spaces; [reflexivity|].
  apply Forall_rev. exact H.
Qed.

Lemma trim_surrounded pre v post :
  Forall (fun c => is_space c = true) pre ->
  Forall (fun c => is_space c = true) post ->
  trim (pre ++ v ++ post) = trim v.
Proof.
  intros Hpre Hpost. unfold trim. rewrite trimStart_spaces by exact Hpre.
  destruct (trimStart v) as [|c w] eqn:E.
  - rewrite trimStart_all_spaces; [reflexivity|].
    apply Forall_app. split; [apply trimStart_nil_spaces, E|exact Hpost].
  - rewrite trimStart_app_keep by (rewrite E; discriminate).
    rewrite E. apply trimEnd_spaces, Hpost.
Qed.

Lemma trim_spaces s : Forall (fun c => is_space c = true) s -> trim s = [].
Proof. intros H. unfold trim. rewrite trimStart_all_spaces by exact H. reflexivity. Qed.

(** X11. Validation ignores white space around a value: padding a
    field's value with white space on either side changes neither the
    verdict nor the error message; and a value made of white space only
    is invalid for a field named name, email or message, however long
    it is. *)
Theorem X11_validation_ignores_padding (n : string) (pre v post : jsstring) :
  Forall (fun c => is_space c = true) pre ->
  Forall (fun c => is_space c = true) post ->
  check n (trim (pre ++ v ++ post)) = check n (trim v) /\
  (known_name n -> Forall (fun c => is_space c = true) v ->
   fst (check n (trim (pre ++ v ++ post))) = false).
Proof.
  intros Hpre Hpost. rewrite trim_surrounded by assumption. split; [reflexivity|].
  intros Hn Hv. rewrite trim_spaces by exact Hv.
  destruct Hn as [->|[->| ->]]; reflexivity.
Qed.

Lemma X11_validation_ignores_padding_witness :
  check "name" (trim (of_string "  " ++ of_string "Ada" ++ of_string " "))
  = check "name" (trim (of_string "Ada")) /\
  fst (check "message" (trim (of_string " " ++ of_string "            " ++ [])))
  = false.
Proof.
  split.
  - apply (X11_validation_ignores_padding "name" (of_string "  ") (of_string "Ada")
             (of_string " ")); repeat constructor.
  - destruct (X11_validation_ignores_padding "message" (of_string " ")
                (of_string "            ") []) as [_ B];
      [repeat constructor|constructor|].
    apply B; [right; right; reflexivity|repeat constructor].
Defined.

(** *** Consequences of the email expression *)

Lemma part_no_at l : Forall part_char l -> count_occ N.eq_dec l 64%N = 0%nat.
Proof.
  induction 1 as [|c l [_ Hc] _ IH]; [reflexivity|]. simpl.
  destruct (N.eq_dec c 64%N) as [E|_]; [contradiction|exact IH].
Qed.

Lemma part_no_space l : Forall part_char l -> Forall (fun c => is_space c = false) l.
Proof. intros H. eapply Forall_impl; [exact H|]. intros c [Hc _]. exact Hc. Qed.

(** X12. An email value that passes validation holds exactly one [@]
    and no white space, has a dot somewhere after the [@] with at least
    one character on each side of it, and so at least five code
    units. *)
Theorem X12_valid_email_facts (v : jsstring) :
  fst (check "email" v) = true ->
  count_occ N.eq_dec v 64%N = 1%nat /\
  Forall (fun c => is_space c = false) v /\
  (5 <= length v)%nat /\
  exists l d t, v = (l ++ [64%N] ++ d ++ [46%N] ++ t)%list /\
                l <> [] /\ d <> [] /\ t <> [] /\ ~ In 64%N d /\ ~ In 64%N t.
Proof.
  intros H. apply check_email in H.
  destruct H as (l & d & t & -> & Hl & Hd & Ht & Fl & Fd & Ft).
  split.
  { rewrite !count_occ_app, (part_no_at l Fl), (part_no_at d Fd), (part_no_at t Ft).
    reflexivity. }
  split.
  { repeat (apply Forall_app; split); auto using part_no_space;
      repeat constructor. }
  split.
  { rewrite !length_app. simpl.
    destruct l; [congruence|]. destruct d; [congruence|]. destruct t; [congruence|].
    simpl. lia. }
  exists l, d, t. repeat split; auto.
  - intros Hin. apply (count_occ_In N.eq_dec) in Hin. rewrite (part_no_at d Fd) in Hin. lia.
  - intros Hin. apply (count_occ_In N.eq_dec) in Hin. rewrite (part_no_at t Ft) in Hin. lia.
Qed.

Lemma X12_valid_email_facts_witness :
  count_occ N.eq_dec (of_string "ada@example.org") 64%N = 1%nat.
Proof.
  apply (X12_valid_email_facts (of_string "ada@example.org")). vm_compute. reflexivity.
Defined.

End FormExtras.

(** ** Properties of the theme toggle and the header *)
Module PageProofs.
Import Page.
#[local] Open Scope string_scope.

(** *** The theme classes *)

Lemma applyTheme_classes t c :
  c ∈ rootClasses (applyTheme t) <->
  (c = "dark-theme" /\ isDark t = true) \/
  (c = "light-theme" /\ isDark t = false) \/
  (c <> "dark-theme" /\ c <> "light-theme" /\ c ∈ rootClasses t).
Proof.
  assert (Hne : "dark-theme" <> "light-theme") by discriminate.
  unfold applyTheme, toggle_class. simpl.
  destruct (decide (c = "dark-theme")) as [Ed|Hd];
    destruct (decide (c = "light-theme")) as [El|Hl];
    destruct (isDark t); simpl; set_solver.
Qed.

Lemma toggles_dark n t : isDark (toggles n t) = if Nat.even n then isDark t else negb (isDark t).
Proof.
  induction n as [|n IH]; [reflexivity|].
  change (isDark (toggles (S n) t)) with (negb (isDark (toggles n t))).
  rewrite IH, Nat.even_succ, <- Nat.negb_even.
  destruct (Nat.even n), (isDark t); reflexivity.
Qed.

Lemma toggles_classes n t c :
  c <> "dark-theme" -> c <> "light-theme" ->
  (c ∈ rootClasses (toggles n t) <-> c ∈ rootClasses t).
Proof.
  intros Hd Hl. induction n as [|n IH]; [reflexivity|].
  rewrite <- IH. simpl toggles. unfold toggleTheme. rewrite applyTheme_classes. simpl.
  intuition congruence.
Qed.

(** X13. Once the theme has been applied, by the constructor or by any
    number of toggles, the document element carries exactly one of the
    two theme classes: dark-theme when [isDark], light-theme otherwise;
    [n] toggles of a manager created dark leave it dark exactly when [n]
    is even; no other class of the element is ever added or removed. *)
Theorem X13_theme_classes (cl : gset string) (n : nat) :
  let t := toggles n (new_ThemeManager cl) in
  isDark t = Nat.even n /\
  ("dark-theme" ∈ rootClasses t <-> isDark t = true) /\
  ("light-theme" ∈ rootClasses t <-> isDark t = false) /\
  (forall c, c <> "dark-theme" -> c <> "light-theme" ->
             (c ∈ rootClasses t <-> c ∈ cl)).
Proof.
  intros t. subst t. split; [|split; [|split]].
  - rewrite toggles_dark. simpl. destruct (Nat.even n); reflexivity.
  - destruct n as [|n]; simpl toggles; unfold toggleTheme, new_ThemeManager;
      rewrite applyTheme_classes; simpl; intuition (try congruence); try discriminate.
  - destruct n as [|n]; simpl toggles; unfold toggleTheme, new_ThemeManager;
      rewrite applyTheme_classes; simpl; intuition (try congruence); try discriminate.
  - intros c Hd Hl. rewrite toggles_classes by assumption.
    unfold new_ThemeManager. rewrite applyTheme_classes. simpl. intuition congruence.
Qed.

Lemma X13_theme_classes_witness :
  "light-theme" ∈ rootClasses (toggles 3 (new_ThemeManager {["no-js"]})) /\
  "no-js" ∈ rootClasses (toggles 3 (new_ThemeManager {["no-js"]})).
Proof.
  destruct (X13_theme_classes {["no-js"]} 3) as (A & _ & C & D). split.
  - apply C. rewrite A. reflexivity.
  - apply D; [discriminate|discriminate|set_solver].
Defined.

(** *** The header *)

(** X14. After any scroll events the header's style depends on the
    position of the last one only: the dark background and the shadow
    exactly when that position exceeds 100, the light background and no
    shadow otherwise, the position 100 itself included. *)
Theorem X14_header_follows_last_scroll (ys : list R) (y : R) (hd : Header) :
  let hd' := scrolls (ys ++ [y]) hd in
  lastScroll hd' = y /\
  ((100 < y)%R ->
   background hd' = "rgba(0, 0, 0, 0.8)" /\
   boxShadow hd' = "0 2px 10px rgba(0, 0, 0, 0.3)") /\
  ((y <= 100)%R -> background hd' = "rgba(0, 0, 0, 0.3)" /\ boxShadow hd' = "none").
Proof.
  intros hd'. subst hd'. unfold scrolls. rewrite fold_left_app. simpl.
  unfold onScroll. destruct (Rlt_dec 100 y) as [H|H]; simpl;
    repeat split; intros; auto; lra.
Qed.

Lemma X14_header_follows_last_scroll_witness :
  background (scrolls [250%R; 100%R] (mkHeader "" "" 0)) = "rgba(0, 0, 0, 0.3)".
Proof.
  apply (X14_header_follows_last_scroll [250%R] 100 (mkHeader "" "" 0)). lra.
Defined.

End PageProofs.

(** ** Properties of the toasts *)
Module ToastProofs.
Import Toasts.
#[local] Open Scope string_scope.
#[local] Open Scope list_scope.

Lemma tidy_alter f i d tm :
  tidy d ->
  (forall t, attached (f t) = true -> attached t = true) ->
  (forall t, toast_top t = "-100px" \/ toast_top t = "20px" ->
             toast_top (f t) = "-100px" \/ toast_top (f t) = "20px") ->
  tidy (mkDoc (alter f i (elements d)) tm).
Proof.
  intros Hd Ha Ht j t. simpl. rewrite length_alter. intros Hj.
  destruct (decide (i = j)) as [->|Hne].
  - rewrite list_lookup_alter_eq in Hj.
    destruct (elements d !! j) as [t0|] eqn:E; [|discriminate].
    simpl in Hj. injection Hj as <-. destruct (Hd j t0 E) as [A B].
    split; auto.
  - rewrite list_lookup_alter_ne in Hj by exact Hne. apply Hd, Hj.
Qed.

Lemma tidy_step d e : tidy d -> tidy (step d e).
Proof.
  intros Hd. destruct e as [m ty|k]; simpl.
  - unfold showNotification. intros j t. simpl.
    rewrite length_app, length_map. simpl. intros Hj.
    destruct (decide (j < length (elements d))%nat) as [Hlt|Hge].
    + rewrite lookup_app_l in Hj by (rewrite length_map; exact Hlt).
      rewrite list_lookup_fmap in Hj.
      destruct (elements d !! j) as [t0|] eqn:E; [|discriminate].
      simpl in Hj. injection Hj as <-. simpl. split; [discriminate|].
      apply (Hd j t0 E).
    + rewrite lookup_app_r in Hj by (rewrite length_map; lia).
      rewrite length_map in Hj.
      destruct (j - length (elements d))%nat as [|n] eqn:En; [|destruct n; discriminate].
      simpl in Hj. injection Hj as <-. simpl. split; [intros _; lia|auto].
  - unfold fire. destruct (timers d !! k) as [[i|i|i]|]; [| | |exact Hd].
    + apply tidy_alter; auto.
    + apply tidy_alter; auto.
    + apply tidy_alter; auto. simpl. discriminate.
Qed.

Lemma tidy_steps es : forall d, tidy d -> tidy (steps es d).
Proof.
  induction es as [|e es IH]; intros d Hd; [exact Hd|].
  simpl. apply IH, tidy_step, Hd.
Qed.

Lemma tidy_empty : tidy empty_doc.
Proof. intros j t H. discriminate. Qed.

Lemma before_last_detached els t :
  (forall j u, (els ++ [t]) !! j = Some u -> attached u = true ->
               S j = length (els ++ [t])) ->
  Forall (fun u => attached u = false) els.
Proof.
  intros H. apply Forall_lookup. intros j u Hj.
  destruct (attached u) eqn:E; [|reflexivity].
  pose proof (lookup_lt_Some _ _ _ Hj) as Hlt.
  assert (Hj' : (els ++ [t]) !! j = Some u) by (rewrite lookup_app_l; assumption).
  specialize (H j u Hj' E). rewrite length_app in H. simpl in H. lia.
Qed.

Lemma filter_detached els :
  Forall (fun u => attached u = false) els -> List.filter attached els = [].
Proof.
  induction 1 as [|u els Hu _ IH]; [reflexivity|]. simpl. rewrite Hu. exact IH.
Qed.

Lemma visible_last d :
  tidy d ->
  visible d = [] \/
  exists t, last (elements d) = Some t /\ attached t = true /\ visible d = [t].
Proof.
  unfold tidy, visible. destruct d as [els tm]. simpl. clear tm. intros Hd.
  destruct els as [|t els _] using rev_ind; [left; reflexivity|].
  assert (Hn : List.filter attached els = []).
  { apply filter_detached, (before_last_detached els t).
    intros j u Hj. apply Hd, Hj. }
  rewrite List.filter_app, Hn. simpl. destruct (attached t) eqn:E.
  - right. exists t. rewrite last_snoc. auto.
  - left. reflexivity.
Qed.

Lemma fire_keeps_last k d t :
  last (elements d) = Some t ->
  exists t', last (elements (fire k d)) = Some t' /\
             toast_text t' = toast_text t /\ toast_class t' = toast_class t.
Proof.
  intros Hl.
  assert (Halt : forall f i, (forall u, toast_text (f u) = toast_text u /\
                                        toast_class (f u) = toast_class u) ->
            exists t', last (alter f i (elements d)) = Some t' /\
                       toast_text t' = toast_text t /\ toast_class t' = toast_class t).
  { intros f i Hf. rewrite last_lookup in Hl |- *. rewrite length_alter.
    destruct (decide (i = Nat.pred (length (elements d)))) as [->|Hne].
    - rewrite list_lookup_alter_eq, Hl. simpl. eexists. split; [reflexivity|]. apply Hf.
    - rewrite list_lookup_alter_ne by exact Hne. exists t. auto. }
  unfold fire. destruct (timers d !! k) as [[i|i|i]|]; simpl.
  - apply Halt. intros u. split; reflexivity.
  - apply Halt. intros u. split; reflexivity.
  - apply Halt. intros u. split; reflexivity.
  - exists t. auto.
Qed.

Lemma fires_keep_last es : forall d t,
  Forall is_fire es -> last (elements d) = Some t ->
  exists t', last (elements (steps es d)) = Some t' /\
             toast_text t' = toast_text t /\ toast_class t' = toast_class t.
Proof.
  induction es as [|e es IH]; intros d t He Hl; [exists t; auto|].
  apply Forall_cons in He as [He Hes]. destruct e as [m ty|k]; [destruct He|].
  simpl. destruct (fire_keeps_last k d t Hl) as (t1 & H1 & T1 & C1).
  destruct (IH (fire k d) t1 Hes H1) as (t2 & H2 & T2 & C2).
  exists t2. split; [exact H2|]. split; congruence.
Qed.

(** X15. However calls of [showNotification] and firings of its timers
    interleave, at most one notification is in the document, and every
    notification ever created sits at top -100px or 20px.  After a call
    with a message, whatever timers fire next, those of earlier
    notifications included, a notification in the document is the one
    just created, with that message and the class of its type. *)
Theorem X15_one_toast (es fs : list Step) (m ty : string) :
  Forall is_fire fs ->
  let d := steps es empty_doc in
  let d' := steps fs (showNotification m ty d) in
  (length (visible d) <= 1)%nat /\
  Forall (fun t => toast_top t = "-100px" \/ toast_top t = "20px") (elements d) /\
  Forall (fun t => toast_text t = m /\
                   toast_class t = ("notification notification-" ++ ty)%string)
         (visible d').
Proof.
  intros Hf d d'.
  assert (Hd : tidy d) by apply tidy_steps, tidy_empty.
  assert (Hd' : tidy d').
  { apply tidy_steps. apply (tidy_step d (Show m ty)), Hd. }
  split; [|split].
  - destruct (visible_last d Hd) as [->|(t & _ & _ & ->)]; simpl; lia.
  - apply Forall_lookup. intros j t Hj. apply (Hd j t Hj).
  - destruct (visible_last d' Hd') as [->|(t & Hl & _ & ->)]; [constructor|].
    constructor; [|constructor].
    destruct (fires_keep_last fs (showNotification m ty d)
                (mkToast (("notification notification-" ++ ty)%string) m "-100px" true) Hf)
      as (t' & Hl' & Ht & Hc).
    { unfold showNotification. simpl. apply last_snoc. }
    fold d' in Hl'. rewrite Hl in Hl'. injection Hl' as <-. auto.
Qed.

Lemma X15_one_toast_witness :
  Forall (fun t => toast_text t = "second" /\
                   toast_class t = "notification notification-error")
         (visible (steps [Fire 0; Fire 0; Fire 1]
                     (showNotification "second" "error"
                        (steps [Show "first" "success"; Fire 0] empty_doc)))).
Proof.
  apply (X15_one_toast [Show "first" "success"; Fire 0] [Fire 0; Fire 0; Fire 1]
           "second" "error").
  repeat constructor.
Defined.

End ToastProofs.

(** ** Properties of device detection and of the revealed cards *)
Module DeviceProofs.
Import Js Device FormProofs.
#[local] Open Scope list_scope.

Lemma ci_char_spec p c : ci_char p c = true <-> lower c = lower p.
Proof. unfold ci_char. rewrite N.eqb_eq. split; congruence. Qed.

Lemma lit_i_spec kw : forall w, matches (lit_i kw) w <-> map lower w = map lower kw.
Proof.
  induction kw as [|p kw IH]; intros w; simpl.
  - split.
    + intros H. apply matches_Eps_inv in H as ->. reflexivity.
    + intros H. apply map_eq_nil in H as ->. constructor.
  - split.
    + intros H. apply matches_Cat_inv in H as (s1 & s2 & -> & H1 & H2).
      apply matches_Class_inv in H1 as (c & -> & Hc).
      apply ci_char_spec in Hc. apply IH in H2. simpl. congruence.
    + intros H. destruct w as [|c w]; [discriminate|]. simpl in H.
      injection H as Hc Hw. change (c :: w) with ([c] ++ w).
      constructor; [constructor; apply ci_char_spec, Hc|apply IH, Hw].
Qed.

Lemma matches_any s : matches (Star any_char) s.
Proof.
  induction s as [|c s IH]; [constructor|].
  change (c :: s) with ([c] ++ s). constructor; [constructor; reflexivity|exact IH].
Qed.

Lemma alternatives_spec ks w :
  matches (fold_right (fun k r => Alt (lit_i k) r) Void ks) w <->
  exists k, In k ks /\ matches (lit_i k) w.
Proof.
  induction ks as [|k ks IH]; simpl.
  - split; [intros H; destruct (matches_Void_inv _ H)|intros (k & [] & _)].
  - split.
    + intros H. apply matches_Alt_inv in H as [H|H]; [eauto|].
      apply IH in H as (k' & Hin & Hm). eauto.
    + intros (k' & [<-|Hin] & Hm); [apply MAltL, Hm|].
      apply MAltR, IH. eauto.
Qed.

Lemma test_search_spec r s :
  test_search r s = true <-> exists pre w post, s = pre ++ w ++ post /\ matches r w.
Proof.
  unfold test_search. rewrite test_anchored_spec. split.
  - intros H. apply matches_Cat_inv in H as (pre & rest & -> & _ & H).
    apply matches_Cat_inv in H as (w & post & -> & Hw & _). eauto.
  - intros (pre & w & post & -> & Hw).
    constructor; [apply matches_any|]. constructor; [exact Hw|apply matches_any].
Qed.

(** X16. [isMobile] answers true exactly when the user agent contains
    one of the eight keywords of its expression as a substring, ASCII
    letters compared without regard to case and every other code unit
    exactly; and [shouldUpdate] answers true whenever the agent is not
    mobile or no last update has been recorded. *)
Theorem X16_isMobile_keywords (ua : jsstring) :
  (isMobile ua = true <->
   exists k pre w post,
     In k keywords /\ ua = pre ++ w ++ post /\ map lower w = map lower k) /\
  (forall l now, isMobile ua = false -> shouldUpdate ua l now = true) /\
  (forall now, shouldUpdate ua None now = true).
Proof.
  split; [|split].
  - unfold isMobile, mobileRegex. rewrite test_search_spec. split.
    + intros (pre & w & post & E & H). apply alternatives_spec in H as (k & Hin & Hm).
      apply lit_i_spec in Hm. exists k, pre, w, post. auto.
    + intros (k & pre & w & post & Hin & E & Hm). exists pre, w, post.
      split; [exact E|]. apply alternatives_spec. exists k. split; [exact Hin|].
      apply lit_i_spec, Hm.
  - intros l now H. unfold shouldUpdate. rewrite H. reflexivity.
  - intros now. unfold shouldUpdate. destruct (isMobile ua); reflexivity.
Qed.

Lemma X16_isMobile_keywords_witness :
  isMobile (of_string "Mozilla/5.0 (IPHONE; CPU iPhone OS 17_0 like Mac OS X)") = true /\
  shouldUpdate (of_string "Mozilla/5.0 (X11; Linux x86_64)") (Some 5%R) 6%R = true.
Proof.
  split.
  - apply (X16_isMobile_keywords
             (of_string "Mozilla/5.0 (IPHONE; CPU iPhone OS 17_0 like Mac OS X)")).
    exists (of_string "iPhone"), (of_string "Mozilla/5.0 ("), (of_string "IPHONE"),
           (of_string "; CPU iPhone OS 17_0 like Mac OS X)").
    split; [vm_compute; tauto|]. split; reflexivity.
  - apply (X16_isMobile_keywords (of_string "Mozilla/5.0 (X11; Linux x86_64)")).
    vm_compute. reflexivity.
Defined.

End DeviceProofs.

Module RevealProofs.
Import Reveal.
#[local] Open Scope string_scope.
#[local] Open Scope list_scope.

Lemma on_entry_lookup cs e i :
  on_entry cs e !! i
  = if isIntersecting e && Nat.eqb (target e) i then reveal <$> cs !! i else cs !! i.
Proof.
  unfold on_entry. destruct (isIntersecting e); simpl; [|reflexivity].
  destruct (Nat.eqb (target e) i) eqn:E.
  - apply Nat.eqb_eq in E as ->. apply list_lookup_alter_eq.
  - apply Nat.eqb_neq in E. apply list_lookup_alter_ne, E.
Qed.

Lemma callback_lookup es : forall cs i,
  callback cs es !! i = if hit i es then reveal <$> cs !! i else cs !! i.
Proof.
  unfold callback, hit. induction es as [|e es IH]; intros cs i; [reflexivity|].
  simpl. rewrite IH, on_entry_lookup.
  destruct (isIntersecting e && Nat.eqb (target e) i); simpl; [|reflexivity].
  destruct (existsb _ es); [|reflexivity].
  destruct (cs !! i); reflexivity.
Qed.

Lemma callbacks_concat bs : forall cs, callbacks cs bs = callback cs (concat bs).
Proof.
  unfold callbacks. induction bs as [|b bs IH]; intros cs; [reflexivity|].
  simpl. rewrite IH. unfold callback. rewrite fold_left_app. reflexivity.
Qed.

Lemma hit_seen i bs : hit i (concat bs) = true <-> seen i bs.
Proof.
  unfold hit, seen. rewrite existsb_exists. split.
  - intros (e & Hin & He). apply in_concat in Hin as (es & Hes & Hin).
    apply andb_true_iff in He as [H1 H2]. apply Nat.eqb_eq in H2.
    exists es, e. auto.
  - intros (es & e & Hes & Hin & Ht & Hi). exists e. split.
    + apply in_concat. eauto.
    + rewrite Hi. simpl. apply Nat.eqb_eq, Ht.
Qed.

(** X17. After initialisation and any run of observer callbacks, a card
    is fully opaque and in place exactly when some callback has reported
    it as intersecting, and otherwise still transparent and shifted:
    a card once revealed is never hidden again, whatever later entries
    say. *)
Theorem X17_cards_stay_revealed (cards : list Card) (bs : list (list Entry))
        (i : nat) (c : Card) :
  callbacks (initScrollAnimations cards) bs !! i = Some c ->
  (seen i bs /\ opacity c = "1" /\ transform c = "translateY(0)") \/
  (~ seen i bs /\ opacity c = "0" /\ transform c = "translateY(30px)").
Proof.
  rewrite callbacks_concat, callback_lookup. unfold initScrollAnimations.
  rewrite list_lookup_fmap. destruct (hit i (concat bs)) eqn:E.
  - apply hit_seen in E. destruct (cards !! i); simpl; [|discriminate].
    intros H. injection H as <-. left. auto.
  - assert (Hn : ~ seen i bs) by (rewrite <- hit_seen, E; discriminate).
    destruct (cards !! i); simpl; [|discriminate].
    intros H. injection H as <-. right. auto.
Qed.

Lemma X17_cards_stay_revealed_witness :
  opacity (mkCard "1" "translateY(0)" "opacity 0.6s ease, transform 0.6s ease") = "1".
Proof.
  destruct (X17_cards_stay_revealed [mkCard "" "" ""; mkCard "" "" ""]
              [[mkEntry 1 true]; [mkEntry 1 false; mkEntry 0 false]] 1
              (mkCard "1" "translateY(0)" "opacity 0.6s ease, transform 0.6s ease")
              eq_refl) as [(_ & A & _)|(N & _)].
  - exact A.
  - exfalso. apply N. exists [mkEntry 1 true], (mkEntry 1 true).
    repeat split; try (left; reflexivity).
Defined.

End RevealProofs.
